(** * ilib-webpack-plugin: locale data aggregation and emission

    A shallow embedding of [emitLocaleData] and [addData] of
    ilib-webpack-plugin.js (the version with the process-wide emission
    cache), and the properties of its specification.  The older version
    of the file, which takes the requested names from the compilation and
    has no cache, has the same loop over locales and names, the same
    phases and the same bundles.

    Besides these two, the file embeds the helpers [makeDirs],
    [toIlibDataName], [findIlibRoot], [toArray] and [calcDataRoot], the
    finish-modules hook of [apply], [getDummyLocaleDataFiles], and the
    older [emitLocaleData].

    JavaScript strings are [string]; a value that is a string or
    [undefined] is an [option string]; a [Set] is the list of its elements
    in insertion order; a plain object used as a map is the list of its
    own properties in enumeration order.  Exceptions are explicit: a
    computation that can throw returns a [result]. *)

From Stdlib Require Import String Ascii List Bool Arith NArith Lia.
Import ListNotations.
Open Scope list_scope.
Open Scope string_scope.

Set Implicit Arguments.

(** ** JavaScript values, sets and objects *)

Module JS.

(** What the source catches in its [try] blocks or lets escape. *)
Inductive exn : Type :=
| TypeError (what : string)
| FsError (path : string)
| SyntaxError (text : string)
| ModuleNotFound (path : string).

Inductive result (A : Type) : Type :=
| Ok (a : A)
| Throw (e : exn).
Arguments Ok {A} a.
Arguments Throw {A} e.

(** Truthiness of a string-or-undefined value. *)
Definition truthy (v : option string) : bool :=
  match v with
  | Some s => negb (s =? "")
  | None => false
  end.

(** Conversion to string, as done by [+] and by a property key. *)
Definition toString (v : option string) : string :=
  match v with
  | Some s => s
  | None => "undefined"
  end.

(** [v || d] on strings. *)
Definition orElse (v : option string) (d : string) : string :=
  if truthy v then toString v else d.

(** *** Sets, in insertion order *)

Section SetOf.
Variable A : Type.
Variable eqb : A -> A -> bool.

Definition has (x : A) (s : list A) : bool := existsb (eqb x) s.

Definition add (x : A) (s : list A) : list A :=
  if has x s then s else (s ++ [x])%list.
End SetOf.

Definition JSSet : Type := list string.
Definition set_has : string -> JSSet -> bool := has String.eqb.
Definition set_add : string -> JSSet -> JSSet := add String.eqb.

Definition opt_eqb (a b : option string) : bool :=
  match a, b with
  | Some x, Some y => x =? y
  | None, None => true
  | _, _ => false
  end.

(** *** Plain objects

    The own property keys of an object are enumerated ([for ... in],
    [Object.keys]) with the array indices first, in ascending order, and
    then the other keys in the order they were created.  The list that
    stands for an object is kept in that order. *)

Definition is_digit (c : ascii) : bool :=
  let n := nat_of_ascii c in ((48 <=? n)%nat && (n <=? 57)%nat)%bool.

Fixpoint all_digits (s : string) : bool :=
  match s with
  | EmptyString => true
  | String c r => is_digit c && all_digits r
  end.

Fixpoint digits_value (acc : N) (s : string) : N :=
  match s with
  | EmptyString => acc
  | String c r => digits_value (acc * 10 + N.of_nat (nat_of_ascii c - 48)) r
  end.

(** The array index a key denotes, if it is the canonical decimal string
    of an integer below 2^32 - 1. *)
Definition array_index (k : string) : option N :=
  match k with
  | EmptyString => None
  | String c r =>
      if all_digits k && (negb (c =? "0")%char || (r =? "")) then
        let n := digits_value 0 k in
        if (n <? 4294967295)%N then Some n else None
      else None
  end.

Definition Obj (V : Type) : Type := list (string * V).

Section ObjOf.
Variable V : Type.

Fixpoint get (k : string) (o : Obj V) : option V :=
    match o with
    | [] => None
    | (k', v) :: rest => if k =? k' then Some v else get k rest
    end.

Fixpoint replace (k : string) (v : V) (o : Obj V) : Obj V :=
    match o with
    | [] => []
    | (k', v') :: rest =>
        if k =? k' then (k', v) :: rest else (k', v') :: replace k v rest
    end.

(** Position of a new array index [n]: before the first key that is
    not an index or is a larger one. *)
Fixpoint insert_index (n : N) (k : string) (v : V) (o : Obj V) : Obj V :=
    match o with
    | [] => [(k, v)]
    | (k', v') :: rest =>
        match array_index k' with
        | Some m =>
            if (n <? m)%N then (k, v) :: (k', v') :: rest
            else (k', v') :: insert_index n k v rest
        | None => (k, v) :: (k', v') :: rest
        end
    end.

(** [o[k] = v] *)
Definition set (k : string) (v : V) (o : Obj V) : Obj V :=
    match get k o with
    | Some _ => replace k v o
    | None =>
        match array_index k with
        | Some n => insert_index n k v o
        | None => (o ++ [(k, v)])%list
        end
    end.

Definition keys (o : Obj V) : list string := map fst o.
Definition values (o : Obj V) : list V := map snd o.
End ObjOf.

End JS.

Import JS.

(** ** String helpers of the source *)

Definition dq : string := String (ascii_of_nat 34) EmptyString.
Definition nl : string := String (ascii_of_nat 10) EmptyString.

(** [s.replace(/[...]/g, by)] for a character class. *)
Fixpoint replace_class (cls : ascii -> bool) (by_ : ascii) (s : string)
  : string :=
  match s with
  | EmptyString => EmptyString
  | String c r =>
      String (if cls c then by_ else c) (replace_class cls by_ r)
  end.

Definition one_of (cs : list ascii) (c : ascii) : bool :=
  existsb (Ascii.eqb c) cs.

(** The class [[\.:\(\)\/\\\+\-]] of [toIlibDataName]. *)
Definition data_name_class : ascii -> bool :=
  one_of ["."; ":"; "("; ")"; "/"; "\"; "+"; "-"]%char.

Definition toIlibDataName (str : string) : string :=
  if (str =? "") || (str =? "root") || (str =? "*") then ""
  else replace_class data_name_class "_"%char str.

(** [s.endsWith(suffix)] *)
Fixpoint endsWith (s suffix : string) : bool :=
  (s =? suffix) ||
  match s with
  | EmptyString => false
  | String _ r => endsWith r suffix
  end.

(** [\w] *)
Definition is_word (c : ascii) : bool :=
  let n := nat_of_ascii c in
  ((48 <=? n)%nat && (n <=? 57)%nat) || ((65 <=? n)%nat && (n <=? 90)%nat)
  || ((97 <=? n)%nat && (n <=? 122)%nat) || (n =? 95)%nat.

Fixpoint take_word (s : string) : string :=
  match s with
  | EmptyString => EmptyString
  | String c r => if is_word c then String c (take_word r) else EmptyString
  end.

Fixpoint strip_prefix (p s : string) : option string :=
  match p, s with
  | EmptyString, _ => Some s
  | String a p', String b s' => if Ascii.eqb a b then strip_prefix p' s' else None
  | String _ _, EmptyString => None
  end.

Fixpoint first_alternative (alts : list string) (s : string)
  : option (string * string) :=
  match alts with
  | [] => None
  | a :: rest =>
      match strip_prefix a s with
      | Some tail => Some (a, tail)
      | None => first_alternative rest s
      end
  end.

(** A match of [(nfc|nfd|nfkc|nfkd)(\/(\w+))?] that starts at the head of
    [s]: groups 1 and 3. *)
Definition normPattern_at (s : string) : option (string * option string) :=
  match first_alternative ["nfc"; "nfd"; "nfkc"; "nfkd"] s with
  | None => None
  | Some (form, tail) =>
      match tail with
      | String "/"%char r =>
          let w := take_word r in
          if w =? "" then Some (form, None) else Some (form, Some w)
      | _ => Some (form, None)
      end
  end.

(** [normPattern.exec(filename)] with [lastIndex] reset to 0: the
    leftmost match anywhere in the name. *)
Fixpoint normPattern_exec (filename : string)
  : option (string * option string) :=
  match normPattern_at filename with
  | Some m => Some m
  | None =>
      match filename with
      | EmptyString => None
      | String _ r => normPattern_exec r
      end
  end.

(** The [match] array of a successful [exec] has the whole match and the
    three groups. *)
Definition match_length : nat := 4.

(** [xs.join(sep)] *)
Fixpoint joinWith (sep : string) (xs : list string) : string :=
  match xs with
  | [] => ""
  | [x] => x
  | x :: rest => x ++ sep ++ joinWith sep rest
  end.

(** [path.split(/[\\\/]/)], [current] being the part read so far. *)
Fixpoint splitPath (current path : string) : list string :=
  match path with
  | EmptyString => [current]
  | String c r =>
      if (c =? "/")%char || (c =? "\")%char then current :: splitPath "" r
      else splitPath (current ++ String c "") r
  end.

(** [zone.replace(/-/g, "m").replace(/\+/g, "p")] *)
Definition zoneKey (zone : string) : string :=
  replace_class (Ascii.eqb "+"%char) "p"%char
    (replace_class (Ascii.eqb "-"%char) "m"%char zone).

(** ** The host: Node, the file system and the ilib classes

    What the source calls but does not define is a field of the
    environment.  The three JSON tables the source reads are taken in the
    format of the ilib data files: lang2charset.json and zonetab.json map a
    key to an array of strings, a charset file is an object that may carry
    the flag [optional]; a field returns [Throw] where the call throws.
    The objects that the pass builds are read under keys of its own
    making, and the properties they inherit from [Object.prototype] are
    left out there; the sources are read under the resource of any module
    of the compilation, and there the inherited properties are part of
    the model.  The output of [console.log] under [options.debug] is not.  The file system is read as it is when the pass
    starts: the pass reads the data root before it writes anything, and
    what it writes is the text it returns. *)

(** An instance of ilib's [Locale]. *)
Record locale : Type := mkLocale {
  language : option string;
  script : option string;
  region : option string
}.

Record Env : Type := mkEnv {
  (** [new Locale(spec)]; [getLanguage()] and [getScript()] return the
      fields. *)
  Locale : string -> locale;
  (** [new LocaleMatcher({locale: spec}).getLikelyLocale().getScript()] *)
  likelyScript : string -> option string;
  cwd : string;
  module_paths : list string;
  path_join : list string -> string;
  path_resolve : string -> string;
  path_isAbsolute : string -> bool;
  path_basename : string -> string -> string;
  path_dirname : string -> string;
  existsSync : string -> bool;
  readFileSync : string -> result string;
  readdirSync : string -> result (list string);
  (** [require(fileName)] of lang2charset.json *)
  require : string -> result (Obj (list string));
  (** [JSON.parse(data)] of the text of zonetab.json *)
  JSON_parse_zonetab : string -> result (Obj (list string));
  (** [JSON.parse(data)] of a charset file, then
      [typeof(cs.optional) === "boolean" && cs.optional] *)
  JSON_parse_optional : string -> result bool;
  (** [JSON.stringify({files: files})] *)
  JSON_stringify_files : list string -> string;
  (** [fs.mkdirSync(p)] for a directory [p] that is not there yet, and
      [fs.writeFileSync(file, text, "utf-8")]: whether they succeed *)
  mkdirSync : string -> result unit;
  writeFileSync : string -> string -> result unit;
  (** [Object.prototype[name]] as [+] writes it, for the names that every
      object inherits: constructor, toString and the like *)
  Object_prototype : string -> option string
}.

Record Options : Type := mkOptions {
  ilibRoot : option string;
  locales : list string;
  tempDir : option string;
  compilation : option string;
  debug : bool
}.

(** The locals of [emitLocaleData] that its closures update. *)
Record Agg : Type := mkAgg {
  normalizations : Obj JSSet;
  charsets : JSSet;
  charmaps : Obj JSSet;
  lang2charset : option (Obj (list string));
  outputSet : Obj (Obj string);
  manifest : JSSet;
  (** the errors printed by the [catch] blocks, oldest first *)
  console : list exn
}.

Definition emptyAgg : Agg := mkAgg [] [] [] None [] [] [].

Definition with_normalizations (x : Obj JSSet) (s : Agg) : Agg :=
  mkAgg x (charsets s) (charmaps s) (lang2charset s) (outputSet s)
    (manifest s) (console s).
Definition with_charsets (x : JSSet) (s : Agg) : Agg :=
  mkAgg (normalizations s) x (charmaps s) (lang2charset s) (outputSet s)
    (manifest s) (console s).
Definition with_charmaps (x : Obj JSSet) (s : Agg) : Agg :=
  mkAgg (normalizations s) (charsets s) x (lang2charset s) (outputSet s)
    (manifest s) (console s).
Definition with_lang2charset (x : option (Obj (list string))) (s : Agg)
  : Agg :=
  mkAgg (normalizations s) (charsets s) (charmaps s) x (outputSet s)
    (manifest s) (console s).
Definition with_outputSet (x : Obj (Obj string)) (s : Agg) : Agg :=
  mkAgg (normalizations s) (charsets s) (charmaps s) (lang2charset s) x
    (manifest s) (console s).
Definition with_manifest (x : JSSet) (s : Agg) : Agg :=
  mkAgg (normalizations s) (charsets s) (charmaps s) (lang2charset s)
    (outputSet s) x (console s).
Definition with_console (x : list exn) (s : Agg) : Agg :=
  mkAgg (normalizations s) (charsets s) (charmaps s) (lang2charset s)
    (outputSet s) (manifest s) x.

(** ** State and exceptions *)

Definition M (A : Type) : Type := Agg -> result A * Agg.

Definition ret {A} (a : A) : M A := fun s => (Ok a, s).
Definition raise {A} (e : exn) : M A := fun s => (Throw e, s).
Definition lift {A} (r : result A) : M A := fun s => (r, s).
Definition gets {A} (f : Agg -> A) : M A := fun s => (Ok (f s), s).
Definition modify (f : Agg -> Agg) : M unit := fun s => (Ok tt, f s).

Definition bindM {A B} (m : M A) (k : A -> M B) : M B :=
  fun s =>
    match m s with
    | (Ok a, s') => k a s'
    | (Throw e, s') => (Throw e, s')
    end.

Notation "x <- m ;; k" := (bindM m (fun x => k))
  (at level 61, m at next level, right associativity).
Notation "m ;;; k" := (bindM m (fun _ => k))
  (at level 61, right associativity).

(** [try { body } catch (e) { handler }]: what [body] did before it threw
    stays done. *)
Definition tryCatch (body : M unit) (handler : exn -> M unit) : M unit :=
  fun s =>
    match body s with
    | (Ok a, s') => (Ok a, s')
    | (Throw e, s') => handler e s'
    end.

(** [xs.forEach(f)], also [for (x in o)] over the keys [xs]. *)
Fixpoint forEach {A} (xs : list A) (f : A -> M unit) : M unit :=
  match xs with
  | [] => ret tt
  | x :: rest => f x ;;; forEach rest f
  end.

Definition when (b : bool) (m : M unit) : M unit :=
  if b then m else ret tt.

(** [console.log("ilib-webpack-plugin: Error: " + e)] *)
Definition logError (e : exn) : M unit :=
  modify (fun s => with_console (console s ++ [e])%list s).

(** [manifest.add(p)] *)
Definition manifestAdd (p : string) : M unit :=
  modify (fun s => with_manifest (set_add p (manifest s)) s).

(** [if (!outputSet[part]) outputSet[part] = {}] *)
Definition ensurePart (part : string) : M unit :=
  modify (fun s =>
    match get part (outputSet s) with
    | Some _ => s
    | None => with_outputSet (set part [] (outputSet s)) s
    end).

(** [outputSet[part][key]], a [TypeError] when [outputSet[part]] is
    undefined. *)
Definition readLine (part key : string) : M (option string) :=
  fun s =>
    match get part (outputSet s) with
    | Some bucket => (Ok (get key bucket), s)
    | None => (Throw (TypeError ("Cannot read property of undefined: " ++ part)), s)
    end.

(** [outputSet[part][key] = line], a [TypeError] when [outputSet[part]]
    is undefined. *)
Definition putLine (part key line : string) : M unit :=
  fun s =>
    match get part (outputSet s) with
    | Some bucket =>
        (Ok tt, with_outputSet (set part (set key line bucket) (outputSet s)) s)
    | None => (Throw (TypeError ("Cannot set property of undefined: " ++ part)), s)
    end.

(** ** The source, function by function *)

Section Source.
Variable env : Env.

(** [makeDirs(path)] *)
Definition makeDirs (path : string) : M unit :=
  let parts := splitPath "" path in
  forEach (seq 1 (List.length parts))
    (fun i =>
       let p := joinWith "/" (firstn i parts) in
       when (truthy (Some p) && (0 <? String.length p)%nat
             && negb (existsSync env p))
         (lift (mkdirSync env p))).

(** [toArray(set)] *)
Definition toArray (set : JSSet) : list string :=
  fold_left (fun ret element => (ret ++ [element])%list) set [].

(** [findIlibRoot()]: [dir && path.join(dir, "ilib")] for the first module
    path that holds ilib. *)
Definition findIlibRoot : option string :=
  match find (fun p => existsSync env (path_join env [p; "ilib/package.json"]))
             (module_paths env) with
  | Some dir => if dir =? "" then Some "" else Some (path_join env [dir; "ilib"])
  | None => None
  end.

(** [calcDataRoot(options)]; [path.join] throws on [undefined]. *)
Definition calcDataRoot (options : Options) : result string :=
  if negb (truthy (ilibRoot options)) then
    match findIlibRoot with
    | Some r => Ok (path_join env [r; "locale"])
    | None => Throw (TypeError "path.join: undefined")
    end
  else
    Ok (path_join env
          [toString (ilibRoot options);
           if opt_eqb (compilation options) (Some "uncompiled")
           then "data/locale" else "locale"]).

(** [path.resolve(options && path.isAbsolute(options.tempDir) ?
    options.tempDir : path.join(process.cwd(), options.tempDir ||
    'assets'))]; [path.isAbsolute] throws on [undefined]. *)
Definition calcOutputDir (options : Options) : result string :=
  match tempDir options with
  | None => Throw (TypeError "path.isAbsolute: undefined")
  | Some t =>
      Ok (path_resolve env
            (if path_isAbsolute env t then t
             else path_join env [cwd env; orElse (Some t) "assets"]))
  end.

(** The first loop over the locales: the scripts of the likely locales. *)
Definition likelyScripts (locs : list string) : JSSet :=
  fold_left
    (fun scripts loc =>
       if truthy (likelyScript env loc)
       then set_add (toString (likelyScript env loc)) scripts
       else scripts)
    locs [].

(** *** Charset and charmaps requests (lines 158-188) *)

Definition relativeModule (fileName : string) : string :=
  match fileName with
  | String c _ =>
      if (c =? "/")%char || (c =? ".")%char then fileName
      else "./" ++ fileName
  | EmptyString => "./" ++ fileName
  end.

Definition loadLang2charset (dataRoot : string) : M (Obj (list string)) :=
  cached <- gets lang2charset ;;
  match cached with
  | Some table => ret table
  | None =>
      table <- lift (require env
                 (relativeModule (path_join env [dataRoot; "lang2charset.json"]))) ;;
      modify (with_lang2charset (Some table)) ;;;
      ret table
  end.

Definition addAll (names : list string) (s : JSSet) : JSSet :=
  fold_left (fun acc name => set_add name acc) names s.

Definition charsetRequest (dataRoot loc filename : string) : M unit :=
  table <- loadLang2charset dataRoot ;;
  let l := Locale env loc in
  let spec := toString (language l)
              ++ (if truthy (script l) then "-" ++ toString (script l) else "") in
  match get spec table with
  | Some names =>
      modify (fun s => with_charsets (addAll names (charsets s)) s) ;;;
      when (filename =? "charmaps")
        (modify (fun s =>
           let current := match get spec (charmaps s) with
                          | Some cs => cs
                          | None => []
                          end in
           with_charmaps (set spec (addAll names current) (charmaps s)) s))
  | None => ret tt
  end.

(** *** Normalization requests (lines 189-196) *)

Definition normRequest (m : string * option string) : M unit :=
  let form := fst m in
  modify (fun s =>
    let current := match get form (normalizations s) with
                   | Some scripts => scripts
                   | None => []
                   end in
    with_normalizations
      (set form
         (if (3 <? match_length)%nat then set_add (orElse (snd m) "") current
          else current)
         (normalizations s)) s).

(** *** Time zones (lines 197-256) *)

Definition zoneLine (zone data : string) : string :=
  "ilib.data.zoneinfo[" ++ dq ++ zoneKey zone ++ dq ++ "] = " ++ data ++ ";" ++ nl.

Definition regionsOf (locs : list string) : list (option string) :=
  fold_left (fun acc loc => add opt_eqb (region (Locale env loc)) acc) locs [].

Definition zonesOf (zonetab : Obj (list string)) (regions : list (option string))
  : JSSet :=
  fold_left
    (fun acc r =>
       match get (toString r) zonetab with
       | Some zones => addAll zones acc
       | None => acc
       end)
    regions [].

Definition regionZone (dataRoot zone : string) : M unit :=
  tryCatch
    (let cwdToData := path_join env [dataRoot; "zoneinfo"; zone ++ ".json"] in
     when (existsSync env cwdToData)
       (data <- lift (readFileSync env cwdToData) ;;
        putLine "root" zone (zoneLine zone data) ;;;
        manifestAdd (path_join env ["zoneinfo"; zone ++ ".json"])))
    logError.

Definition genericZone (dataRoot file : string) : M unit :=
  let zone := path_basename env file ".json" in
  let cwdToData := path_join env [dataRoot; "zoneinfo"; file] in
  data <- lift (readFileSync env cwdToData) ;;
  putLine "root" zone (zoneLine zone data) ;;;
  manifestAdd (path_join env ["zoneinfo"; file]).

Definition isGenericZoneFile (pathname : string) : bool :=
  endsWith pathname ".json" && negb (pathname =? "zonetab.json").

Definition zoneinfoRequest (dataRoot : string) (locs : list string) : M unit :=
  let cwdToData := path_join env [dataRoot; "zoneinfo/zonetab.json"] in
  data <- lift (readFileSync env cwdToData) ;;
  zonetab <- lift (JSON_parse_zonetab env data) ;;
  let line := "ilib.data.zoneinfo.zonetab = " ++ data ++ ";" ++ nl in
  ensurePart "root" ;;;
  putLine "root" "zonetab" line ;;;
  manifestAdd "zoneinfo/zonetab.json" ;;;
  forEach (zonesOf zonetab (regionsOf locs)) (regionZone dataRoot) ;;;
  let zoneinfoDir := path_join env [dataRoot; "zoneinfo"] in
  top <- lift (readdirSync env zoneinfoDir) ;;
  etc <- lift (readdirSync env (path_join env [zoneinfoDir; "Etc"])) ;;
  let list := (top ++ map (fun zone => ("Etc/" ++ zone)%string) etc)%list in
  forEach (filter isGenericZoneFile list) (genericZone dataRoot).

(** *** Generic locale files (lines 257-305) *)

Definition parts (l : locale) : list (option string) :=
  ([Some "."; language l]
   ++ (if truthy (script l) then
         [Some (toString (language l) ++ "/" ++ toString (script l))%string]
         ++ (if truthy (region l) then
               [Some (toString (language l) ++ "/" ++ toString (script l)
                      ++ "/" ++ toString (region l))%string]
             else [])
       else [])
   ++ (if truthy (region l) then
         [Some (toString (language l) ++ "/" ++ toString (region l))%string;
          Some ("und/" ++ toString (region l))%string]
       else []))%list.

(** [(localeDir === "." ? "root" : localeDir).replace(/\//g, "-")] *)
Definition partName (localeDir : string) : string :=
  replace_class (Ascii.eqb "/"%char) "-"%char
    (if localeDir =? "." then "root" else localeDir).

Definition genericLine (part filename data : string) : string :=
  "ilib.data." ++ toIlibDataName filename
  ++ (if negb (part =? "root") then "_" ++ toIlibDataName part else "")
  ++ " = " ++ data ++ ";" ++ nl.

Definition genericPart (dataRoot filename : string) (localeDir : option string)
  : M unit :=
  tryCatch
    (match localeDir with
     | None => raise (TypeError "path.join: undefined")
     | Some dir =>
         let cwdToData := path_join env [dataRoot; dir; filename ++ ".json"] in
         let part := partName dir in
         ensurePart part ;;;
         if existsSync env cwdToData then
           present <- readLine part filename ;;
           when (negb (truthy present))
             (data <- lift (readFileSync env cwdToData) ;;
              putLine part filename (genericLine part filename data) ;;;
              manifestAdd (path_join env [dir; filename ++ ".json"]))
         else
           putLine part filename "" ;;;
           manifestAdd (path_join env [dir; filename ++ ".json"])
     end)
    logError.

Definition genericRequest (dataRoot loc filename : string) : M unit :=
  forEach (parts (Locale env loc)) (genericPart dataRoot filename).

(** *** The loop over locales and requested names (lines 155-307) *)

Definition request (dataRoot : string) (locs : list string)
  (loc filename : string) : M unit :=
  if (filename =? "charset") || (filename =? "charmaps") then
    charsetRequest dataRoot loc filename
  else
    match normPattern_exec filename with
    | Some m => normRequest m
    | None =>
        if filename =? "zoneinfo" then zoneinfoRequest dataRoot locs
        else genericRequest dataRoot loc filename
    end.

Definition requests (dataRoot : string) (locs : list string)
  (localeData : JSSet) : M unit :=
  forEach locs (fun loc => forEach localeData (request dataRoot locs loc)).

(** *** Charsets and charmaps (lines 309-352) *)

(** A loop whose body also updates a local of the enclosing block. *)
Fixpoint forEachWith {A B} (xs : list A) (f : A -> B -> M B) (b : B) : M B :=
  match xs with
  | [] => ret b
  | x :: rest => b' <- f x b ;; forEachWith rest f b'
  end.

Definition charsetAliases (dataRoot : string) : M unit :=
  let cwdToData := path_join env [dataRoot; "charsetaliases.json"] in
  present <- readLine "root" "charsetaliases" ;;
  when (negb (truthy present) && existsSync env cwdToData)
    (data <- lift (readFileSync env cwdToData) ;;
     putLine "root" "charsetaliases"
       ("ilib.data.charsetaliases = " ++ data ++ ";" ++ nl) ;;;
     manifestAdd "charsetaliases.json").

Definition charsetLine (charset data : string) : string :=
  "ilib.data.charset_" ++ toIlibDataName charset ++ " = " ++ data ++ ";" ++ nl.

Definition charmapLine (charset data : string) : string :=
  "ilib.data.charmaps_" ++ toIlibDataName charset ++ " = " ++ data ++ ";" ++ nl.

Definition charsetFile (dataRoot charset : string) (optional : JSSet)
  : M JSSet :=
  let cwdToData := path_join env [dataRoot; "charset"; charset ++ ".json"] in
  let filename := "charset_" ++ charset in
  present <- readLine "root" filename ;;
  if negb (truthy present) && existsSync env cwdToData then
    data <- lift (readFileSync env cwdToData) ;;
    putLine "root" filename (charsetLine charset data) ;;;
    manifestAdd (path_join env ["charset"; charset ++ ".json"]) ;;;
    isOptional <- lift (JSON_parse_optional env data) ;;
    ret (if isOptional then set_add charset optional else optional)
  else ret optional.

Definition charmapFile (dataRoot : string) (optional : JSSet)
  (charset : string) : M unit :=
  let cwdToData := path_join env [dataRoot; "charmaps"; charset ++ ".json"] in
  let filename := "charmaps_" ++ charset in
  if set_has charset optional then ret tt
  else
    present <- readLine "root" filename ;;
    when (negb (truthy present) && existsSync env cwdToData)
      (data <- lift (readFileSync env cwdToData) ;;
       putLine "root" filename (charmapLine charset data) ;;;
       manifestAdd (path_join env ["charmaps"; charset ++ ".json"])).

Definition charsetPhase (dataRoot : string) : M unit :=
  found <- gets charsets ;;
  when (0 <? List.length found)%nat
    (ensurePart "root" ;;;
     charsetAliases dataRoot ;;;
     optional <- forEachWith found (charsetFile dataRoot) [] ;;
     maps <- gets charmaps ;;
     forEach maps
       (fun entry => forEach (snd entry) (charmapFile dataRoot optional))).

(** *** Normalization forms (lines 354-383) *)

Definition formLine (form script data : string) : string :=
  "// form " ++ form ++ " script " ++ script ++ nl
  ++ "ilib.extend(ilib.data.norm." ++ form ++ ", " ++ data ++ ");" ++ nl.

Definition addForm (dataRoot form script : string) : M unit :=
  when (truthy (Some script))
    (tryCatch
       (let cwdToData := path_join env [dataRoot; form; script ++ ".json"] in
        when (existsSync env cwdToData)
          (data <- lift (readFileSync env cwdToData) ;;
           putLine "root" (form ++ "/" ++ script) (formLine form script data) ;;;
           manifestAdd (path_join env [form; script ++ ".json"])))
       logError).

(** [normalizations.size === n].  [normalizations] is a plain object, not
    a Set: its property [size] is undefined, or would be the Set of a form
    called size; neither is strictly equal to a number. *)
Definition sizeIs (forms : Obj JSSet) (n : nat) : bool :=
  match get "size" forms with
  | Some _ => false
  | None => false
  end.

Definition normForm (dataRoot : string) (scripts : JSSet) (forms : Obj JSSet)
  (entry : string * JSSet) : M unit :=
  let form := fst entry in
  if set_has "all" (snd entry) then addForm dataRoot form "all"
  else
    let set :=
      if sizeIs forms 0 || (set_has "" (snd entry) && sizeIs forms 1)
      then scripts else snd entry in
    forEach set (addForm dataRoot form).

Definition normPhase (dataRoot : string) (scripts : JSSet) : M unit :=
  forms <- gets normalizations ;;
  forEach forms (normForm dataRoot scripts forms).

(** *** Manifests and bundles (lines 385-435) *)

Definition manifestText (files : list string) : string :=
  "module.exports=" ++ JSON_stringify_files env files ++ ";" ++ nl.

Definition bundleText (dataFiles : Obj string) : string :=
  "module.exports.installLocale = function(ilib) {" ++ nl
  ++ String.concat "" (values dataFiles) ++ "};" ++ nl.

Definition emitBundle (outputPath : string) (entry : string * Obj string)
  (sources : Obj string) : M (Obj string) :=
  let outputFileName := fst entry ++ ".js" in
  let output := bundleText (snd entry) in
  let outputFile := path_join env [outputPath; outputFileName] in
  makeDirs (path_dirname env outputFile) ;;;
  lift (writeFileSync env outputFile output) ;;;
  ret (set outputFile output sources).

Definition emitFiles (outputDir : string) : M (Obj string) :=
  files <- gets manifest ;;
  let outputPath := path_join env [outputDir; "locales"] in
  let localFile := path_join env [outputPath; "localmanifest.js"] in
  makeDirs outputPath ;;;
  let localText := manifestText (toArray files) in
  let sources := set localFile localText [] in
  makeDirs outputPath ;;;
  lift (writeFileSync env localFile localText) ;;;
  buckets <- gets outputSet ;;
  let remoteFile := path_join env [outputPath; "remotemanifest.js"] in
  let remoteText := manifestText (map (fun file => file ++ ".js") (keys buckets)) in
  let sources := set remoteFile remoteText sources in
  lift (writeFileSync env remoteFile remoteText) ;;;
  forEachWith buckets (emitBundle outputPath) sources.

(** *** [emitLocaleData] without its cache test

    The assignments to [root] (line 141) and to [ilibRoot] (line 416) are
    left out: the locals are not used and their evaluation has no
    effect. *)

Definition pass (options : Options) (localeData : JSSet) : M (Obj string) :=
  outputDir <- lift (calcOutputDir options) ;;
  dataRoot <- lift (calcDataRoot options) ;;
  let scripts := likelyScripts (locales options) in
  requests dataRoot (locales options) localeData ;;;
  charsetPhase dataRoot ;;;
  normPhase dataRoot scripts ;;;
  emitFiles outputDir.

End Source.

(** ** The module state: [localeData] and [localeDataEmitted] *)

Record Plugin : Type := mkPlugin {
  localeData : JSSet;
  localeDataEmitted : option (Obj string)
}.

(** [emitLocaleData(compilation, options)]: the value returned or the
    exception thrown, and the module state afterwards.  The object
    returned is the cached object itself; the finish-modules hook, its
    caller, only reads it. *)
Definition emitLocaleData (env : Env) (options : Options) (st : Plugin)
  : result (Obj string) * Plugin :=
  match localeDataEmitted st with
  | Some sources => (Ok sources, st)
  | None =>
      match fst (pass env options (localeData st) emptyAgg) with
      | Ok sources => (Ok sources, mkPlugin (localeData st) (Some sources))
      | Throw e => (Throw e, st)
      end
  end.

(** [IlibDataPlugin.prototype.addData(data)] *)
Definition addData (data : string) (st : Plugin) : Plugin :=
  mkPlugin (set_add data (localeData st))
    (if negb (set_has data (localeData st)) then None else localeDataEmitted st).

(** ** A small world to run the source in *)

Module World.

(** [path.join] on segments that need no normalisation other than
    dropping the empty ones and ".". *)
Definition join (segments : list string) : string :=
  match filter (fun s => negb ((s =? "") || (s =? "."))) segments with
  | [] => "."
  | kept => joinWith "/" kept
  end.

Fixpoint lastSegment (acc s : string) : string :=
  match s with
  | EmptyString => acc
  | String c r =>
      if (c =? "/")%char then lastSegment "" r
      else lastSegment (acc ++ String c "") r
  end.

Fixpoint dropSuffix (s suffix : string) : string :=
  if s =? suffix then ""
  else match s with
       | EmptyString => ""
       | String c r => String c (dropSuffix r suffix)
       end.

Definition basename (file ext : string) : string :=
  let b := lastSegment "" file in
  if endsWith b ext && negb (b =? ext) then dropSuffix b ext else b.

Fixpoint dirnameAux (s : string) : option string :=
  match s with
  | EmptyString => None
  | String c r =>
      match dirnameAux r with
      | Some d => Some (String c d)
      | None => if (c =? "/")%char then Some "" else None
      end
  end.

Definition dirname (s : string) : string :=
  match dirnameAux s with
  | Some "" => "/"
  | Some d => d
  | None => "."
  end.

Definition localeTable : Obj locale :=
  [ ("en-US", mkLocale (Some "en") None (Some "US"));
    ("en-GB", mkLocale (Some "en") None (Some "GB"));
    ("de-DE", mkLocale (Some "de") None (Some "DE"));
    ("zh-Hans-CN", mkLocale (Some "zh") (Some "Hans") (Some "CN"));
    ("sr-Latn", mkLocale (Some "sr") (Some "Latn") None);
    ("en", mkLocale (Some "en") None None) ].

Definition likely : Obj string :=
  [ ("en-US", "Latn"); ("en-GB", "Latn"); ("de-DE", "Latn");
    ("zh-Hans-CN", "Hans"); ("sr-Latn", "Latn"); ("en", "Latn") ].

(** The files of the data root /ilib/locale, with their text. *)
Definition disk : Obj string :=
  [ ("/ilib/locale/localeinfo.json", "{A}");
    ("/ilib/locale/en/localeinfo.json", "{B}");
    ("/ilib/locale/en/US/localeinfo.json", "{C}");
    ("/ilib/locale/und/US/localeinfo.json", "{D}");
    ("/ilib/locale/lang2charset.json", "{L}");
    ("/ilib/locale/charsetaliases.json", "{X}");
    ("/ilib/locale/charset/ISO-8859-1.json", "{latin1}");
    ("/ilib/locale/charset/Big5.json", "{big5 optional}");
    ("/ilib/locale/charmaps/ISO-8859-1.json", "{map1}");
    ("/ilib/locale/charmaps/Big5.json", "{map5}");
    ("/ilib/locale/nfc/Latn.json", "{nfcLatn}");
    ("/ilib/locale/nfc/all.json", "{nfcAll}");
    ("/ilib/locale/zoneinfo/zonetab.json", "{Z}");
    ("/ilib/locale/zoneinfo/America/New_York.json", "{NY}");
    ("/ilib/locale/zoneinfo/Europe/Berlin.json", "{BER}");
    ("/ilib/locale/zoneinfo/UTC.json", "{UTC}");
    ("/ilib/locale/zoneinfo/Etc/GMT+1.json", "{G1}") ].

Definition directories : Obj (list string) :=
  [ ("/ilib/locale/zoneinfo",
     ["America"; "Etc"; "Europe"; "UTC.json"; "zonetab.json"]);
    ("/ilib/locale/zoneinfo/Etc", ["GMT+1.json"]) ].

Definition zonetab : Obj (list string) :=
  [ ("US", ["America/New_York"; "America/Chicago"]);
    ("DE", ["Europe/Berlin"]) ].

Definition l2c : Obj (list string) :=
  [ ("en", ["ISO-8859-1"]); ("de", ["ISO-8859-1"]);
    ("zh-Hans", ["Big5"]) ].

(** What an object inherits under Node, and the text of each. *)
Definition native (name : string) : string :=
  "function " ++ name ++ "() { [native code] }".

Definition objectPrototype : Obj string :=
  [ ("constructor", native "Object");
    ("__defineGetter__", native "__defineGetter__");
    ("__defineSetter__", native "__defineSetter__");
    ("hasOwnProperty", native "hasOwnProperty");
    ("__lookupGetter__", native "__lookupGetter__");
    ("__lookupSetter__", native "__lookupSetter__");
    ("isPrototypeOf", native "isPrototypeOf");
    ("propertyIsEnumerable", native "propertyIsEnumerable");
    ("toString", native "toString");
    ("valueOf", native "valueOf");
    ("__proto__", "[object Object]");
    ("toLocaleString", native "toLocaleString") ].

Definition read (files : Obj string) (p : string) : result string :=
  match get p files with
  | Some text => Ok text
  | None => Throw (FsError p)
  end.

(** The host over given files and directories. *)
Definition make (files : Obj string) (dirs : Obj (list string)) : Env :=
  {| Locale := fun spec =>
       match get spec localeTable with
       | Some l => l
       | None => mkLocale None None None
       end;
     likelyScript := fun spec => get spec likely;
     cwd := "/work";
     module_paths := ["/work/node_modules"];
     path_join := join;
     path_resolve := fun p => p;
     path_isAbsolute := fun p => match p with String "/"%char _ => true | _ => false end;
     path_basename := basename;
     path_dirname := dirname;
     existsSync := fun p =>
       match get p files, get p dirs with
       | None, None => false
       | _, _ => true
       end;
     readFileSync := read files;
     readdirSync := fun p =>
       match get p dirs with
       | Some names => Ok names
       | None => Throw (FsError p)
       end;
     require := fun p =>
       if p =? "/ilib/locale/lang2charset.json" then Ok l2c
       else Throw (ModuleNotFound p);
     JSON_parse_zonetab := fun text =>
       if text =? "{Z}" then Ok zonetab else Throw (SyntaxError text);
     JSON_parse_optional := fun text =>
       if text =? "{corrupt" then Throw (SyntaxError text)
       else Ok (text =? "{big5 optional}");
     JSON_stringify_files := fun files =>
       "{" ++ dq ++ "files" ++ dq ++ ":["
       ++ joinWith "," (map (fun f => dq ++ f ++ dq) files) ++ "]}";
     mkdirSync := fun _ => Ok tt;
     writeFileSync := fun _ _ => Ok tt;
     Object_prototype := fun name => get name objectPrototype |}.

Definition env : Env := make disk directories.

(** The same data root with a file Factory.json listed in the zoneinfo
    directory that cannot be read. *)
Definition unreadableZone : Env :=
  make disk
    (set "/ilib/locale/zoneinfo"
       ["America"; "Etc"; "Europe"; "Factory.json"; "UTC.json"; "zonetab.json"]
       directories).

(** The same data root where America/Chicago.json, a zone of US, is a
    directory: it exists and cannot be read. *)
Definition unreadableRegionZone : Env :=
  make disk
    (set "/ilib/locale/zoneinfo/America/Chicago.json" [] directories).

(** The same data root with a truncated charset file. *)
Definition corruptCharset : Env :=
  make (set "/ilib/locale/charset/ISO-8859-1.json" "{corrupt" disk) directories.

Definition options (locs : list string) : Options :=
  {| ilibRoot := Some "/ilib"; locales := locs; tempDir := Some "/out";
     compilation := None; debug := false |}.

End World.

(** ** The vocabulary of the properties *)

(** The chain in the words of the specification: the six candidates in
    their fixed order, each kept when its components are present. *)
Definition chainOfSpec (l : locale) : list (option string) :=
  let lang := toString (language l) in
  let scr := toString (script l) in
  let reg := toString (region l) in
  map snd
    (filter fst
       [ (true, Some ".");
         (true, language l);
         (truthy (script l), Some (lang ++ "/" ++ scr));
         (truthy (script l) && truthy (region l),
          Some (lang ++ "/" ++ scr ++ "/" ++ reg));
         (truthy (region l), Some (lang ++ "/" ++ reg));
         (truthy (region l), Some ("und/" ++ reg)) ]).

(** A call made by the host after the first emission. *)
Inductive call : Type :=
| CallEmit (env : Env) (options : Options)
| CallAddData (data : string).

Fixpoint run (calls : list call) (st : Plugin)
  : list (result (Obj string)) * Plugin :=
  match calls with
  | [] => ([], st)
  | CallEmit env options :: rest =>
      let r := emitLocaleData env options st in
      let rs := run rest (snd r) in
      (fst r :: fst rs, snd rs)
  | CallAddData data :: rest => run rest (addData data st)
  end.

Definition seenBefore (st : Plugin) (c : call) : Prop :=
  match c with
  | CallEmit _ _ => True
  | CallAddData data => In data (localeData st)
  end.

(** [keeps P m]: whether [m] returns or throws, it leaves [P] true. *)
Definition keeps (P : Agg -> Prop) {A} (m : M A) : Prop :=
  forall s, P s -> P (snd (m s)).

(** [runs Q m]: from a state in [Q], [m] returns and the state is in [Q]
    again. *)
Definition runs (Q : Agg -> Prop) (m : M unit) : Prop :=
  forall s, Q s -> fst (m s) = Ok tt /\ Q (snd (m s)).

(** A property of the buckets, as a property of the state. *)
Definition onBuckets (R : Obj (Obj string) -> Prop) (s : Agg) : Prop :=
  R (outputSet s).

(** Buckets are well formed when no partition occurs twice and no bucket
    holds a key twice. *)
Definition wellKeyed (o : Obj (Obj string)) : Prop :=
  NoDup (keys o) /\ Forall (fun entry => NoDup (keys (snd entry))) o.

(** A requested name that the loop treats as a normalization form. *)
Definition isNormName (filename : string) : bool :=
  negb ((filename =? "charset") || (filename =? "charmaps"))
  && match normPattern_exec filename with
     | Some _ => true
     | None => false
     end.

(** The error of [outputSet.root[key] = line] when no bucket was made for
    root. *)
Definition rootMissing : exn :=
  TypeError "Cannot set property of undefined: root".

(** What [addForm] can log: the missing root bucket, or the error of a
    file that is not read. *)
Definition loggedByAddForm (env : Env) (e : exn) : Prop :=
  e = rootMissing \/ exists p, readFileSync env p = Throw e.

(** Nothing emitted, nothing found for the charsets, and only the errors
    of [addForm] on the console. *)
Definition nothingEmitted (env : Env) (s : Agg) : Prop :=
  outputSet s = [] /\ manifest s = [] /\ charsets s = []
  /\ Forall (loggedByAddForm env) (console s).

(** The line that the root bucket holds under a key. *)
Definition rootLine (s : Agg) (key : string) : option string :=
  match get "root" (outputSet s) with
  | Some bucket => get key bucket
  | None => None
  end.

(** The forms of [normPattern]. *)
Definition isForm (form : string) : Prop :=
  In form ["nfc"; "nfd"; "nfkc"; "nfkd"].

Definition formsOnly (s : Agg) : Prop :=
  Forall isForm (keys (normalizations s)).

(** [s.startsWith(prefix)]: the line begins with the prefix. *)
Fixpoint beginsWith (prefix s : string) : bool :=
  match prefix, s with
  | EmptyString, _ => true
  | String a p, String b r => Ascii.eqb a b && beginsWith p r
  | String _ _, EmptyString => false
  end.

(** The charset is emitted: its line is in the root bucket under its
    key and its file is in the manifest. *)
Definition charsetEmitted (env : Env) (charset data : string) (s : Agg) : Prop :=
  rootLine s ("charset_" ++ charset) = Some (charsetLine charset data)
  /\ In (path_join env ["charset"; charset ++ ".json"]) (manifest s).

(** In the loop over the charsets: either the charset has been met, it is
    emitted and it is in [optional], or it has not been met yet and root
    holds no line under its key. *)
Definition charsetSeen (env : Env) (charset data : string) (optional : JSSet)
  (s : Agg) : Prop :=
  (In charset optional /\ charsetEmitted env charset data s)
  \/ (~ In charset optional
      /\ truthy (rootLine s ("charset_" ++ charset)) = false).

(** No line of the root bucket begins with the given text. *)
Definition rootFree (target : string) (s : Agg) : Prop :=
  forall bucket,
    get "root" (outputSet s) = Some bucket ->
    Forall (fun line => beginsWith target line = false) (values bucket).

(** Every charset of a list of [charmaps] is one of [charsets]. *)
Definition charmapsListed (s : Agg) : Prop :=
  Forall (fun entry => forall name, In name (snd entry) -> In name (charsets s))
    (charmaps s).

(** There is a root bucket. *)
Definition hasRoot (s : Agg) : Prop := get "root" (outputSet s) <> None.

Definition zoneFile (env : Env) (dataRoot zone : string) : string :=
  path_join env [dataRoot; "zoneinfo"; zone ++ ".json"].

(** The text of a zone file for a key of the root bucket: the file of a
    zone of the regions, which is there and is read, or a generic zone
    file with that base name. *)
Definition zoneText (env : Env) (dataRoot : string) (zones generic : list string)
  (key text : string) : Prop :=
  (In key zones
   /\ existsSync env (zoneFile env dataRoot key) = true
   /\ readFileSync env (zoneFile env dataRoot key) = Ok text)
  \/ exists file,
       In file generic
       /\ path_basename env file ".json" = key
       /\ readFileSync env (path_join env [dataRoot; "zoneinfo"; file]) = Ok text.

(** The root bucket holds under the key the line of a zone file for that
    key. *)
Definition zoneHeld (env : Env) (dataRoot : string) (zones generic : list string)
  (key : string) (s : Agg) : Prop :=
  exists text,
    zoneText env dataRoot zones generic key text
    /\ rootLine s key = Some (zoneLine key text).

(** The root bucket holds the table under zonetab, unless a zone of that
    name has taken the key. *)
Definition tabHeld (env : Env) (dataRoot : string) (zones generic : list string)
  (tabText : string) (s : Agg) : Prop :=
  rootLine s "zonetab"
  = Some ("ilib.data.zoneinfo.zonetab = " ++ tabText ++ ";" ++ nl)
  \/ zoneHeld env dataRoot zones generic "zonetab" s.

(** What a zoneinfo request leaves behind. *)
Definition zonesDone (env : Env) (dataRoot : string) (zones generic : list string)
  (tabText : string) (s : Agg) : Prop :=
  tabHeld env dataRoot zones generic tabText s
  /\ In "zoneinfo/zonetab.json" (manifest s)
  /\ (forall zone text,
        In zone zones ->
        existsSync env (zoneFile env dataRoot zone) = true ->
        readFileSync env (zoneFile env dataRoot zone) = Ok text ->
        zoneHeld env dataRoot zones generic zone s
        /\ In (path_join env ["zoneinfo"; zone ++ ".json"]) (manifest s))
  /\ (forall file,
        In file generic ->
        zoneHeld env dataRoot zones generic (path_basename env file ".json") s
        /\ In (path_join env ["zoneinfo"; file]) (manifest s)).

(** The keys of root that a zoneinfo request writes. *)
Definition zoneKeys (env : Env) (zones generic : list string) : list string :=
  "zonetab" :: zones ++ map (fun file => path_basename env file ".json") generic.

(** The keys of root that a zoneinfo request can write in a data root:
    none when the table is not read or not parsed; the generic zones
    only when both directories are listed. *)
Definition zoneKeysOf (env : Env) (dataRoot : string) (locs : list string)
  : list string :=
  match readFileSync env (path_join env [dataRoot; "zoneinfo/zonetab.json"]) with
  | Throw _ => []
  | Ok data =>
      match JSON_parse_zonetab env data with
      | Throw _ => []
      | Ok zonetab =>
          zoneKeys env (zonesOf zonetab (regionsOf env locs))
            match readdirSync env (path_join env [dataRoot; "zoneinfo"]) with
            | Throw _ => []
            | Ok top =>
                match readdirSync env
                        (path_join env [path_join env [dataRoot; "zoneinfo"]; "Etc"])
                with
                | Throw _ => []
                | Ok etc =>
                    filter isGenericZoneFile
                      (top ++ map (fun zone => ("Etc/" ++ zone)%string) etc)%list
                end
            end
      end
  end.

(** A step that writes at most one key of root, a zone line there, and
    only adds to the manifest. *)
Definition zoneStep (env : Env) (dataRoot : string) (zones generic : list string)
  (key : string) (s s' : Agg) : Prop :=
  (forall p, In p (manifest s) -> In p (manifest s'))
  /\ (forall k, k <> key -> rootLine s' k = rootLine s k)
  /\ (rootLine s' key = rootLine s key
      \/ zoneHeld env dataRoot zones generic key s')
  /\ (hasRoot s -> hasRoot s').

(** The non-empty lines of root under the keys are kept, and so is the
    manifest. *)
Definition extends (held : list string) (s s' : Agg) : Prop :=
  (forall key line,
     In key held -> line <> "" -> rootLine s key = Some line ->
     rootLine s' key = Some line)
  /\ (forall p, In p (manifest s) -> In p (manifest s')).

(** Two runs in the small world. *)
Definition big5Names : JSSet := ["charmaps"; "localeinfo"; "zoneinfo"].

Definition big5Run : result (Obj string) * Agg :=
  Eval vm_compute in
    pass World.env (World.options ["zh-Hans-CN"; "en-US"]) big5Names emptyAgg.

Definition sourcesOf (r : result (Obj string)) : Obj string :=
  match r with
  | Ok sources => sources
  | Throw _ => []
  end.

Definition firstEmit : result (Obj string) * Plugin :=
  Eval vm_compute in
    emitLocaleData World.env (World.options ["en-US"])
      (mkPlugin ["localeinfo"] None).

(** ** The rest of the module *)

Unset Implicit Arguments.

(** [toArray(set)] for a set that may hold [undefined]. *)
Definition toArrayOf {A : Type} (set : list A) : list A :=
  fold_left (fun ret element => (ret ++ [element])%list) set [].

(** *** [getDummyLocaleDataFiles] (lines 555-623) *)

(** The body of the loop over the locales: the names added for one
    locale to the set of the partitions. *)
Definition dummyNamesOf (l : locale) (outputSet : list (option string))
  : list (option string) :=
  let lang := toString (language l) in
  let s1 := add opt_eqb (language l) (add opt_eqb (Some "root") outputSet) in
  let s2 :=
    if truthy (script l) then
      let s := add opt_eqb (Some (lang ++ "-" ++ toString (script l))) s1 in
      if truthy (region l) then
        add opt_eqb
          (Some (lang ++ "-" ++ toString (script l) ++ "-" ++ toString (region l)))
          s
      else s
    else s1 in
  if truthy (region l) then
    add opt_eqb (Some ("und-" ++ toString (region l)))
      (add opt_eqb (Some (lang ++ "-" ++ toString (region l))) s2)
  else s2.

Definition dummyNames (env : Env) (locs : list string) : list (option string) :=
  fold_left (fun outputSet loc => dummyNamesOf (Locale env loc) outputSet) locs [].

(** The body of the loop over the files: an empty file where there is
    none. *)
Definition dummyFile (env : Env) (outputPath : string)
  (fileName : option string) : M unit :=
  let outputFile := path_join env [outputPath; toString fileName ++ ".js"] in
  when (negb (existsSync env outputFile))
    (makeDirs env (path_dirname env outputFile) ;;;
     lift (writeFileSync env outputFile "")).

(** [getDummyLocaleDataFiles] when [localeDataFiles] is not set. *)
Definition dummyPass (env : Env) (options : Options) : M (list (option string)) :=
  tempDir <- lift (calcOutputDir env options) ;;
  let files := toArrayOf (dummyNames env (locales options)) in
  let manifestObj := map (fun name => toString name ++ ".js") files in
  let outputPath := path_join env [tempDir; "locales"] in
  makeDirs env outputPath ;;;
  let manifestPath := path_join env [outputPath; "ilibmanifest.json"] in
  when (negb (existsSync env manifestPath))
    (lift (writeFileSync env manifestPath (JSON_stringify_files env manifestObj))) ;;;
  forEach files (dummyFile env outputPath) ;;;
  ret (files ++ [Some "ilibmanifest"])%list.

(** [IlibDataPlugin.prototype.getDummyLocaleDataFiles(compilation)], with
    the module variable [localeDataFiles] before and after. *)
Definition getDummyLocaleDataFiles (env : Env) (options : Options)
  (localeDataFiles : option (list (option string)))
  : result (list (option string)) * option (list (option string)) :=
  match localeDataFiles with
  | Some files => (Ok files, localeDataFiles)
  | None =>
      match fst (dummyPass env options emptyAgg) with
      | Ok files => (Ok files, Some files)
      | Throw e => (Throw e, None)
      end
  end.

(** *** The finish-modules hook of [apply] (lines 457-476, 482-501) *)

(** A module of the compilation: [module.resource] and
    [module._source._value]. *)
Record webpackModule : Type := mkModule {
  resource : option string;
  sourceValue : string
}.

(** [sources[key]]: the property of [sources] itself, or else the one it
    inherits. *)
Definition sourceAt (env : Env) (sources : Obj string) (key : string)
  : option string :=
  match get key sources with
  | Some text => Some text
  | None => Object_prototype env key
  end.

(** The loop over the modules: [if (sources[module.resource])
    module._source._value = '"use strict";' + sources[module.resource]]. *)
Definition updateModule (env : Env) (sources : Obj string) (m : webpackModule)
  : webpackModule :=
  if truthy (sourceAt env sources (toString (resource m))) then
    mkModule (resource m)
      (dq ++ "use strict" ++ dq ++ ";"
       ++ toString (sourceAt env sources (toString (resource m))))
  else m.

(** The hook: the modules and the module state afterwards, or the
    exception that the hook logs and throws again. *)
Definition finishModules (env : Env) (options : Options) (st : Plugin)
  (modules : list webpackModule) : result (list webpackModule) * Plugin :=
  if (0 <? List.length (localeData st))%nat then
    match emitLocaleData env options st with
    | (Ok sources, st') => (Ok (map (updateModule env sources) modules), st')
    | (Throw e, st') => (Throw e, st')
    end
  else (Ok modules, st).

(** *** The older version of the module (ilib-webpack-plugin.js)

    The older [emitLocaleData] takes the requested names and the output
    directory from the compilation, has no cache, and files the bundles
    in the sources without writing them.  Its loop over the locales and
    the names, its charsets and its normalization forms are those of the
    newer version, line by line.  The message that it prints when the
    compilation has no set of names is not an error of a [catch] block
    and is left out of the console. *)

(** [compilation.localeDataSet] and [compilation.options.output.path]. *)
Record Compilation : Type := mkCompilation {
  localeDataSet : option JSSet;
  output_path : string
}.

(** The body of the loop over the buckets: [sources[outputFile] = output]. *)
Definition fileBundle (env : Env) (outputPath : string)
  (sources : Obj string) (entry : string * Obj string) : Obj string :=
  set (path_join env [outputPath; fst entry ++ ".js"]) (bundleText (snd entry))
    sources.

Definition emitFilesOld (env : Env) (outputDir : string) : M (Obj string) :=
  files <- gets manifest ;;
  let outputPath := path_join env [outputDir; "locales"] in
  let localFile := path_join env [outputPath; "localmanifest.js"] in
  makeDirs env outputPath ;;;
  let localText := manifestText env (toArray files) in
  let sources := set localFile localText [] in
  makeDirs env outputPath ;;;
  lift (writeFileSync env localFile localText) ;;;
  buckets <- gets outputSet ;;
  let remoteFile := path_join env [outputPath; "remotemanifest.js"] in
  let remoteText := manifestText env (map (fun file => file ++ ".js") (keys buckets)) in
  let sources := set remoteFile remoteText sources in
  lift (writeFileSync env remoteFile remoteText) ;;;
  ret (fold_left (fileBundle env outputPath) buckets sources).

(** The older [emitLocaleData(compilation, options)]; it returns an empty
    array when the compilation has no set of names. *)
Definition emitLocaleDataOld (env : Env) (compilation : Compilation)
  (options : Options) : M (Obj string) :=
  match localeDataSet compilation with
  | Some names =>
      dataRoot <- lift (calcDataRoot env options) ;;
      let scripts := likelyScripts env (locales options) in
      requests env dataRoot (locales options) names ;;;
      charsetPhase env dataRoot ;;;
      normPhase env dataRoot scripts ;;;
      emitFilesOld env (output_path compilation)
  | None => ret []
  end.

(** *** More vocabulary *)

(** The line that the bucket of a partition holds under a key. *)
Definition lineAt (s : Agg) (part key : string) : option string :=
  match get part (outputSet s) with
  | Some bucket => get key bucket
  | None => None
  end.

Fixpoint allWord (s : string) : bool :=
  match s with
  | EmptyString => true
  | String c r => is_word c && allWord r
  end.

Fixpoint noneOf (cls : ascii -> bool) (s : string) : bool :=
  match s with
  | EmptyString => true
  | String c r => negb (cls c) && noneOf cls r
  end.

Definition noSlash (s : string) : bool := noneOf (Ascii.eqb "/"%char) s.

(** A locale whose components, as they are written into a directory
    name, hold no slash. *)
Definition plainLocale (l : locale) : bool :=
  noSlash (toString (language l)) && noSlash (toString (script l))
  && noSlash (toString (region l)).

(** Every partition that has a bucket is one of the given names. *)
Definition covered (names : list (option string)) (s : Agg) : Prop :=
  forall part, In part (keys (outputSet s)) -> In (Some part) names.

(** The directories that [makeDirs] considers, shortest first. *)
Definition dirPrefixes (path : string) : list string :=
  map (fun i => joinWith "/" (firstn i (splitPath "" path)))
    (seq 1 (List.length (splitPath "" path))).

(** The set of a form holds a script. *)
Definition holdsScript (form script : string) (s : Agg) : Prop :=
  exists scripts,
    get form (normalizations s) = Some scripts /\ In script scripts.

(** Every charset whose charmap is wanted for a locale is a charset to
    load. *)
Definition charmapsKnown (s : Agg) : Prop :=
  forall spec names name,
    get spec (charmaps s) = Some names -> In name names -> In name (charsets s).

(** The key of a locale in lang2charset.json. *)
Definition specOf (l : locale) : string :=
  toString (language l)
  ++ (if truthy (script l) then "-" ++ toString (script l) else "").

(** The table in use is the one that [require] gave, and every charset
    to load is listed in it for one of the locales. *)
Definition charsetsFrom (env : Env) (dataRoot : string) (locs : list string)
  (s : Agg) : Prop :=
  (forall table, lang2charset s = Some table ->
     require env (relativeModule (path_join env [dataRoot; "lang2charset.json"]))
     = Ok table)
  /\ forall charset, In charset (charsets s) ->
       exists loc table found,
         In loc locs
         /\ require env (relativeModule (path_join env [dataRoot; "lang2charset.json"]))
            = Ok table
         /\ get (specOf (Locale env loc)) table = Some found
         /\ In charset found.

(** A requested name that the loop looks up along the chain of each
    locale. *)
Definition isGenericName (filename : string) : bool :=
  negb ((filename =? "charset") || (filename =? "charmaps"))
  && match normPattern_exec filename with
     | Some _ => false
     | None => true
     end
  && negb (filename =? "zoneinfo").

(** What [addForm] logs where root has no bucket: nothing when the script
    is empty or the file is not there, the error of the read when the
    file is not read, and else the error of the assignment. *)
Definition addFormLog (env : Env) (dataRoot form script : string) : list exn :=
  if truthy (Some script)
     && existsSync env (path_join env [dataRoot; form; script ++ ".json"])
  then
    match readFileSync env (path_join env [dataRoot; form; script ++ ".json"]) with
    | Ok _ => [rootMissing]
    | Throw e => [e]
    end
  else [].

(** The scripts that the loop over the forms goes through for a form. *)
Definition scriptsTried (entry : string * JSSet) : JSSet :=
  if set_has "all" (snd entry) then ["all"] else snd entry.

(** An entry that a generic name has left in the bucket of a partition:
    the name is a requested one, and its line is empty or the line of a
    file of that name in a directory of the partition. *)
Definition genericEntry (env : Env) (dataRoot : string) (names : JSSet)
  (part : string) (e : string * string) : Prop :=
  In (fst e) names /\ isGenericName (fst e) = true
  /\ (snd e = ""
      \/ exists dir data,
           partName dir = part
           /\ readFileSync env (path_join env [dataRoot; dir; fst e ++ ".json"])
              = Ok data
           /\ snd e = genericLine part (fst e) data).

(** The bucket of a partition, if there is one, holds entries of generic
    names only, one for a name. *)
Definition genericBucket (env : Env) (dataRoot : string) (names : JSSet)
  (part : string) (s : Agg) : Prop :=
  forall bucket,
    get part (outputSet s) = Some bucket ->
    NoDup (keys bucket) /\ Forall (genericEntry env dataRoot names part) bucket.

(** *** More worlds *)

(** A host whose output tree cannot be written. *)
Definition readOnly (e : Env) : Env :=
  mkEnv (Locale e) (likelyScript e) (cwd e) (module_paths e) (path_join e)
    (path_resolve e) (path_isAbsolute e) (path_basename e) (path_dirname e)
    (existsSync e) (readFileSync e) (readdirSync e) (require e)
    (JSON_parse_zonetab e) (JSON_parse_optional e) (JSON_stringify_files e)
    (fun p => Throw (FsError p)) (fun p _ => Throw (FsError p))
    (Object_prototype e).

(** The small world once the placeholders of en-US are there. *)
Definition prepared : Env :=
  World.make
    (World.disk
     ++ [ ("/out/locales/ilibmanifest.json", "{}");
          ("/out/locales/root.js", ""); ("/out/locales/en.js", "");
          ("/out/locales/en-US.js", ""); ("/out/locales/und-US.js", "") ])%list
    (World.directories
     ++ [ ("/out", ["locales"]); ("/out/locales", []) ])%list.

Set Implicit Arguments.

(** ** Facts about sets and objects *)

Section SetFacts.

Lemma set_has_In (x : string) (s : JSSet) : set_has x s = true <-> In x s.
Proof.
  unfold set_has, has. rewrite existsb_exists. split.
  - intros [y [Hy He]]. apply String.eqb_eq in He. now subst.
  - intros H. exists x. split; [assumption | apply String.eqb_refl].
Qed.

Lemma set_has_false (x : string) (s : JSSet) :
  set_has x s = false <-> ~ In x s.
Proof.
  rewrite <- set_has_In. destruct (set_has x s); split; congruence.
Qed.

Lemma In_set_add (x y : string) (s : JSSet) :
  In x (set_add y s) <-> x = y \/ In x s.
Proof.
  unfold set_add, add. fold (set_has y s).
  destruct (set_has y s) eqn:E.
  - apply set_has_In in E. split; [auto | intros [->|]; auto].
  - rewrite in_app_iff. simpl. intuition congruence.
Qed.

Lemma NoDup_set_add (y : string) (s : JSSet) :
  NoDup s -> NoDup (set_add y s).
Proof.
  intros H. unfold set_add, add. fold (set_has y s).
  destruct (set_has y s) eqn:E; [assumption|].
  apply set_has_false in E.
  apply NoDup_rev in H. rewrite <- (rev_involutive (s ++ [y])%list).
  apply NoDup_rev. rewrite rev_app_distr. simpl. constructor; [|assumption].
  now rewrite <- in_rev.
Qed.

Lemma In_addAll (x : string) (names : list string) (s : JSSet) :
  In x (addAll names s) <-> In x names \/ In x s.
Proof.
  unfold addAll. revert s. induction names as [|n names IH]; intros s; simpl.
  - tauto.
  - rewrite IH, In_set_add. intuition congruence.
Qed.

End SetFacts.

Section ObjFacts.
Variable V : Type.
Implicit Types (o : Obj V) (k : string) (v : V).

Lemma get_None_keys o k : get k o = None <-> ~ In k (keys o).
Proof.
  induction o as [|[k' v'] o IH]; simpl.
  - tauto.
  - destruct (String.eqb_spec k k') as [->|Hne].
    + split; [discriminate | intros H; exfalso; auto].
    + rewrite IH. intuition congruence.
Qed.

Lemma get_Some_keys o k v : get k o = Some v -> In k (keys o).
Proof.
  intros H. destruct (in_dec string_dec k (keys o)) as [|Hn]; [assumption|].
  apply get_None_keys in Hn. congruence.
Qed.

Lemma get_In o k v : get k o = Some v -> In (k, v) o.
Proof.
  induction o as [|[k' v'] o IH]; simpl; [discriminate|].
  destruct (String.eqb_spec k k') as [->|Hne].
  - intros [= ->]. now left.
  - intros H. right. auto.
Qed.

Lemma keys_replace o k v : keys (replace k v o) = keys o.
Proof.
  induction o as [|[k' v'] o IH]; simpl; [reflexivity|].
  destruct (k =? k'); simpl; [reflexivity | now rewrite IH].
Qed.

Lemma get_replace_same o k v v0 :
  get k o = Some v0 -> get k (replace k v o) = Some v.
Proof.
  induction o as [|[k' v'] o IH]; simpl; [discriminate|].
  destruct (k =? k') eqn:E; simpl; rewrite E; auto.
Qed.

Lemma get_replace_other o k k' v :
  k' <> k -> get k' (replace k v o) = get k' o.
Proof.
  intros Hne. induction o as [|[k1 v1] o IH]; simpl; [reflexivity|].
  destruct (String.eqb_spec k k1) as [->|Hk]; simpl.
  - destruct (String.eqb_spec k' k1); [contradiction | reflexivity].
  - now rewrite IH.
Qed.

Lemma In_keys_insert_index o n k v x :
  In x (keys (insert_index n k v o)) <-> x = k \/ In x (keys o).
Proof.
  induction o as [|[k' v'] o IH]; simpl.
  - intuition congruence.
  - destruct (array_index k') as [m|]; [destruct (n <? m)%N|]; simpl;
      rewrite ?IH; intuition congruence.
Qed.

Lemma NoDup_keys_insert_index o n k v :
  ~ In k (keys o) -> NoDup (keys o) -> NoDup (keys (insert_index n k v o)).
Proof.
  induction o as [|[k' v'] o IH]; simpl; intros Hn Hd.
  - constructor; [tauto | constructor].
  - inversion Hd as [|? ? Hk' Hd']; subst.
    destruct (array_index k') as [m|]; [destruct (n <? m)%N|]; simpl;
      try (constructor; [simpl; tauto | assumption]).
    constructor.
    + rewrite In_keys_insert_index. intuition.
    + apply IH; tauto.
Qed.

Lemma get_insert_index_same o n k v :
  get k o = None -> get k (insert_index n k v o) = Some v.
Proof.
  induction o as [|[k' v'] o IH]; simpl.
  - now rewrite String.eqb_refl.
  - destruct (k =? k') eqn:E; [discriminate|]. intros H.
    destruct (array_index k') as [m|]; [destruct (n <? m)%N|]; simpl;
      rewrite ?String.eqb_refl, ?E; auto.
Qed.

Lemma get_insert_index_other o n k k' v :
  k' <> k -> get k' (insert_index n k v o) = get k' o.
Proof.
  intros Hne. apply String.eqb_neq in Hne.
  induction o as [|[k1 v1] o IH]; simpl.
  - now rewrite Hne.
  - destruct (array_index k1) as [m|]; [destruct (n <? m)%N|]; simpl;
      rewrite ?Hne; try reflexivity.
    now rewrite IH.
Qed.

Lemma get_app_new o k v :
  get k o = None -> get k (o ++ [(k, v)])%list = Some v.
Proof.
  induction o as [|[k' v'] o IH]; simpl.
  - now rewrite String.eqb_refl.
  - destruct (k =? k'); [discriminate | assumption].
Qed.

Lemma get_app_other o k k' v :
  k' <> k -> get k' (o ++ [(k, v)])%list = get k' o.
Proof.
  intros Hne. apply String.eqb_neq in Hne.
  induction o as [|[k1 v1] o IH]; simpl.
  - now rewrite Hne.
  - now rewrite IH.
Qed.

Lemma get_set_same o k v : get k (set k v o) = Some v.
Proof.
  unfold set. destruct (get k o) eqn:E.
  - eapply get_replace_same; eassumption.
  - destruct (array_index k).
    + now apply get_insert_index_same.
    + now apply get_app_new.
Qed.

Lemma get_set_other o k k' v : k' <> k -> get k' (set k v o) = get k' o.
Proof.
  intros Hne. unfold set. destruct (get k o).
  - now apply get_replace_other.
  - destruct (array_index k).
    + now apply get_insert_index_other.
    + now apply get_app_other.
Qed.

Lemma In_keys_set o k v x :
  In x (keys (set k v o)) <-> x = k \/ In x (keys o).
Proof.
  unfold set. destruct (get k o) eqn:E.
  - rewrite keys_replace. apply get_Some_keys in E. intuition congruence.
  - destruct (array_index k).
    + apply In_keys_insert_index.
    + unfold keys. rewrite map_app, in_app_iff. simpl. intuition congruence.
Qed.

Lemma NoDup_keys_set o k v : NoDup (keys o) -> NoDup (keys (set k v o)).
Proof.
  intros Hd. unfold set. destruct (get k o) eqn:E.
  - now rewrite keys_replace.
  - apply get_None_keys in E. destruct (array_index k).
    + now apply NoDup_keys_insert_index.
    + unfold keys. rewrite map_app. simpl.
      apply NoDup_rev in Hd. rewrite <- (rev_involutive (map fst o ++ [k])%list).
      apply NoDup_rev. rewrite rev_app_distr. simpl.
      constructor; [now rewrite <- in_rev | assumption].
Qed.

(** The entries other than the one written are the entries of before. *)
Lemma In_set_inv o k v e : In e (set k v o) -> e = (k, v) \/ In e o.
Proof.
  unfold set. destruct (get k o) eqn:E.
  - clear E. induction o as [|[k1 v1] o IH]; simpl; [tauto|].
    destruct (String.eqb_spec k k1) as [->|Hk]; simpl.
    + intuition.
    + intuition.
  - destruct (array_index k) as [n|].
    + clear E. induction o as [|[k1 v1] o IH]; simpl; [intuition|].
      destruct (array_index k1) as [m|]; [destruct (n <? m)%N|]; simpl;
        intuition.
    + rewrite in_app_iff. simpl. intuition.
Qed.

End ObjFacts.

(** ** The output directory *)

Lemma makeDirs_Ok (env : Env) (path : string) (s : Agg) :
  (forall p, mkdirSync env p = Ok tt) -> makeDirs env path s = (Ok tt, s).
Proof.
  intros Hmk. unfold makeDirs. cbv zeta.
  generalize (seq 1 (List.length (splitPath "" path))). intros indices.
  induction indices as [|i indices IH]; simpl; [reflexivity|].
  unfold bindM, when, lift at 1.
  destruct (_ && _); [rewrite Hmk|]; exact IH.
Qed.

(** ** The fallback chain of a locale *)

Example parts_zh_Hans_CN :
  map (option_map partName) (parts (Locale World.env "zh-Hans-CN"))
  = [Some "root"; Some "zh"; Some "zh-Hans"; Some "zh-Hans-CN";
     Some "zh-CN"; Some "und-CN"].
Proof. reflexivity. Qed.

Example parts_en_US :
  parts (Locale World.env "en-US")
  = [Some "."; Some "en"; Some "en/US"; Some "und/US"].
Proof. reflexivity. Qed.

(** C1. For every locale, the list of directories that [emitLocaleData]
    tries for a generic name is root, language, language/script (script
    present), language/script/region (script and region present),
    language/region and und/region (region present), in this order; the
    loop over a generic name visits exactly that list. *)
Theorem C1_chain_order (env : Env) (dataRoot loc filename : string) :
  (forall l, parts l = chainOfSpec l)
  /\ genericRequest env dataRoot loc filename
     = forEach (chainOfSpec (Locale env loc)) (genericPart env dataRoot filename).
Proof.
  assert (H : forall l, parts l = chainOfSpec l).
  { intros [lang scr reg]. unfold parts, chainOfSpec. simpl.
    destruct (truthy scr), (truthy reg); reflexivity. }
  split; [exact H|]. unfold genericRequest. now rewrite H.
Qed.

(** ** The emission cache *)

(** C3. Calling [emitLocaleData] a second time, with the same options and
    the same world, yields the outcome of the first call and leaves the
    module state as the first call left it. *)
Theorem C3_emit_twice (env : Env) (options : Options) (st : Plugin) :
  emitLocaleData env options (snd (emitLocaleData env options st))
  = emitLocaleData env options st.
Proof.
  unfold emitLocaleData at 2 3.
  destruct (localeDataEmitted st) as [cached|] eqn:Hc; simpl.
  - unfold emitLocaleData. now rewrite Hc.
  - destruct (fst (pass env options (localeData st) emptyAgg)) as [sources|e] eqn:Hp;
      simpl.
    + reflexivity.
    + unfold emitLocaleData. now rewrite Hc, Hp.
Qed.

(** C4. [addData] with a name that is in [localeData] leaves
    [localeDataEmitted] as it is, with a new name it clears it; the names
    registered before stay registered and the name given is registered. *)
Theorem C4_addData_cache (data : string) (st : Plugin) :
  (if set_has data (localeData st)
   then localeDataEmitted (addData data st) = localeDataEmitted st
   else localeDataEmitted (addData data st) = None)
  /\ incl (localeData st) (localeData (addData data st))
  /\ In data (localeData (addData data st)).
Proof.
  unfold addData; simpl. split; [|split].
  - destruct (set_has data (localeData st)); reflexivity.
  - intros x Hx. apply In_set_add. now right.
  - apply In_set_add. now left.
Qed.

Lemma addData_seen (data : string) (st : Plugin) :
  In data (localeData st) -> addData data st = st.
Proof.
  intros H. apply set_has_In in H. unfold addData.
  unfold set_add, add. fold (set_has data (localeData st)). rewrite H. simpl.
  now destruct st.
Qed.

Lemma emit_cached (env : Env) (options : Options) (st : Plugin)
  (sources : Obj string) :
  localeDataEmitted st = Some sources ->
  emitLocaleData env options st = (Ok sources, st).
Proof. intros H. unfold emitLocaleData. now rewrite H. Qed.

(** C10. Once [emitLocaleData] has returned, every later call of it
    returns the same sources, whatever its options and whatever the world
    has become, as long as [addData] is only called with names already
    registered; [addData] with a new name clears the cache and the next
    call runs the pass again. *)
Theorem C10_cached_whatever_options (env : Env) (options : Options)
  (st st1 : Plugin) (sources : Obj string) :
  emitLocaleData env options st = (Ok sources, st1) ->
  (forall calls, Forall (seenBefore st1) calls ->
     Forall (eq (Ok sources)) (fst (run calls st1))
     /\ snd (run calls st1) = st1)
  /\ (forall data env' options', ~ In data (localeData st1) ->
        localeDataEmitted (addData data st1) = None
        /\ fst (emitLocaleData env' options' (addData data st1))
           = fst (pass env' options' (localeData (addData data st1)) emptyAgg)).
Proof.
  intros He.
  assert (Hc : localeDataEmitted st1 = Some sources).
  { unfold emitLocaleData in He.
    destruct (localeDataEmitted st) eqn:E.
    - injection He as <- <-. assumption.
    - destruct (fst (pass env options (localeData st) emptyAgg));
        [injection He as <- <-; reflexivity | discriminate]. }
  split.
  - induction calls as [|c calls IH]; intros Hall; simpl.
    + split; [constructor | reflexivity].
    + inversion Hall as [|? ? Hc1 Hrest]; subst.
      destruct c as [env' options'|data]; simpl in *.
      * rewrite (emit_cached env' options' st1 Hc). simpl.
        destruct (IH Hrest) as [IH1 IH2].
        split; [constructor; [reflexivity | assumption] | assumption].
      * rewrite (addData_seen _ _ Hc1). auto.
  - intros data env' options' Hnew.
    apply set_has_false in Hnew.
    assert (Hn : localeDataEmitted (addData data st1) = None).
    { unfold addData. simpl. now rewrite Hnew. }
    split; [assumption|].
    unfold emitLocaleData. rewrite Hn.
    destruct (fst (pass env' options' (localeData (addData data st1)) emptyAgg));
      reflexivity.
Qed.

(** ** Invariants of the aggregation state *)


Section Keeps.
Variable P : Agg -> Prop.

Lemma keeps_ret {A} (a : A) : keeps P (ret a).
Proof. intros s H; exact H. Qed.

Lemma keeps_raise {A} (e : exn) : keeps P (@raise A e).
Proof. intros s H; exact H. Qed.

Lemma keeps_lift {A} (r : result A) : keeps P (lift r).
Proof. intros s H; exact H. Qed.

Lemma keeps_gets {A} (f : Agg -> A) : keeps P (gets f).
Proof. intros s H; exact H. Qed.

Lemma keeps_modify (f : Agg -> Agg) :
  (forall s, P s -> P (f s)) -> keeps P (modify f).
Proof. intros Hf s H. now apply Hf. Qed.

Lemma keeps_bind {A B} (m : M A) (k : A -> M B) :
  keeps P m -> (forall a, keeps P (k a)) -> keeps P (bindM m k).
Proof.
  intros Hm Hk s H. unfold bindM. specialize (Hm s H).
  destruct (m s) as [[a|e] s']; simpl in *; [now apply Hk | assumption].
Qed.

Lemma keeps_tryCatch (body : M unit) (handler : exn -> M unit) :
  keeps P body -> (forall e, keeps P (handler e)) ->
  keeps P (tryCatch body handler).
Proof.
  intros Hb Hh s H. unfold tryCatch. specialize (Hb s H).
  destruct (body s) as [[a|e] s']; simpl in *; [assumption | now apply Hh].
Qed.

Lemma keeps_when (b : bool) (m : M unit) : keeps P m -> keeps P (when b m).
Proof. intros Hm. destruct b; simpl; [assumption | apply keeps_ret]. Qed.

Lemma keeps_forEach {A} (xs : list A) (f : A -> M unit) :
  (forall x, In x xs -> keeps P (f x)) -> keeps P (forEach xs f).
Proof.
  induction xs as [|x xs IH]; intros Hf; simpl.
  - apply keeps_ret.
  - apply keeps_bind; [apply Hf; now left |].
    intros _. apply IH. intros y Hy. apply Hf. now right.
Qed.

Lemma keeps_forEachWith {A B} (xs : list A) (f : A -> B -> M B) (b : B) :
  (forall x b', In x xs -> keeps P (f x b')) -> keeps P (forEachWith xs f b).
Proof.
  revert b. induction xs as [|x xs IH]; intros b Hf; simpl.
  - apply keeps_ret.
  - apply keeps_bind; [apply Hf; now left |].
    intros b'. apply IH. intros y b'' Hy. apply Hf. now right.
Qed.

End Keeps.

(** One step of a proof that a function of the source keeps [P]: the
    rule of the outermost construct, after a case analysis on what the
    code branches on. *)
Ltac keeps_step :=
  match goal with
  | |- keeps _ (bindM _ _) => apply keeps_bind; [|intros ?]
  | |- keeps _ (tryCatch _ _) => apply keeps_tryCatch; [|intros ?]
  | |- keeps _ (when _ _) => apply keeps_when
  | |- keeps _ (forEach _ _) => apply keeps_forEach; intros ? ?
  | |- keeps _ (forEachWith _ _ _) => apply keeps_forEachWith; intros ? ? ?
  | |- keeps _ (ret _) => apply keeps_ret
  | |- keeps _ (raise _) => apply keeps_raise
  | |- keeps _ (lift _) => apply keeps_lift
  | |- keeps _ (gets _) => apply keeps_gets
  | |- keeps _ (match ?x with _ => _ end) => destruct x
  | |- keeps _ (if ?x then _ else _) => destruct x
  | |- keeps _ (let _ := _ in _) => cbv zeta
  end.

(** *** Invariants of the buckets alone *)

Section BucketInvariant.
Variable env : Env.
Variable R : Obj (Obj string) -> Prop.
Hypothesis R_create :
  forall o part, get part o = None -> R o -> R (set part [] o).
Hypothesis R_put :
  forall o part bucket key line,
    get part o = Some bucket -> R o -> R (set part (set key line bucket) o).

Lemma keeps_logError e : keeps (onBuckets R) (logError e).
Proof. apply keeps_modify. intros s H; exact H. Qed.

Lemma keeps_manifestAdd p : keeps (onBuckets R) (manifestAdd p).
Proof. apply keeps_modify. intros s H; exact H. Qed.

Lemma keeps_ensurePart part : keeps (onBuckets R) (ensurePart part).
Proof.
  apply keeps_modify. intros s H. unfold onBuckets in *.
  destruct (get part (outputSet s)) eqn:E; [assumption|].
  simpl. now apply R_create.
Qed.

Lemma keeps_readLine part key : keeps (onBuckets R) (readLine part key).
Proof. intros s H. unfold readLine. now destruct (get part (outputSet s)). Qed.

Lemma keeps_putLine part key line : keeps (onBuckets R) (putLine part key line).
Proof.
  intros s H. unfold putLine, onBuckets in *.
  destruct (get part (outputSet s)) eqn:E; simpl; [|assumption].
  now apply R_put.
Qed.

Ltac buckets_step :=
  first
    [ apply keeps_logError | apply keeps_manifestAdd | apply keeps_ensurePart
    | apply keeps_readLine | apply keeps_putLine
    | apply keeps_modify; intros ? ?; assumption
    | keeps_step ].

Lemma keeps_charsetRequest dataRoot loc filename :
  keeps (onBuckets R) (charsetRequest env dataRoot loc filename).
Proof. unfold charsetRequest, loadLang2charset. repeat buckets_step. Qed.

Lemma keeps_normRequest m : keeps (onBuckets R) (normRequest m).
Proof. unfold normRequest. repeat buckets_step. Qed.

Lemma keeps_zoneinfoRequest dataRoot locs :
  keeps (onBuckets R) (zoneinfoRequest env dataRoot locs).
Proof.
  unfold zoneinfoRequest, regionZone, genericZone. repeat buckets_step.
Qed.

Lemma keeps_genericRequest dataRoot loc filename :
  keeps (onBuckets R) (genericRequest env dataRoot loc filename).
Proof. unfold genericRequest, genericPart. repeat buckets_step. Qed.

Lemma keeps_requests dataRoot locs names :
  keeps (onBuckets R) (requests env dataRoot locs names).
Proof.
  unfold requests, request. repeat buckets_step;
    auto using keeps_charsetRequest, keeps_normRequest,
      keeps_zoneinfoRequest, keeps_genericRequest.
Qed.

Lemma keeps_charsetPhase dataRoot :
  keeps (onBuckets R) (charsetPhase env dataRoot).
Proof.
  unfold charsetPhase, charsetAliases, charsetFile, charmapFile.
  repeat buckets_step.
Qed.

Lemma keeps_normPhase dataRoot scripts :
  keeps (onBuckets R) (normPhase env dataRoot scripts).
Proof. unfold normPhase, normForm, addForm. repeat buckets_step. Qed.

Lemma keeps_emitFiles outputDir : keeps (onBuckets R) (emitFiles env outputDir).
Proof. unfold emitFiles, emitBundle, makeDirs. repeat buckets_step. Qed.

Lemma keeps_pass options names : keeps (onBuckets R) (pass env options names).
Proof.
  unfold pass. repeat buckets_step;
    auto using keeps_requests, keeps_charsetPhase, keeps_normPhase,
      keeps_emitFiles.
Qed.

End BucketInvariant.

(** ** One line for a partition and a name *)

Lemma wellKeyed_create o part :
  get part o = None -> wellKeyed o -> wellKeyed (set part [] o).
Proof.
  intros _ [Hk Hb]. split; [now apply NoDup_keys_set|].
  apply Forall_forall. intros e He. apply In_set_inv in He.
  destruct He as [->|He]; [constructor|].
  rewrite Forall_forall in Hb. now apply Hb.
Qed.

Lemma wellKeyed_put o part bucket key line :
  get part o = Some bucket -> wellKeyed o ->
  wellKeyed (set part (set key line bucket) o).
Proof.
  intros Hg [Hk Hb]. split; [now apply NoDup_keys_set|].
  rewrite Forall_forall in Hb.
  apply Forall_forall. intros e He. apply In_set_inv in He.
  destruct He as [->|He]; [|now apply Hb].
  simpl. apply NoDup_keys_set. apply (Hb (part, bucket)). now apply get_In.
Qed.

(** ** Normalization forms without a root bucket *)

Lemma runs_bind (Q : Agg -> Prop) (m k : M unit) :
  runs Q m -> runs Q k -> runs Q (m ;;; k).
Proof.
  intros Hm Hk s H. unfold bindM. destruct (Hm s H) as [Hr Hs].
  destruct (m s) as [[[]|e] s']; simpl in *; [now apply Hk | discriminate].
Qed.

Lemma runs_forEach (Q : Agg -> Prop) {A} (xs : list A) (f : A -> M unit) :
  (forall x, In x xs -> runs Q (f x)) -> runs Q (forEach xs f).
Proof.
  induction xs as [|x xs IH]; intros Hf; simpl.
  - intros s H. now split.
  - apply runs_bind; [apply Hf; now left |].
    apply IH. intros y Hy. apply Hf. now right.
Qed.


Section NormOnly.
Variable env : Env.
Variable dataRoot : string.

Lemma runs_request_norm (locs : list string) (loc filename : string) :
  isNormName filename = true ->
  runs (nothingEmitted env) (request env dataRoot locs loc filename).
Proof.
  intros Hn. unfold isNormName in Hn. apply andb_prop in Hn as [H1 H2].
  apply negb_true_iff in H1. unfold request. rewrite H1.
  destruct (normPattern_exec filename) as [m|]; [|discriminate].
  intros s H. unfold normRequest, modify. simpl. split; [reflexivity|].
  exact H.
Qed.

Lemma runs_requests_norm (locs : list string) (names : JSSet) :
  Forall (fun f => isNormName f = true) names ->
  runs (nothingEmitted env) (requests env dataRoot locs names).
Proof.
  intros Hall. unfold requests. apply runs_forEach. intros loc _.
  apply runs_forEach. intros f Hf. apply runs_request_norm.
  rewrite Forall_forall in Hall. now apply Hall.
Qed.

End NormOnly.

Example nfc_alone :
  pass World.env (World.options ["en-US"]) ["nfc/Latn"] emptyAgg
  = (Ok [("/out/locales/localmanifest.js", manifestText World.env []);
         ("/out/locales/remotemanifest.js", manifestText World.env [])],
     with_console [rootMissing]
       (with_normalizations [("nfc", ["Latn"])] emptyAgg)).
Proof. reflexivity. Qed.

Unset Implicit Arguments.

(** ** What the later phases leave alone *)

(** A leaf of the source that cannot change what the invariant looks
    at. *)
Ltac keeps_leaf :=
  intros ? ?;
  unfold logError, manifestAdd, ensurePart, readLine, putLine, modify in *;
  simpl;
  repeat match goal with
         | |- context [match ?x with _ => _ end] => destruct x; simpl
         end;
  assumption.

Ltac keeps_insensitive := repeat first [keeps_step | keeps_leaf].

Lemma rootLine_ensurePart (part key : string) (v : option string) :
  keeps (fun s => rootLine s key = v) (ensurePart part).
Proof.
  intros s H. unfold ensurePart, modify. simpl.
  destruct (get part (outputSet s)) eqn:E; [assumption|].
  unfold rootLine in *. simpl.
  destruct (String.eqb_spec "root" part) as [<-|Hne].
  - rewrite get_set_same. now rewrite E in H.
  - now rewrite get_set_other by congruence.
Qed.

Lemma rootLine_putLine_other (part key' line key : string) (v : option string) :
  key' <> key -> keeps (fun s => rootLine s key = v) (putLine part key' line).
Proof.
  intros Hne s H. unfold putLine.
  destruct (get part (outputSet s)) as [bucket|] eqn:E; [|assumption].
  unfold rootLine in *. simpl.
  destruct (String.eqb_spec "root" part) as [<-|Hp].
  - rewrite get_set_same. rewrite E in H. now rewrite get_set_other by congruence.
  - now rewrite get_set_other by congruence.
Qed.

Lemma rootLine_putLine_same (key line : string) (s : Agg) :
  get "root" (outputSet s) <> None ->
  rootLine (snd (putLine "root" key line s)) key = Some line.
Proof.
  intros H. unfold putLine.
  destruct (get "root" (outputSet s)) as [bucket|] eqn:E; [|congruence].
  unfold rootLine. simpl. now rewrite !get_set_same.
Qed.

Lemma keeps_manifest_In (p q : string) :
  keeps (fun s => In p (manifest s)) (manifestAdd q).
Proof.
  intros s H. unfold manifestAdd, modify. simpl. apply In_set_add. now right.
Qed.

Lemma append_inj_l (p a b : string) : p ++ a = p ++ b -> a = b.
Proof.
  induction p as [|c p IH]; simpl; [auto|]. intros [= H]. auto.
Qed.

Lemma first_alternative_In (alts : list string) (s a tail : string) :
  first_alternative alts s = Some (a, tail) -> In a alts.
Proof.
  induction alts as [|x alts IH]; simpl; [discriminate|].
  destruct (strip_prefix x s); [intros [= <- _]; now left | auto].
Qed.

Lemma normPattern_exec_form (filename : string) (m : string * option string) :
  normPattern_exec filename = Some m -> isForm (fst m).
Proof.
  induction filename as [|c r IH]; simpl.
  - unfold normPattern_at. simpl. discriminate.
  - destruct (normPattern_at (String c r)) as [m'|] eqn:E; [|exact IH].
    intros [= ->]. unfold normPattern_at in E.
    destruct (first_alternative ["nfc"; "nfd"; "nfkc"; "nfkd"] (String c r))
      as [[form tail]|] eqn:F; [|discriminate].
    apply first_alternative_In in F.
    destruct tail as [|c' r']; [injection E as <-; exact F|].
    destruct (Ascii.eqb_spec c' "/"%char) as [->|Hn].
    + destruct (take_word r' =? ""); injection E as <-; exact F.
    + destruct c' as [[] [] [] [] [] [] [] []];
        try (injection E as <-; exact F); congruence.
Qed.

Lemma keeps_forms_requests (env : Env) (dataRoot : string)
  (locs : list string) (names : JSSet) :
  keeps formsOnly (requests env dataRoot locs names).
Proof.
  unfold requests. apply keeps_forEach. intros loc _.
  apply keeps_forEach. intros filename _. unfold request.
  destruct ((filename =? "charset") || (filename =? "charmaps")).
  - unfold charsetRequest, loadLang2charset. keeps_insensitive.
  - destruct (normPattern_exec filename) as [m|] eqn:E.
    + apply normPattern_exec_form in E. unfold normRequest.
      apply keeps_modify. intros s H. unfold formsOnly in *. simpl.
      apply Forall_forall. intros k Hk. apply In_keys_set in Hk.
      destruct Hk as [->|Hk]; [assumption|].
      rewrite Forall_forall in H. now apply H.
    + destruct (filename =? "zoneinfo").
      * unfold zoneinfoRequest, regionZone, genericZone. keeps_insensitive.
      * unfold genericRequest, genericPart. keeps_insensitive.
Qed.

(** ** Runs that return *)

Lemma bindM_Ok {A B} {m : M A} {k : A -> M B} {s s' : Agg} {b : B} :
  bindM m k s = (Ok b, s') ->
  exists a s1, m s = (Ok a, s1) /\ k a s1 = (Ok b, s').
Proof.
  unfold bindM. destruct (m s) as [[a|e] s1]; [eauto | discriminate].
Qed.

Lemma lift_Ok {A} {r : result A} {s s' : Agg} {a : A} :
  lift r s = (Ok a, s') -> r = Ok a /\ s' = s.
Proof. unfold lift. intros [= -> ->]. now split. Qed.

Lemma keeps_run {P : Agg -> Prop} {A} {m : M A} {s s' : Agg} {r : result A} :
  keeps P m -> m s = (r, s') -> P s -> P s'.
Proof. intros Hk Hm H. specialize (Hk s H). now rewrite Hm in Hk. Qed.

Lemma keeps_and (P Q : Agg -> Prop) {A} (m : M A) :
  keeps P m -> keeps Q m -> keeps (fun s => P s /\ Q s) m.
Proof. intros HP HQ s [H1 H2]. split; [now apply HP | now apply HQ]. Qed.

(** ** The pass, phase by phase *)

Lemma pass_Ok (env : Env) (options : Options) (names : JSSet) (s0 final : Agg)
  (sources : Obj string) :
  pass env options names s0 = (Ok sources, final) ->
  exists outputDir dataRoot s1 s2 s3,
    calcOutputDir env options = Ok outputDir
    /\ calcDataRoot env options = Ok dataRoot
    /\ requests env dataRoot (locales options) names s0 = (Ok tt, s1)
    /\ charsetPhase env dataRoot s1 = (Ok tt, s2)
    /\ normPhase env dataRoot (likelyScripts env (locales options)) s2 = (Ok tt, s3)
    /\ emitFiles env outputDir s3 = (Ok sources, final).
Proof.
  intros H. unfold pass in H.
  apply bindM_Ok in H as (outputDir & s & Hod & H). apply lift_Ok in Hod as [Hod ->].
  apply bindM_Ok in H as (dataRoot & s & Hdr & H). apply lift_Ok in Hdr as [Hdr ->].
  cbv zeta in H.
  apply bindM_Ok in H as ([] & s1 & H1 & H).
  apply bindM_Ok in H as ([] & s2 & H2 & H).
  apply bindM_Ok in H as ([] & s3 & H3 & H).
  exists outputDir, dataRoot, s1, s2, s3. repeat split; assumption.
Qed.

Lemma keeps_emitFiles_any (P : Agg -> Prop) (env : Env) (outputDir : string) :
  keeps P (emitFiles env outputDir).
Proof. unfold emitFiles, emitBundle, makeDirs. keeps_insensitive. Qed.

Lemma keeps_charsets_phases (env : Env) (dataRoot : string) (scripts found : JSSet) :
  keeps (fun s => charsets s = found) (charsetPhase env dataRoot)
  /\ keeps (fun s => charsets s = found) (normPhase env dataRoot scripts).
Proof.
  split.
  - unfold charsetPhase, charsetAliases, charsetFile, charmapFile.
    keeps_insensitive.
  - unfold normPhase, normForm, addForm. keeps_insensitive.
Qed.

Lemma keeps_forms_charsetPhase (env : Env) (dataRoot : string) :
  keeps formsOnly (charsetPhase env dataRoot).
Proof.
  unfold charsetPhase, charsetAliases, charsetFile, charmapFile.
  keeps_insensitive.
Qed.

Example big5_is_optional :
  let final := snd (pass World.env (World.options ["zh-Hans-CN"; "en-US"])
                      ["charmaps"; "localeinfo"; "zoneinfo"] emptyAgg) in
  rootLine final "charmaps_Big5" = None
  /\ rootLine final "charset_Big5" = Some (charsetLine "Big5" "{big5 optional}")
  /\ rootLine final "charmaps_ISO-8859-1"
     = Some (charmapLine "ISO-8859-1" "{map1}").
Proof. repeat split. Qed.

(** ** Time zones *)

(** A loop whose steps return, keep [I], and each establish a fact that
    the other steps keep. *)
Lemma forEach_establishes {A} (xs : list A) (f : A -> M unit)
  (I : Agg -> Prop) (Post : A -> Agg -> Prop) :
  (forall x, In x xs -> forall s, I s ->
     fst (f x s) = Ok tt /\ I (snd (f x s)) /\ Post x (snd (f x s))) ->
  (forall x y, In y xs -> keeps (Post x) (f y)) ->
  forall s, I s ->
    fst (forEach xs f s) = Ok tt /\ I (snd (forEach xs f s))
    /\ forall x, In x xs -> Post x (snd (forEach xs f s)).
Proof.
  induction xs as [|x xs IH]; intros Hstep Hstable s HI; simpl.
  - repeat split; [assumption | intros x []].
  - unfold bindM. destruct (Hstep x (or_introl eq_refl) s HI) as (Hr & HI1 & HP).
    destruct (f x s) as [[[]|e] s1]; simpl in *; [|discriminate].
    destruct (IH (fun y Hy => Hstep y (or_intror Hy))
                 (fun x' y Hy => Hstable x' y (or_intror Hy)) s1 HI1)
      as (Hr' & HI' & HP').
    repeat split; try assumption.
    intros y [<-|Hy]; [|now apply HP'].
    assert (K : keeps (Post x) (forEach xs f)).
    { apply keeps_forEach. intros z Hz. apply Hstable. now right. }
    now apply K.
Qed.

Lemma seq_run {B} (m : M unit) (k : M B) (s : Agg) :
  fst (m s) = Ok tt -> (m ;;; k) s = k (snd (m s)).
Proof.
  intros H. unfold bindM. destruct (m s) as [[[]|e] s1]; simpl in *;
    [reflexivity | discriminate].
Qed.

Lemma bindM_lift_Ok {A B} (a : A) (k : A -> M B) : bindM (lift (Ok a)) k = k a.
Proof. reflexivity. Qed.

Lemma request_zoneinfo (env : Env) (dataRoot : string) (locs : list string)
  (loc : string) :
  request env dataRoot locs loc "zoneinfo" = zoneinfoRequest env dataRoot locs.
Proof. reflexivity. Qed.

Lemma emitBundles_Ok (env : Env) (outputPath : string) (s : Agg)
  (buckets : Obj (Obj string)) (sources : Obj string) :
  (forall p, mkdirSync env p = Ok tt) ->
  (forall p text, writeFileSync env p text = Ok tt) ->
  exists sources',
    forEachWith buckets (emitBundle env outputPath) sources s = (Ok sources', s).
Proof.
  intros Hmk Hwr. revert sources.
  induction buckets as [|entry buckets IH]; intros sources; simpl.
  - eexists. reflexivity.
  - unfold emitBundle at 1, bindM, lift.
    rewrite (makeDirs_Ok env _ _ Hmk), Hwr. simpl. apply IH.
Qed.

Lemma emitFiles_Ok (env : Env) (outputDir : string) (s : Agg) :
  (forall p, mkdirSync env p = Ok tt) ->
  (forall p text, writeFileSync env p text = Ok tt) ->
  exists sources, emitFiles env outputDir s = (Ok sources, s).
Proof.
  intros Hmk Hwr. unfold emitFiles, bindM, gets, lift.
  rewrite !(makeDirs_Ok env _ _ Hmk), !Hwr. now apply emitBundles_Ok.
Qed.

Example zoneinfo_en_US :
  let final := snd (pass World.env (World.options ["en-US"]) ["zoneinfo"] emptyAgg) in
  keys (outputSet final) = ["root"]
  /\ option_map (keys (V:=string)) (get "root" (outputSet final))
     = Some ["zonetab"; "America/New_York"; "UTC"; "GMT+1"]
  /\ manifest final
     = ["zoneinfo/zonetab.json"; "zoneinfo/America/New_York.json";
        "zoneinfo/UTC.json"; "zoneinfo/Etc/GMT+1.json"].
Proof. repeat split. Qed.

(** ** Where the source departs from its specification *)

Lemma forEach_ext {A} (xs : list A) (f g : A -> M unit) (s : Agg) :
  (forall x t, f x t = g x t) -> forEach xs f s = forEach xs g s.
Proof.
  intros H. revert s. induction xs as [|x xs IH]; intros s; simpl; [reflexivity|].
  unfold bindM. rewrite H. destruct (g x s) as [[[]|e] t]; [apply IH | reflexivity].
Qed.

(** The scripts of the likely locales have no influence on the
    normalization forms: [sizeIs] is never true. *)
Lemma normPhase_ignores_scripts (env : Env) (dataRoot : string)
  (scripts scripts' : JSSet) (s : Agg) :
  normPhase env dataRoot scripts s = normPhase env dataRoot scripts' s.
Proof.
  unfold normPhase, bindM, gets. apply forEach_ext. intros entry t.
  unfold normForm, sizeIs.
  destruct (get "size" (normalizations s)); simpl;
    rewrite andb_false_r; reflexivity.
Qed.

(** C2. The source departs from the specification here: with nfc requested
    without a script for en-US, whose likely script is Latn and whose
    file nfc/Latn.json is there, the pass returns and emits no nfc line
    and no manifest entry for Latn; the set of the form holds the empty
    token only, and [addForm] ignores it. *)
Theorem C2_form_without_script_emits_nothing :
  let options := World.options ["en-US"] in
  let run := pass World.env options ["localeinfo"; "nfc"] emptyAgg in
  likelyScripts World.env (locales options) = ["Latn"]
  /\ existsSync World.env "/ilib/locale/nfc/Latn.json" = true
  /\ (exists sources, fst run = Ok sources)
  /\ normalizations (snd run) = [("nfc", [""])]
  /\ rootLine (snd run) "nfc/Latn" = None
  /\ set_has "nfc/Latn.json" (manifest (snd run)) = false
  /\ console (snd run) = [].
Proof.
  cbv zeta. repeat split. eexists. vm_compute. reflexivity.
Qed.

(** The loop over the zones of the regions does catch: the zone is
    skipped, the error is logged and the pass returns. *)
Example region_zone_error_is_caught :
  let run := pass World.unreadableRegionZone (World.options ["en-US"])
               ["zoneinfo"; "localeinfo"] emptyAgg in
  (exists sources, fst run = Ok sources)
  /\ console (snd run) = [FsError "/ilib/locale/zoneinfo/America/Chicago.json"]
  /\ rootLine (snd run) "America/Chicago" = None
  /\ rootLine (snd run) "localeinfo" = Some (genericLine "root" "localeinfo" "{A}").
Proof.
  cbv zeta. repeat split. eexists. vm_compute. reflexivity.
Qed.

(** C8. The source departs from the specification here: a .json file of the
    zoneinfo directory that cannot be read, or a charset file that does
    not parse, is not caught; [emitLocaleData] throws, nothing is
    returned and the cache stays empty. *)
Theorem C8_unreadable_fragment_aborts :
  let st := mkPlugin ["localeinfo"; "zoneinfo"; "charset"] None in
  emitLocaleData World.unreadableZone (World.options ["en-US"]) st
  = (Throw (FsError "/ilib/locale/zoneinfo/Factory.json"), st)
  /\ emitLocaleData World.corruptCharset (World.options ["en-US"]) st
     = (Throw (SyntaxError "{corrupt"), st)
  /\ exists sources,
       fst (emitLocaleData World.env (World.options ["en-US"]) st) = Ok sources.
Proof.
  cbv zeta. repeat split. eexists. vm_compute. reflexivity.
Qed.

(** ** The theorems at work in the small world *)

Lemma C10_cached_witness :
  Forall (eq (Ok (sourcesOf (fst firstEmit))))
    (fst (run [CallEmit World.unreadableZone (World.options ["de-DE"]);
               CallAddData "localeinfo";
               CallEmit World.env (mkOptions None [] None None true)]
            (snd firstEmit))).
Proof.
  destruct (@C10_cached_whatever_options World.env (World.options ["en-US"])
              (mkPlugin ["localeinfo"] None) (snd firstEmit) (sourcesOf (fst firstEmit)))
    as [Hcalls _].
  - vm_compute. reflexivity.
  - apply Hcalls. repeat constructor.
Defined.

(** ** Names of data and of zones *)

Lemma replace_class_clean (cls : ascii -> bool) (by_ : ascii) (s : string) :
  cls by_ = false -> noneOf cls (replace_class cls by_ s) = true.
Proof.
  intros Hby. induction s as [|c r IH]; simpl; [reflexivity|].
  rewrite IH, andb_true_r. destruct (cls c) eqn:E; [now rewrite Hby | now rewrite E].
Qed.

Lemma replace_class_id (cls : ascii -> bool) (by_ : ascii) (s : string) :
  noneOf cls s = true -> replace_class cls by_ s = s.
Proof.
  induction s as [|c r IH]; simpl; [reflexivity|].
  intros H. apply andb_prop in H as [Hc Hr]. apply negb_true_iff in Hc.
  now rewrite Hc, IH.
Qed.

Lemma replace_class_length (cls : ascii -> bool) (by_ : ascii) (s : string) :
  String.length (replace_class cls by_ s) = String.length s.
Proof. induction s as [|c r IH]; simpl; [reflexivity | now rewrite IH]. Qed.

(** What a replacement leaves free of the replacing character was not
    changed. *)
Lemma replace_class_unchanged (cls : ascii -> bool) (by_ : ascii) (s : string) :
  noneOf (Ascii.eqb by_) (replace_class cls by_ s) = true ->
  replace_class cls by_ s = s.
Proof.
  induction s as [|c r IH]; simpl; [reflexivity|].
  intros H. apply andb_prop in H as [Hc Hr]. apply negb_true_iff in Hc.
  rewrite (IH Hr). destruct (cls c); [|reflexivity].
  now rewrite Ascii.eqb_refl in Hc.
Qed.

(** X1. The name that [toIlibDataName] returns holds none of the
    characters . : ( ) / \ + - ; the function changes nothing in a name
    it has returned; and but for the empty name, root and *, which give
    the empty name, it keeps the length. *)
Theorem X1_toIlibDataName_clean (str : string) :
  noneOf data_name_class (toIlibDataName str) = true
  /\ toIlibDataName (toIlibDataName str) = toIlibDataName str
  /\ String.length (toIlibDataName str)
     = if (str =? "") || (str =? "root") || (str =? "*") then 0
       else String.length str.
Proof.
  unfold toIlibDataName.
  destruct ((str =? "") || (str =? "root") || (str =? "*")) eqn:E.
  - repeat split.
  - assert (Hclean : noneOf data_name_class
                       (replace_class data_name_class "_"%char str) = true)
      by (now apply replace_class_clean).
    split; [exact Hclean|]. split; [|apply replace_class_length].
    apply orb_false_iff in E as [E E3]. apply orb_false_iff in E as [E1 E2].
    set (r := replace_class data_name_class "_"%char str) in *.
    assert (Hsame : forall t, noneOf (Ascii.eqb "_"%char) t = true ->
              r = t -> str = t).
    { intros t Ht Hr. subst t. symmetry. now apply replace_class_unchanged. }
    assert (R1 : (r =? "") = false).
    { apply String.eqb_neq. intros H. apply (Hsame "" eq_refl) in H.
      apply String.eqb_neq in E1. contradiction. }
    assert (R2 : (r =? "root") = false).
    { apply String.eqb_neq. intros H. apply (Hsame "root" eq_refl) in H.
      apply String.eqb_neq in E2. contradiction. }
    assert (R3 : (r =? "*") = false).
    { apply String.eqb_neq. intros H. apply (Hsame "*" eq_refl) in H.
      apply String.eqb_neq in E3. contradiction. }
    rewrite R1, R2, R3. simpl. now apply replace_class_id.
Qed.

Lemma replace_class_keeps_clean (cls cls' : ascii -> bool) (by_ : ascii)
  (s : string) :
  cls by_ = false -> noneOf cls s = true ->
  noneOf cls (replace_class cls' by_ s) = true.
Proof.
  intros Hby. induction s as [|c r IH]; simpl; [reflexivity|].
  intros H. apply andb_prop in H as [Hc Hr]. rewrite (IH Hr), andb_true_r.
  destruct (cls' c); [now rewrite Hby | exact Hc].
Qed.

(** X2. The key under which a zone is assigned holds neither - nor +,
    has the length of the zone name, and is the zone name itself exactly
    when that holds neither. *)
Theorem X2_zoneKey_clean (zone : string) :
  noneOf (Ascii.eqb "-"%char) (zoneKey zone) = true
  /\ noneOf (Ascii.eqb "+"%char) (zoneKey zone) = true
  /\ String.length (zoneKey zone) = String.length zone
  /\ (if noneOf (Ascii.eqb "-"%char) zone && noneOf (Ascii.eqb "+"%char) zone
      then zoneKey zone = zone else zoneKey zone <> zone).
Proof.
  assert (H1 : noneOf (Ascii.eqb "-"%char) (zoneKey zone) = true).
  { unfold zoneKey. apply replace_class_keeps_clean; [reflexivity|].
    now apply replace_class_clean. }
  assert (H2 : noneOf (Ascii.eqb "+"%char) (zoneKey zone) = true).
  { unfold zoneKey. now apply replace_class_clean. }
  split; [exact H1|]. split; [exact H2|]. split.
  - unfold zoneKey. now rewrite !replace_class_length.
  - destruct (noneOf (Ascii.eqb "-"%char) zone) eqn:E1; simpl.
    + destruct (noneOf (Ascii.eqb "+"%char) zone) eqn:E2.
      * unfold zoneKey. rewrite (replace_class_id _ _ _ E1).
        now apply replace_class_id.
      * intros E. rewrite E in H2. congruence.
    + intros E. rewrite E in H1. congruence.
Qed.

(** ** Directories of the output tree *)

Lemma append_nil_r (s : string) : s ++ "" = s.
Proof. induction s as [|c r IH]; simpl; [reflexivity | now rewrite IH]. Qed.

Lemma append_assoc (a b c : string) : (a ++ b) ++ c = a ++ (b ++ c).
Proof. induction a as [|x a IH]; simpl; [reflexivity | now rewrite IH]. Qed.

Lemma splitPath_cons (current path : string) :
  exists part rest, splitPath current path = part :: rest.
Proof.
  revert current. induction path as [|c r IH]; intros current; simpl.
  - eauto.
  - destruct ((c =? "/")%char || (c =? "\")%char); [eauto | apply IH].
Qed.

Lemma joinWith_splitPath (current path : string) :
  joinWith "/" (splitPath current path)
  = current
    ++ replace_class (fun c => (c =? "/")%char || (c =? "\")%char) "/"%char path.
Proof.
  revert current. induction path as [|c r IH]; intros current; simpl.
  - now rewrite append_nil_r.
  - destruct ((c =? "/")%char || (c =? "\")%char).
    + specialize (IH ""). destruct (splitPath_cons "" r) as (part & rest & E).
      rewrite E in *.
      change (joinWith "/" (current :: part :: rest))
        with (current ++ "/" ++ joinWith "/" (part :: rest)).
      rewrite IH. reflexivity.
    + rewrite IH, append_assoc. reflexivity.
Qed.

Lemma makeDirs_forEach (env : Env) (path : string) :
  makeDirs env path
  = forEach (seq 1 (List.length (splitPath "" path)))
      (fun i =>
         let p := joinWith "/" (firstn i (splitPath "" path)) in
         when (truthy (Some p) && (0 <? String.length p)%nat
               && negb (existsSync env p))
           (lift (mkdirSync env p))).
Proof. reflexivity. Qed.

Lemma forEach_map {A B} (g : A -> B) (xs : list A) (f : B -> M unit) (s : Agg) :
  forEach (map g xs) f s = forEach xs (fun x => f (g x)) s.
Proof.
  revert s. induction xs as [|x xs IH]; intros s; simpl; [reflexivity|].
  unfold bindM. destruct (f (g x) s) as [[[]|e] t]; [apply IH | reflexivity].
Qed.

(** [makeDirs] as a loop over the directories it considers. *)
Lemma makeDirs_prefixes (env : Env) (path : string) (s : Agg) :
  makeDirs env path s
  = forEach (dirPrefixes path)
      (fun p =>
         when (truthy (Some p) && (0 <? String.length p)%nat
               && negb (existsSync env p))
           (lift (mkdirSync env p))) s.
Proof. unfold dirPrefixes. rewrite forEach_map. reflexivity. Qed.

(** X3. [makeDirs] goes through the directories on the way to the path,
    shortest first, and creates those that have a name and are not there.
    The last of them is the path it was given, with its backslashes
    turned into slashes, and they are as many as the path has parts. *)
Theorem X3_makeDirs_ends_at_path (env : Env) (path : string) (s : Agg) :
  makeDirs env path s
  = forEach (dirPrefixes path)
      (fun p =>
         when (truthy (Some p) && (0 <? String.length p)%nat
               && negb (existsSync env p))
           (lift (mkdirSync env p))) s
  /\ last (dirPrefixes path) ""
     = replace_class (fun c => (c =? "/")%char || (c =? "\")%char) "/"%char path
  /\ List.length (dirPrefixes path) = List.length (splitPath "" path).
Proof.
  split; [apply makeDirs_prefixes|].
  unfold dirPrefixes. split; [|now rewrite length_map, length_seq].
  destruct (splitPath_cons "" path) as (part & rest & E).
  assert (Hn : List.length (splitPath "" path) = S (List.length rest))
    by (now rewrite E).
  rewrite Hn, seq_S, map_app. simpl map at 2. rewrite last_last.
  pose proof (joinWith_splitPath "" path) as J. simpl in J. rewrite <- J, E.
  now rewrite firstn_all.
Qed.

Lemma mkdir_skipped (env : Env) (p : string) (s : Agg) :
  p = "" \/ existsSync env p = true ->
  when (truthy (Some p) && (0 <? String.length p)%nat && negb (existsSync env p))
    (lift (mkdirSync env p)) s
  = (Ok tt, s).
Proof.
  intros [->|H]; [reflexivity|]. rewrite H, andb_false_r. reflexivity.
Qed.

Lemma forEach_skipped (env : Env) (dirs : list string) (s : Agg) :
  (forall p, In p dirs -> p = "" \/ existsSync env p = true) ->
  forEach dirs
    (fun p =>
       when (truthy (Some p) && (0 <? String.length p)%nat
             && negb (existsSync env p))
         (lift (mkdirSync env p))) s
  = (Ok tt, s).
Proof.
  induction dirs as [|p dirs IH]; intros H; [reflexivity|].
  cbn [forEach]. unfold bindM. rewrite mkdir_skipped by (apply H; now left).
  apply IH. intros q Hq. apply H. now right.
Qed.

(** X4. When every directory on the way to the path is there, [makeDirs]
    creates nothing and returns, whatever [fs.mkdirSync] would do. *)
Theorem X4_makeDirs_existing (env : Env) (path : string) (s : Agg) :
  (forall p, In p (dirPrefixes path) -> p = "" \/ existsSync env p = true) ->
  makeDirs env path s = (Ok tt, s)
  /\ makeDirs (readOnly env) path s = (Ok tt, s).
Proof.
  intros H. rewrite !makeDirs_prefixes. split; now apply forEach_skipped.
Qed.

Lemma X4_makeDirs_existing_witness :
  makeDirs prepared "/out/locales" emptyAgg = (Ok tt, emptyAgg)
  /\ makeDirs (readOnly prepared) "/out/locales" emptyAgg = (Ok tt, emptyAgg).
Proof.
  apply (X4_makeDirs_existing prepared "/out/locales" emptyAgg).
  intros p H. vm_compute in H.
  destruct H as [<-|[<-|[<-|[]]]]; [left | right | right]; reflexivity.
Defined.

(** X5. [makeDirs] stops at the first directory that is missing and
    cannot be created, with the exception of [fs.mkdirSync]; the
    directories after it are not tried. *)
Theorem X5_makeDirs_fails_at_first (env : Env) (path : string) (s : Agg)
  (before after : list string) (p : string) (e : exn) :
  dirPrefixes path = (before ++ p :: after)%list ->
  (forall q, In q before -> q = "" \/ existsSync env q = true) ->
  p <> "" -> existsSync env p = false -> mkdirSync env p = Throw e ->
  makeDirs env path s = (Throw e, s).
Proof.
  intros Hsplit Hbefore Hp Hex Hmk. rewrite makeDirs_prefixes, Hsplit.
  clear Hsplit. induction before as [|q before IH]; cbn [app forEach].
  - unfold bindM. destruct p as [|c r]; [contradiction|].
    simpl. rewrite Hex. simpl. unfold lift. now rewrite Hmk.
  - unfold bindM. rewrite mkdir_skipped by (apply Hbefore; now left).
    apply IH. intros q' Hq'. apply Hbefore. now right.
Qed.

Lemma X5_makeDirs_fails_witness :
  makeDirs (readOnly World.env) "/out/locales" emptyAgg
  = (Throw (FsError "/out"), emptyAgg).
Proof.
  apply (X5_makeDirs_fails_at_first (readOnly World.env) "/out/locales"
           emptyAgg [""] ["/out/locales"] "/out" (FsError "/out")).
  - reflexivity.
  - intros q [<-|[]]. now left.
  - discriminate.
  - reflexivity.
  - reflexivity.
Defined.

(** ** The data root *)

Lemma find_false {A} (f : A -> bool) (xs : list A) :
  Forall (fun x => f x = false) xs -> find f xs = None.
Proof.
  induction 1 as [|x xs Hx _ IH]; simpl; [reflexivity | now rewrite Hx].
Qed.

(** X6. When the options name no ilib root and no module path holds
    ilib/package.json, the pass stops at the data root with a TypeError
    before it reads, logs or writes anything; [emitLocaleData] throws it
    and caches nothing, and the finish-modules hook throws it again
    when names are registered. *)
Theorem X6_no_ilib_root (env : Env) (options : Options) (names : JSSet)
  (t : string) :
  truthy (ilibRoot options) = false ->
  Forall (fun p => existsSync env (path_join env [p; "ilib/package.json"]) = false)
    (module_paths env) ->
  tempDir options = Some t ->
  let e := TypeError "path.join: undefined" in
  pass env options names emptyAgg = (Throw e, emptyAgg)
  /\ emitLocaleData env options (mkPlugin names None)
     = (Throw e, mkPlugin names None)
  /\ forall modules,
       finishModules env options (mkPlugin names None) modules
       = if (0 <? List.length names)%nat then (Throw e, mkPlugin names None)
         else (Ok modules, mkPlugin names None).
Proof.
  intros Hroot Hpaths Htemp e.
  assert (Hdr : calcDataRoot env options = Throw e).
  { unfold calcDataRoot, findIlibRoot. rewrite Hroot. simpl.
    now rewrite (find_false _ _ Hpaths). }
  assert (Hpass : pass env options names emptyAgg = (Throw e, emptyAgg)).
  { unfold pass, calcOutputDir, bindM, lift. now rewrite Htemp, Hdr. }
  assert (Hemit : emitLocaleData env options (mkPlugin names None)
                  = (Throw e, mkPlugin names None)).
  { unfold emitLocaleData. simpl. now rewrite Hpass. }
  split; [exact Hpass|]. split; [exact Hemit|].
  intros modules. unfold finishModules. simpl localeData.
  destruct (0 <? List.length names)%nat; [now rewrite Hemit | reflexivity].
Qed.

Lemma X6_no_ilib_root_witness :
  emitLocaleData World.env (mkOptions None ["en-US"] (Some "/out") None false)
    (mkPlugin ["localeinfo"] None)
  = (Throw (TypeError "path.join: undefined"), mkPlugin ["localeinfo"] None).
Proof.
  apply (X6_no_ilib_root World.env
           (mkOptions None ["en-US"] (Some "/out") None false)
           ["localeinfo"] "/out").
  - reflexivity.
  - repeat constructor.
  - reflexivity.
Defined.

(** ** Names of normalization forms *)

Lemma take_word_allWord (s : string) : allWord s = true -> take_word s = s.
Proof.
  induction s as [|c r IH]; simpl; [reflexivity|].
  intros H. apply andb_prop in H as [Hc Hr]. now rewrite Hc, IH.
Qed.

Lemma normPattern_exec_at (s : string) (m : string * option string) :
  normPattern_at s = Some m -> normPattern_exec s = Some m.
Proof. intros H. destruct s; cbn [normPattern_exec]; now rewrite H. Qed.

Lemma normPattern_at_script (form script : string) :
  isForm form -> allWord script = true -> script <> "" ->
  normPattern_at (form ++ "/" ++ script) = Some (form, Some script).
Proof.
  intros Hform Hword Hne. apply String.eqb_neq in Hne.
  destruct Hform as [<-|[<-|[<-|[<-|[]]]]]; unfold normPattern_at; simpl;
    now rewrite (take_word_allWord _ Hword), Hne.
Qed.

Lemma request_norm (env : Env) (dataRoot : string) (locs : list string)
  (loc filename : string) (m : string * option string) :
  normPattern_exec filename = Some m ->
  request env dataRoot locs loc filename = normRequest m.
Proof.
  intros H. unfold request.
  destruct (String.eqb_spec filename "charset") as [->|_];
    [vm_compute in H; discriminate|].
  destruct (String.eqb_spec filename "charmaps") as [->|_];
    [vm_compute in H; discriminate|].
  simpl. now rewrite H.
Qed.

(** X7. A requested name made of a form, a slash and a script of word
    characters is read as that form and that script: the request returns,
    the script is in the set of the form next to the scripts that were
    there, and no bucket, manifest entry or charset is touched. *)
Theorem X7_form_and_script (env : Env) (dataRoot : string)
  (locs : list string) (loc form script : string) (s : Agg) :
  isForm form -> allWord script = true -> script <> "" ->
  let s' := snd (request env dataRoot locs loc (form ++ "/" ++ script) s) in
  normPattern_exec (form ++ "/" ++ script) = Some (form, Some script)
  /\ fst (request env dataRoot locs loc (form ++ "/" ++ script) s) = Ok tt
  /\ (exists scripts,
        get form (normalizations s') = Some scripts
        /\ In script scripts
        /\ forall before x,
             get form (normalizations s) = Some before -> In x before ->
             In x scripts)
  /\ outputSet s' = outputSet s /\ manifest s' = manifest s
  /\ charsets s' = charsets s.
Proof.
  intros Hform Hword Hne s'.
  assert (E : normPattern_exec (form ++ "/" ++ script) = Some (form, Some script)).
  { apply normPattern_exec_at. now apply normPattern_at_script. }
  split; [exact E|]. subst s'. rewrite (request_norm env dataRoot locs loc _ _ E).
  unfold normRequest, modify. simpl.
  split; [reflexivity|]. split; [|now repeat split].
  rewrite get_set_same. eexists. split; [reflexivity|].
  assert (Ht : orElse (Some script) "" = script).
  { unfold orElse. simpl. apply String.eqb_neq in Hne. now rewrite Hne. }
  rewrite Ht. split.
  - apply In_set_add. now left.
  - intros before x Hb Hx. rewrite Hb. apply In_set_add. now right.
Qed.

Lemma X7_form_and_script_witness :
  normPattern_exec "nfkc/Hans" = Some ("nfkc", Some "Hans").
Proof.
  apply (X7_form_and_script World.env "/ilib/locale" ["zh-Hans-CN"]
           "zh-Hans-CN" "nfkc" "Hans" emptyAgg).
  - right; right; left; reflexivity.
  - reflexivity.
  - discriminate.
Defined.

Lemma normPattern_at_form (form tail : string) :
  isForm form -> normPattern_at (form ++ tail) <> None.
Proof.
  intros Hform.
  assert (F : first_alternative ["nfc"; "nfd"; "nfkc"; "nfkd"] (form ++ tail)
              = Some (form, tail)).
  { destruct Hform as [<-|[<-|[<-|[<-|[]]]]]; reflexivity. }
  unfold normPattern_at. rewrite F.
  destruct tail as [|c r]; [discriminate|].
  destruct c as [[] [] [] [] [] [] [] []]; try discriminate.
  destruct (take_word r =? ""); discriminate.
Qed.

Lemma normPattern_exec_contains (prefix form suffix : string) :
  isForm form -> normPattern_exec (prefix ++ form ++ suffix) <> None.
Proof.
  intros Hform. induction prefix as [|c r IH].
  - simpl append. pose proof (normPattern_at_form form suffix Hform) as H.
    destruct (normPattern_at (form ++ suffix)) as [m|] eqn:E; [|congruence].
    rewrite (normPattern_exec_at _ _ E). discriminate.
  - simpl. destruct (normPattern_at (String c (r ++ form ++ suffix)));
      [discriminate | exact IH].
Qed.

(** X8. The pattern of the forms is searched anywhere in a requested
    name: a name that holds nfc, nfd, nfkc or nfkd somewhere is taken for
    a normalization form.  The request returns and makes no bucket,
    manifest entry or log entry: the files of that name are not looked
    for. *)
Theorem X8_form_anywhere (env : Env) (dataRoot : string) (locs : list string)
  (loc prefix form suffix : string) (s : Agg) :
  isForm form ->
  let filename := prefix ++ form ++ suffix in
  let s' := snd (request env dataRoot locs loc filename s) in
  isNormName filename = true
  /\ fst (request env dataRoot locs loc filename s) = Ok tt
  /\ outputSet s' = outputSet s /\ manifest s' = manifest s
  /\ console s' = console s.
Proof.
  intros Hform filename s'.
  pose proof (normPattern_exec_contains prefix form suffix Hform) as H.
  fold filename in H.
  destruct (normPattern_exec filename) as [m|] eqn:E; [clear H | congruence].
  split.
  - unfold isNormName. rewrite E.
    destruct (String.eqb_spec filename "charset") as [Hc|_];
      [rewrite Hc in E; vm_compute in E; discriminate|].
    destruct (String.eqb_spec filename "charmaps") as [Hc|_];
      [rewrite Hc in E; vm_compute in E; discriminate|].
    reflexivity.
  - subst s'. rewrite (request_norm env dataRoot locs loc _ _ E).
    now repeat split.
Qed.

Lemma X8_form_anywhere_witness :
  isNormName "confcodes" = true
  /\ outputSet (snd (request World.env "/ilib/locale" ["en-US"] "en-US"
                       "confcodes" emptyAgg)) = [].
Proof.
  destruct (X8_form_anywhere World.env "/ilib/locale" ["en-US"] "en-US"
              "co" "nfc" "odes" emptyAgg) as (H1 & _ & H2 & _).
  - left; reflexivity.
  - split; [exact H1 | exact H2].
Defined.

(** ** The file all.json of a form *)

Lemma In_get_NoDup {V} (o : Obj V) (k : string) (v : V) :
  NoDup (keys o) -> In (k, v) o -> get k o = Some v.
Proof.
  induction o as [|[k' v'] o IH]; simpl; intros Hd Hin; [contradiction|].
  inversion Hd as [|? ? Hn Hd']; subst.
  destruct Hin as [[= -> ->]|Hin]; [now rewrite String.eqb_refl|].
  destruct (String.eqb_spec k k') as [->|_]; [|now apply IH].
  exfalso. apply Hn. change k' with (fst (k', v)). now apply in_map.
Qed.

Lemma form_keys_differ (f f' a b : string) :
  isForm f -> isForm f' -> f <> f' -> f ++ "/" ++ a <> f' ++ "/" ++ b.
Proof.
  intros Hf Hf' Hne E.
  destruct Hf as [<-|[<-|[<-|[<-|[]]]]];
    destruct Hf' as [<-|[<-|[<-|[<-|[]]]]];
    simpl in E; congruence.
Qed.

Lemma form_key_not_char (form script : string) :
  isForm form -> forall t, form ++ "/" ++ script <> "char" ++ t.
Proof.
  intros Hf t E.
  destruct Hf as [<-|[<-|[<-|[<-|[]]]]]; simpl in E; congruence.
Qed.

Lemma addForm_other_key (env : Env) (dataRoot form script key : string)
  (v : option string) :
  form ++ "/" ++ script <> key ->
  keeps (fun s => rootLine s key = v) (addForm env dataRoot form script).
Proof.
  intros Hne. unfold addForm.
  repeat first [ keeps_step | now apply rootLine_putLine_other | keeps_leaf ].
Qed.

Lemma charsetPhase_other_keys (env : Env) (dataRoot key : string)
  (v : option string) :
  (forall t, key <> "char" ++ t) ->
  keeps (fun s => rootLine s key = v) (charsetPhase env dataRoot).
Proof.
  intros Hk.
  assert (H1 : "charsetaliases" <> key)
    by (intros E; exact (Hk "setaliases" (eq_sym E))).
  assert (H2 : forall c, "charset_" ++ c <> key)
    by (intros c E; exact (Hk ("set_" ++ c) (eq_sym E))).
  assert (H3 : forall c, "charmaps_" ++ c <> key)
    by (intros c E; exact (Hk ("maps_" ++ c) (eq_sym E))).
  unfold charsetPhase, charsetAliases, charsetFile, charmapFile.
  repeat first [ keeps_step | apply rootLine_ensurePart
               | now apply rootLine_putLine_other | keeps_leaf ].
Qed.

(** Without zoneinfo, the loop over the names puts nothing in root under
    a key that reads as a normalization form. *)
Lemma requests_no_form_key (env : Env) (dataRoot : string) (locs : list string)
  (names : JSSet) (key : string) :
  ~ In "zoneinfo" names -> normPattern_exec key <> None ->
  keeps (fun s => rootLine s key = None) (requests env dataRoot locs names).
Proof.
  intros Hz Hk. unfold requests. apply keeps_forEach. intros loc _.
  apply keeps_forEach. intros filename Hin. unfold request.
  destruct ((filename =? "charset") || (filename =? "charmaps")).
  - unfold charsetRequest, loadLang2charset. keeps_insensitive.
  - destruct (normPattern_exec filename) eqn:E.
    + unfold normRequest. keeps_insensitive.
    + destruct (String.eqb_spec filename "zoneinfo") as [->|_];
        [contradiction|].
      assert (Hne : filename <> key) by congruence.
      unfold genericRequest, genericPart.
      repeat first [ keeps_step | apply rootLine_ensurePart
                   | now apply rootLine_putLine_other | keeps_leaf ].
Qed.

Lemma keeps_normalizations_NoDup (env : Env) (dataRoot : string)
  (locs : list string) (names : JSSet) :
  keeps (fun s => NoDup (keys (normalizations s)))
    (requests env dataRoot locs names).
Proof.
  unfold requests. apply keeps_forEach. intros loc _.
  apply keeps_forEach. intros filename _. unfold request.
  destruct ((filename =? "charset") || (filename =? "charmaps")).
  - unfold charsetRequest, loadLang2charset. keeps_insensitive.
  - destruct (normPattern_exec filename) as [m|].
    + unfold normRequest. apply keeps_modify. intros s H. simpl.
      now apply NoDup_keys_set.
    + destruct (filename =? "zoneinfo").
      * unfold zoneinfoRequest, regionZone, genericZone. keeps_insensitive.
      * unfold genericRequest, genericPart. keeps_insensitive.
Qed.

Lemma keeps_holdsScript_request (env : Env) (dataRoot : string)
  (locs : list string) (loc filename form script : string) :
  keeps (holdsScript form script) (request env dataRoot locs loc filename).
Proof.
  unfold request.
  destruct ((filename =? "charset") || (filename =? "charmaps")).
  - unfold charsetRequest, loadLang2charset. keeps_insensitive.
  - destruct (normPattern_exec filename) as [m|].
    + unfold normRequest. apply keeps_modify.
      intros s (scripts & Hg & Hin). unfold holdsScript. simpl.
      destruct (string_dec (fst m) form) as [->|Hne].
      * rewrite get_set_same, Hg. eexists. split; [reflexivity|].
        apply In_set_add. now right.
      * rewrite get_set_other by congruence. eauto.
    + destruct (filename =? "zoneinfo").
      * unfold zoneinfoRequest, regionZone, genericZone. keeps_insensitive.
      * unfold genericRequest, genericPart. keeps_insensitive.
Qed.

(** A loop that returns has run each of its steps; what a step
    establishes and the others keep holds at the end. *)
Lemma forEach_reaches {A} (xs : list A) (f : A -> M unit) (Post : Agg -> Prop)
  (x : A) :
  In x xs ->
  (forall s, fst (f x s) = Ok tt -> Post (snd (f x s))) ->
  (forall y, keeps Post (f y)) ->
  forall s, fst (forEach xs f s) = Ok tt -> Post (snd (forEach xs f s)).
Proof.
  intros Hin Hx Hkeeps. induction xs as [|y xs IH]; [contradiction|].
  intros s. cbn [forEach]. unfold bindM.
  pose proof (Hx s) as Hxs.
  destruct (f y s) as [[[]|e] s1] eqn:E; [|discriminate].
  destruct Hin as [->|Hin].
  - intros _. rewrite E in Hxs. simpl in Hxs.
    apply (keeps_forEach (P := Post) xs f (fun z _ => Hkeeps z)). now apply Hxs.
  - now apply IH.
Qed.

Lemma requests_hold_all (env : Env) (dataRoot : string) (locs : list string)
  (names : JSSet) (form : string) (s : Agg) :
  isForm form -> In (form ++ "/all") names ->
  fst (requests env dataRoot locs names s) = Ok tt ->
  locs = [] \/ holdsScript form "all" (snd (requests env dataRoot locs names s)).
Proof.
  intros Hform Hin Hr. destruct locs as [|loc locs]; [now left | right].
  revert Hr. unfold requests.
  apply (forEach_reaches (loc :: locs)
           (fun loc0 => forEach names (request env dataRoot (loc :: locs) loc0))
           (holdsScript form "all") loc); [now left | |].
  - apply (forEach_reaches names _ (holdsScript form "all") (form ++ "/all") Hin).
    + intros s1 _.
      assert (E : normPattern_exec (form ++ "/all") = Some (form, Some "all")).
      { apply normPattern_exec_at.
        now apply normPattern_at_script. }
      rewrite (request_norm env dataRoot (loc :: locs) loc _ _ E).
      unfold normRequest, modify, holdsScript. simpl.
      rewrite get_set_same. eexists. split; [reflexivity|].
      apply In_set_add. now left.
    + intros y. apply keeps_holdsScript_request.
  - intros loc0. apply keeps_forEach. intros y _.
    apply keeps_holdsScript_request.
Qed.

Lemma normPhase_all (env : Env) (dataRoot : string) (scr : JSSet)
  (form script : string) (v : option string) (s : Agg) :
  formsOnly s -> NoDup (keys (normalizations s)) ->
  holdsScript form "all" s -> script <> "all" ->
  rootLine s (form ++ "/" ++ script) = v ->
  rootLine (snd (normPhase env dataRoot scr s)) (form ++ "/" ++ script) = v.
Proof.
  intros Hforms Hdup (scripts & Hget & Hall) Hne Hv.
  unfold normPhase, bindM, gets.
  apply (keeps_forEach (P := fun s => rootLine s (form ++ "/" ++ script) = v));
    [|exact Hv].
  intros [form' scripts'] Hin. unfold normForm. cbn [fst snd].
  assert (Hform' : isForm form').
  { unfold formsOnly in Hforms. rewrite Forall_forall in Hforms.
    apply Hforms. change form' with (fst (form', scripts')). now apply in_map. }
  destruct (string_dec form' form) as [->|Hother].
  - rewrite (In_get_NoDup _ _ _ Hdup Hin) in Hget. injection Hget as ->.
    apply set_has_In in Hall. rewrite Hall.
    apply addForm_other_key. intros E.
    apply append_inj_l in E. apply (append_inj_l "/") in E. congruence.
  - assert (Hform : isForm form).
    { unfold formsOnly in Hforms. rewrite Forall_forall in Hforms.
      apply Hforms. eapply get_Some_keys. eassumption. }
    destruct (set_has "all" scripts').
    + apply addForm_other_key. now apply form_keys_differ.
    + apply keeps_forEach. intros script' _.
      apply addForm_other_key. now apply form_keys_differ.
Qed.

(** X9. When the file all of a form is requested, the pass puts no line
    of another script of that form into the root bundle, whatever else
    is requested next to it and whether or not the file of the script is
    there.  (Zone names are left aside: with zoneinfo requested, a zone
    of that name would have its line under the same key.) *)
Theorem X9_all_instead_of_scripts (env : Env) (options : Options)
  (names : JSSet) (form script : string) :
  isForm form -> In (form ++ "/all") names -> ~ In "zoneinfo" names ->
  script <> "all" ->
  rootLine (snd (pass env options names emptyAgg)) (form ++ "/" ++ script)
  = None.
Proof.
  intros Hform Hin Hzone Hne.
  set (key := form ++ "/" ++ script).
  assert (Hkey : normPattern_exec key <> None)
    by (apply (normPattern_exec_contains "" form ("/" ++ script) Hform)).
  assert (Hchar : forall t, key <> "char" ++ t)
    by (now apply form_key_not_char).
  unfold pass, bindM at 1 2, lift at 1 2.
  destruct (calcOutputDir env options) as [outputDir|e]; [|reflexivity].
  destruct (calcDataRoot env options) as [dataRoot|e]; [|reflexivity].
  cbv zeta. set (scripts := likelyScripts env (locales options)).
  pose proof (requests_no_form_key env dataRoot (locales options) names key
                Hzone Hkey emptyAgg eq_refl) as R1.
  pose proof (keeps_forms_requests env dataRoot (locales options) names
                emptyAgg (Forall_nil _)) as F1.
  pose proof (keeps_normalizations_NoDup env dataRoot (locales options) names
                emptyAgg (NoDup_nil _)) as N1.
  pose proof (requests_hold_all env dataRoot (locales options) names form
                emptyAgg Hform Hin) as A1.
  unfold bindM at 1.
  destruct (requests env dataRoot (locales options) names emptyAgg)
    as [[[]|e1] s1] eqn:E1; cbn [fst snd] in *; [|exact R1].
  specialize (A1 eq_refl).
  pose proof (charsetPhase_other_keys env dataRoot key None Hchar s1 R1) as R2.
  assert (K2 : normalizations (snd (charsetPhase env dataRoot s1))
               = normalizations s1).
  { assert (K : keeps (fun s => normalizations s = normalizations s1)
                  (charsetPhase env dataRoot)).
    { unfold charsetPhase, charsetAliases, charsetFile, charmapFile.
      keeps_insensitive. }
    exact (K s1 eq_refl). }
  unfold bindM at 1.
  destruct (charsetPhase env dataRoot s1) as [[[]|e2] s2] eqn:E2;
    cbn [fst snd] in *; [|exact R2].
  assert (R3 : rootLine (snd (normPhase env dataRoot scripts s2)) key = None).
  { destruct A1 as [L|A1].
    - rewrite L in E1. injection E1 as <-.
      vm_compute in E2. injection E2 as <-. reflexivity.
    - apply normPhase_all; try assumption.
      + unfold formsOnly. now rewrite K2.
      + now rewrite K2.
      + unfold holdsScript. now rewrite K2. }
  unfold bindM at 1.
  destruct (normPhase env dataRoot scripts s2) as [[[]|e3] s3];
    cbn [fst snd] in *; [|exact R3].
  exact (keeps_emitFiles_any (fun s => rootLine s key = None) env outputDir
           s3 R3).
Qed.

Lemma X9_all_instead_of_scripts_witness :
  rootLine
    (snd (pass World.env (World.options ["en-US"])
            ["localeinfo"; "nfc/Latn"; "nfc/all"] emptyAgg))
    "nfc/Latn"
  = None.
Proof.
  apply (X9_all_instead_of_scripts World.env (World.options ["en-US"])
           ["localeinfo"; "nfc/Latn"; "nfc/all"] "nfc" "Latn").
  - left; reflexivity.
  - right; right; left; reflexivity.
  - intros [H|[H|[H|[]]]]; discriminate.
  - discriminate.
Defined.

(** ** Generic names whose files are missing or unreadable *)

Lemma tryCatch_logError_Ok (body : M unit) (s : Agg) :
  fst (tryCatch body logError s) = Ok tt.
Proof. unfold tryCatch. now destruct (body s) as [[[]|e] s1]. Qed.

Lemma keeps_lineAt_ensurePart (part key part' : string) :
  keeps (fun s => lineAt s part key <> None) (ensurePart part').
Proof.
  intros s H. unfold ensurePart, modify. simpl.
  destruct (get part' (outputSet s)) eqn:E; [assumption|].
  unfold lineAt in *. simpl.
  destruct (string_dec part part') as [->|Hne].
  - now rewrite E in H.
  - now rewrite get_set_other.
Qed.

Lemma keeps_lineAt_putLine (part key part' key' line : string) :
  keeps (fun s => lineAt s part key <> None) (putLine part' key' line).
Proof.
  intros s H. unfold putLine.
  destruct (get part' (outputSet s)) as [bucket|] eqn:E; [|assumption].
  unfold lineAt in *. simpl.
  destruct (string_dec part part') as [->|Hne].
  - rewrite get_set_same. rewrite E in H.
    destruct (string_dec key key') as [->|Hk].
    + rewrite get_set_same. discriminate.
    + now rewrite get_set_other.
  - now rewrite get_set_other.
Qed.

Lemma keeps_lineAt_genericPart (env : Env) (dataRoot filename : string)
  (dir : option string) (part key : string) :
  keeps (fun s => lineAt s part key <> None)
    (genericPart env dataRoot filename dir).
Proof.
  unfold genericPart.
  repeat first [ keeps_step | apply keeps_lineAt_ensurePart
               | apply keeps_lineAt_putLine | keeps_leaf ].
Qed.

Lemma keeps_manifest_genericPart (env : Env) (dataRoot filename : string)
  (dir : option string) (p : string) :
  keeps (fun s => In p (manifest s)) (genericPart env dataRoot filename dir).
Proof.
  unfold genericPart.
  repeat first [ keeps_step | apply keeps_manifest_In | keeps_leaf ].
Qed.

Lemma genericPart_missing (env : Env) (dataRoot filename dir : string)
  (s : Agg) :
  existsSync env (path_join env [dataRoot; dir; filename ++ ".json"]) = false ->
  let s' := snd (genericPart env dataRoot filename (Some dir) s) in
  lineAt s' (partName dir) filename = Some ""
  /\ In (path_join env [dir; filename ++ ".json"]) (manifest s').
Proof.
  intros Hex. unfold genericPart, tryCatch. rewrite Hex.
  unfold bindM, ensurePart, modify, putLine, manifestAdd.
  destruct (get (partName dir) (outputSet s)) as [bucket|] eqn:E; simpl.
  - rewrite E. simpl. unfold lineAt. simpl. rewrite !get_set_same.
    split; [reflexivity | apply In_set_add; now left].
  - rewrite get_set_same. simpl. unfold lineAt. simpl. rewrite !get_set_same.
    split; [reflexivity | apply In_set_add; now left].
Qed.



(** ** Charmaps and their charsets *)

Lemma keeps_charmapsKnown_charsetRequest (env : Env)
  (dataRoot loc filename : string) :
  keeps charmapsKnown (charsetRequest env dataRoot loc filename).
Proof.
  unfold charsetRequest.
  apply keeps_bind; [unfold loadLang2charset; keeps_insensitive|].
  intros table. cbv zeta.
  set (spec := toString (language (Locale env loc))
               ++ (if truthy (script (Locale env loc))
                   then "-" ++ toString (script (Locale env loc)) else "")).
  destruct (get spec table) as [names|]; [|apply keeps_ret].
  intros s H. unfold bindM, modify, when.
  destruct (filename =? "charmaps"); simpl.
  - intros spec' ns name Hg Hn. simpl in Hg |- *. apply In_addAll.
    destruct (string_dec spec' spec) as [->|Hne].
    + rewrite get_set_same in Hg. injection Hg as <-.
      apply In_addAll in Hn. destruct Hn as [Hn|Hn]; [now left | right].
      destruct (get spec (charmaps s)) as [current|] eqn:E; [|contradiction].
      now apply (H spec current).
    + rewrite get_set_other in Hg by assumption. right. now apply (H spec' ns).
  - intros spec' ns name Hg Hn. simpl in Hg |- *. apply In_addAll. right.
    now apply (H spec' ns).
Qed.

Lemma keeps_charmapsKnown_requests (env : Env) (dataRoot : string)
  (locs : list string) (names : JSSet) :
  keeps charmapsKnown (requests env dataRoot locs names).
Proof.
  unfold requests. apply keeps_forEach. intros loc _.
  apply keeps_forEach. intros filename _. unfold request.
  destruct ((filename =? "charset") || (filename =? "charmaps")).
  - apply keeps_charmapsKnown_charsetRequest.
  - destruct (normPattern_exec filename) as [m|].
    + unfold normRequest. keeps_insensitive.
    + destruct (filename =? "zoneinfo").
      * unfold zoneinfoRequest, regionZone, genericZone. keeps_insensitive.
      * unfold genericRequest, genericPart. keeps_insensitive.
Qed.

(** X11. Whatever is requested, and whether the pass returns or throws,
    every charset whose charmap the pass wants for a locale is among the
    charsets it loads: asking for charmaps brings the charset files
    along. *)
Theorem X11_charmaps_bring_charsets (env : Env) (options : Options)
  (names : JSSet) :
  charmapsKnown (snd (pass env options names emptyAgg)).
Proof.
  assert (K : keeps charmapsKnown (pass env options names)).
  { unfold pass. apply keeps_bind; [apply keeps_lift|]. intros outputDir.
    apply keeps_bind; [apply keeps_lift|]. intros dataRoot. cbv zeta.
    apply keeps_bind; [apply keeps_charmapsKnown_requests|]. intros _.
    apply keeps_bind.
    { unfold charsetPhase, charsetAliases, charsetFile, charmapFile.
      keeps_insensitive. }
    intros _. apply keeps_bind.
    { unfold normPhase, normForm, addForm. keeps_insensitive. }
    intros _. apply keeps_emitFiles_any. }
  apply K. intros spec ns name Hg. discriminate.
Qed.

Lemma X11_charmaps_witness : In "Big5" (charsets (snd big5Run)).
Proof.
  apply (X11_charmaps_bring_charsets World.env
           (World.options ["zh-Hans-CN"; "en-US"]) big5Names
           "zh-Hans" ["Big5"] "Big5").
  - reflexivity.
  - now left.
Defined.

(** ** The sources that a pass returns *)

Lemma makeDirs_state (env : Env) (path : string) (s : Agg) :
  snd (makeDirs env path s) = s.
Proof.
  assert (K : keeps (fun t => t = s) (makeDirs env path))
    by (unfold makeDirs; keeps_insensitive).
  exact (K s eq_refl).
Qed.

Lemma makeDirs_Ok_inv (env : Env) (path : string) (s s' : Agg) (r : result unit) :
  makeDirs env path s = (r, s') -> s' = s.
Proof.
  intros H. pose proof (makeDirs_state env path s) as T. now rewrite H in T.
Qed.

Lemma get_set_inv {V} (o : Obj V) (k k' : string) (v w : V) :
  get k (set k' v o) = Some w -> w = v \/ get k o = Some w.
Proof.
  destruct (string_dec k k') as [->|Hne].
  - rewrite get_set_same. intros [= ->]. now left.
  - rewrite get_set_other by assumption. now right.
Qed.

Lemma bundleText_not_empty (dataFiles : Obj string) :
  bundleText dataFiles <> "".
Proof. unfold bundleText. simpl. discriminate. Qed.

Lemma manifestText_not_empty (env : Env) (files : list string) :
  manifestText env files <> "".
Proof. unfold manifestText. simpl. discriminate. Qed.

Lemma emitBundle_inv (env : Env) (outputPath : string)
  (entry : string * Obj string) (sources0 sources : Obj string) (s s' : Agg) :
  emitBundle env outputPath entry sources0 s = (Ok sources, s') ->
  s' = s
  /\ sources = set (path_join env [outputPath; fst entry ++ ".js"])
                 (bundleText (snd entry)) sources0.
Proof.
  unfold emitBundle. cbv zeta. intros H.
  apply bindM_Ok in H as ([] & s1 & H1 & H).
  apply makeDirs_Ok_inv in H1 as ->.
  apply bindM_Ok in H as ([] & s2 & H2 & H).
  apply lift_Ok in H2 as [_ ->].
  unfold ret in H. injection H as <- <-. now split.
Qed.

Lemma emitBundles_inv (env : Env) (outputPath : string)
  (buckets : Obj (Obj string)) (sources0 sources : Obj string) (s s' : Agg) :
  forEachWith buckets (emitBundle env outputPath) sources0 s = (Ok sources, s') ->
  s' = s
  /\ (forall f, In f (keys sources) <->
        In f (keys sources0)
        \/ exists part, In part (keys buckets)
                        /\ f = path_join env [outputPath; part ++ ".js"])
  /\ (forall f text, get f sources = Some text ->
        get f sources0 = Some text \/ text <> "").
Proof.
  revert sources0 s. induction buckets as [|entry buckets IH];
    intros sources0 s H; simpl in H.
  - unfold ret in H. injection H as <- <-. split; [reflexivity|]. split.
    + intros f. split; [now left | intros [H|(part & [] & _)]; exact H].
    + intros f text H. now left.
  - apply bindM_Ok in H as (sources1 & s1 & H1 & H).
    apply emitBundle_inv in H1 as [-> ->].
    apply IH in H as (-> & Hkeys & Htext). split; [reflexivity|]. split.
    + intros f. rewrite Hkeys, In_keys_set. simpl. split.
      * intros [[->|H]|(part & Hp & ->)]; eauto 6.
      * intros [H|(part & [<-|Hp] & ->)]; eauto 6.
    + intros f text H. apply Htext in H as [H|H]; [|now right].
      apply get_set_inv in H as [->|H]; [right | now left].
      apply bundleText_not_empty.
Qed.

Lemma emitFiles_inv (env : Env) (outputDir : string) (sources : Obj string)
  (s s' : Agg) :
  emitFiles env outputDir s = (Ok sources, s') ->
  let outputPath := path_join env [outputDir; "locales"] in
  s' = s
  /\ (forall f, In f (keys sources) <->
        f = path_join env [outputPath; "localmanifest.js"]
        \/ f = path_join env [outputPath; "remotemanifest.js"]
        \/ exists part, In part (keys (outputSet s))
                        /\ f = path_join env [outputPath; part ++ ".js"])
  /\ (forall f text, get f sources = Some text -> text <> "").
Proof.
  unfold emitFiles. cbv zeta. intros H.
  apply bindM_Ok in H as (files & s1 & H1 & H).
  unfold gets in H1. injection H1 as <- <-.
  apply bindM_Ok in H as ([] & s1 & H1 & H). apply makeDirs_Ok_inv in H1 as ->.
  apply bindM_Ok in H as ([] & s1 & H1 & H). apply makeDirs_Ok_inv in H1 as ->.
  apply bindM_Ok in H as ([] & s1 & H1 & H). apply lift_Ok in H1 as [_ ->].
  apply bindM_Ok in H as (buckets & s1 & H1 & H).
  unfold gets in H1. injection H1 as <- <-.
  apply bindM_Ok in H as ([] & s1 & H1 & H). apply lift_Ok in H1 as [_ ->].
  apply emitBundles_inv in H as (-> & Hkeys & Htext).
  split; [reflexivity|]. split.
  - intros f. rewrite Hkeys, !In_keys_set. simpl. tauto.
  - intros f text H. apply Htext in H as [H|H]; [|exact H].
    apply get_set_inv in H as [->|H]; [apply manifestText_not_empty|].
    apply get_set_inv in H as [->|H]; [apply manifestText_not_empty|].
    discriminate.
Qed.

(** X12. The sources that a pass returns are filed under the paths of
    the local manifest, of the remote manifest and of one bundle for
    every partition that has a bucket, and under no other path; none of
    the texts is empty. *)
Theorem X12_sources_of_a_pass (env : Env) (options : Options) (names : JSSet)
  (sources : Obj string) (final : Agg) (outputDir : string) :
  pass env options names emptyAgg = (Ok sources, final) ->
  calcOutputDir env options = Ok outputDir ->
  let outputPath := path_join env [outputDir; "locales"] in
  (forall f, In f (keys sources) <->
     f = path_join env [outputPath; "localmanifest.js"]
     \/ f = path_join env [outputPath; "remotemanifest.js"]
     \/ exists part, In part (keys (outputSet final))
                     /\ f = path_join env [outputPath; part ++ ".js"])
  /\ (forall f text, get f sources = Some text -> text <> "").
Proof.
  intros Hpass Hod outputPath.
  apply pass_Ok in Hpass
    as (outputDir' & dataRoot & s1 & s2 & s3 & Hod' & _ & _ & _ & _ & H).
  rewrite Hod in Hod'. injection Hod' as <-.
  apply emitFiles_inv in H as (-> & Hkeys & Htext). now split.
Qed.

Lemma X12_sources_witness :
  (forall f, In f (keys (sourcesOf (fst firstEmit))) <->
     f = "/out/locales/localmanifest.js"
     \/ f = "/out/locales/remotemanifest.js"
     \/ exists part, In part ["root"; "en"; "en-US"; "und-US"]
                     /\ f = World.join ["/out/locales"; part ++ ".js"])
  /\ (forall f text, get f (sourcesOf (fst firstEmit)) = Some text -> text <> "").
Proof.
  apply (X12_sources_of_a_pass World.env (World.options ["en-US"])
           ["localeinfo"] (sourcesOf (fst firstEmit))
           (snd (pass World.env (World.options ["en-US"]) ["localeinfo"] emptyAgg))
           "/out").
  - vm_compute. reflexivity.
  - reflexivity.
Defined.

(** ** The finish-modules hook *)

Lemma pass_sources_truthy (env : Env) (options : Options) (names : JSSet)
  (sources : Obj string) (final : Agg) (f text : string) :
  pass env options names emptyAgg = (Ok sources, final) ->
  get f sources = Some text -> truthy (Some text) = true.
Proof.
  intros Hpass Hget.
  apply pass_Ok in Hpass
    as (outputDir & dataRoot & s1 & s2 & s3 & _ & _ & _ & _ & _ & H).
  apply emitFiles_inv in H as (_ & _ & Htext).
  simpl. apply negb_true_iff. apply String.eqb_neq. now apply (Htext f).
Qed.

(** X13. When names are registered and the pass returns, the
    finish-modules hook gives every module whose resource is one of the
    emitted files the emitted text behind a use-strict line; a module
    whose resource is the name of a property that every object inherits
    (constructor, toString and the like) gets the text of that property
    the same way; the other modules, the resources and the number of the
    modules stay as they are.  Run again on the modules it has updated,
    with any options and in any world with the same inherited
    properties, the hook changes nothing. *)
Theorem X13_finish_modules (env : Env) (options : Options) (names : JSSet)
  (modules : list webpackModule) (sources : Obj string) (final : Agg) :
  names <> [] ->
  pass env options names emptyAgg = (Ok sources, final) ->
  let st' := mkPlugin names (Some sources) in
  let behind := fun text => dq ++ "use strict" ++ dq ++ ";" ++ text in
  let updated :=
    map (fun m =>
           match get (toString (resource m)) sources with
           | Some text => mkModule (resource m) (behind text)
           | None =>
               match Object_prototype env (toString (resource m)) with
               | Some text =>
                   if text =? "" then m else mkModule (resource m) (behind text)
               | None => m
               end
           end) modules in
  finishModules env options (mkPlugin names None) modules = (Ok updated, st')
  /\ map resource updated = map resource modules
  /\ forall env' options',
       (forall name, Object_prototype env' name = Object_prototype env name) ->
       finishModules env' options' st' updated = (Ok updated, st').
Proof.
  intros Hnames Hpass st' behind updated.
  assert (Hsize : (0 <? List.length names)%nat = true)
    by (destruct names; [contradiction | reflexivity]).
  assert (Hupdate : forall env' m,
            (forall name, Object_prototype env' name = Object_prototype env name) ->
            updateModule env' sources m
            = match get (toString (resource m)) sources with
              | Some text => mkModule (resource m) (behind text)
              | None =>
                  match Object_prototype env (toString (resource m)) with
                  | Some text =>
                      if text =? "" then m else mkModule (resource m) (behind text)
                  | None => m
                  end
              end).
  { intros env' m Hsame. unfold updateModule, sourceAt. rewrite Hsame.
    destruct (get (toString (resource m)) sources) as [text|] eqn:E.
    - now rewrite (pass_sources_truthy env options names sources final _ _ Hpass E).
    - destruct (Object_prototype env (toString (resource m))) as [text|];
        [|reflexivity].
      simpl. now destruct (text =? ""). }
  split; [|split].
  - unfold finishModules, emitLocaleData. cbn [localeData localeDataEmitted].
    rewrite Hsize, Hpass. cbn [fst]. do 2 f_equal. apply map_ext.
    intros m. now apply Hupdate.
  - subst updated. rewrite map_map. apply map_ext. intros m.
    destruct (get (toString (resource m)) sources); [reflexivity|].
    destruct (Object_prototype env (toString (resource m))) as [text|];
      [|reflexivity].
    now destruct (text =? "").
  - intros env' options' Hsame. unfold finishModules, emitLocaleData.
    subst st'. cbn [localeData localeDataEmitted]. rewrite Hsize.
    do 2 f_equal. subst updated. rewrite map_map. apply map_ext. intros m.
    rewrite (Hupdate env' _ Hsame).
    destruct (get (toString (resource m)) sources) as [text|] eqn:E;
      cbn [resource]; [now rewrite E|].
    destruct (Object_prototype env (toString (resource m))) as [text|] eqn:P;
      [|now rewrite E, P].
    destruct (text =? "") eqn:T; cbn [resource]; now rewrite E, P, ?T.
Qed.

Lemma X13_finish_modules_witness :
  fst (finishModules World.env (World.options ["en-US"])
         (mkPlugin ["localeinfo"] None)
         [ mkModule (Some "/out/locales/en.js") "";
           mkModule (Some "/src/app.js") "app";
           mkModule (Some "constructor") "";
           mkModule None "" ])
  = Ok [ mkModule (Some "/out/locales/en.js")
           (dq ++ "use strict" ++ dq ++ ";"
            ++ "module.exports.installLocale = function(ilib) {" ++ nl
            ++ "ilib.data.localeinfo_en = {B};" ++ nl ++ "};" ++ nl);
         mkModule (Some "/src/app.js") "app";
         mkModule (Some "constructor")
           (dq ++ "use strict" ++ dq ++ ";"
            ++ "function Object() { [native code] }");
         mkModule None "" ].
Proof.
  destruct (X13_finish_modules World.env (World.options ["en-US"])
              ["localeinfo"]
              [ mkModule (Some "/out/locales/en.js") "";
                mkModule (Some "/src/app.js") "app";
                mkModule (Some "constructor") "";
                mkModule None "" ]
              (sourcesOf (fst firstEmit))
              (snd (pass World.env (World.options ["en-US"]) ["localeinfo"]
                      emptyAgg)))
    as (H & _).
  - discriminate.
  - vm_compute. reflexivity.
  - rewrite H. vm_compute. reflexivity.
Defined.

(** ** The placeholders of [getDummyLocaleDataFiles] *)

Lemma toArrayOf_app {A} (set acc : list A) :
  fold_left (fun ret element => (ret ++ [element])%list) set acc
  = (acc ++ set)%list.
Proof.
  revert acc. induction set as [|x set IH]; intros acc; simpl.
  - now rewrite app_nil_r.
  - now rewrite IH, <- app_assoc.
Qed.

Lemma toArrayOf_id {A} (set : list A) : toArrayOf set = set.
Proof. unfold toArrayOf. now rewrite toArrayOf_app. Qed.

Lemma opt_eqb_eq (a b : option string) : opt_eqb a b = true <-> a = b.
Proof.
  destruct a as [x|], b as [y|]; simpl; try (split; congruence).
  rewrite String.eqb_eq. split; congruence.
Qed.

Lemma has_opt_In (x : option string) (s : list (option string)) :
  has opt_eqb x s = true <-> In x s.
Proof.
  unfold has. rewrite existsb_exists. split.
  - intros (y & Hy & E). apply opt_eqb_eq in E. now subst.
  - intros H. exists x. split; [exact H | now apply opt_eqb_eq].
Qed.

Lemma In_add_opt (x y : option string) (s : list (option string)) :
  In x (add opt_eqb y s) <-> x = y \/ In x s.
Proof.
  unfold add. destruct (has opt_eqb y s) eqn:E.
  - apply has_opt_In in E. split; [auto | intros [->|H]; assumption].
  - rewrite in_app_iff. simpl. intuition congruence.
Qed.

Lemma NoDup_add_opt (y : option string) (s : list (option string)) :
  NoDup s -> NoDup (add opt_eqb y s).
Proof.
  intros H. unfold add. destruct (has opt_eqb y s) eqn:E; [assumption|].
  assert (Hn : ~ In y s).
  { intros Hin. apply has_opt_In in Hin. congruence. }
  apply NoDup_rev in H. rewrite <- (rev_involutive (s ++ [y])%list).
  apply NoDup_rev. rewrite rev_app_distr. simpl. constructor; [|assumption].
  now rewrite <- in_rev.
Qed.

Lemma NoDup_dummyNamesOf (l : locale) (s : list (option string)) :
  NoDup s -> NoDup (dummyNamesOf l s).
Proof.
  intros H. unfold dummyNamesOf. cbv zeta.
  destruct (truthy (script l)), (truthy (region l));
    repeat apply NoDup_add_opt; exact H.
Qed.

Lemma NoDup_dummyNames (env : Env) (locs : list string) :
  NoDup (dummyNames env locs).
Proof.
  unfold dummyNames.
  assert (H : forall acc, NoDup acc ->
            NoDup (fold_left
                     (fun outputSet loc => dummyNamesOf (Locale env loc) outputSet)
                     locs acc)).
  { induction locs as [|loc locs IH]; intros acc Hacc; simpl; [exact Hacc|].
    apply IH. now apply NoDup_dummyNamesOf. }
  apply H. constructor.
Qed.

Lemma dummyPass_Ok_inv (env : Env) (options : Options)
  (files : list (option string)) (s s' : Agg) :
  dummyPass env options s = (Ok files, s') ->
  files = (dummyNames env (locales options) ++ [Some "ilibmanifest"])%list.
Proof.
  unfold dummyPass. intros H.
  apply bindM_Ok in H as (tempDir & s1 & _ & H). cbv zeta in H.
  apply bindM_Ok in H as ([] & s2 & _ & H).
  apply bindM_Ok in H as ([] & s3 & _ & H).
  apply bindM_Ok in H as ([] & s4 & _ & H).
  unfold ret in H. injection H as <- _. now rewrite toArrayOf_id.
Qed.



Lemma forEach_nothing {A} (xs : list A) (f : A -> M unit) (s : Agg) :
  (forall x, In x xs -> f x s = (Ok tt, s)) -> forEach xs f s = (Ok tt, s).
Proof.
  induction xs as [|x xs IH]; intros H; [reflexivity|].
  cbn [forEach]. unfold bindM. rewrite (H x (or_introl eq_refl)).
  apply IH. intros y Hy. apply H. now right.
Qed.

(** X15. Where the directories, the manifest and the files of all the
    partitions are there already, [getDummyLocaleDataFiles] creates and
    writes nothing: it returns the same list in a world where nothing
    can be created or written.  What an earlier build or the pass has
    put there is not overwritten. *)
Theorem X15_dummy_files_kept (env : Env) (options : Options) (outputDir : string) :
  calcOutputDir env options = Ok outputDir ->
  let outputPath := path_join env [outputDir; "locales"] in
  let files := (dummyNames env (locales options) ++ [Some "ilibmanifest"])%list in
  (forall p, In p (dirPrefixes outputPath) -> p = "" \/ existsSync env p = true) ->
  existsSync env (path_join env [outputPath; "ilibmanifest.json"]) = true ->
  (forall name, In name (dummyNames env (locales options)) ->
     existsSync env (path_join env [outputPath; toString name ++ ".js"]) = true) ->
  getDummyLocaleDataFiles (readOnly env) options None = (Ok files, Some files)
  /\ getDummyLocaleDataFiles env options None = (Ok files, Some files).
Proof.
  intros Hod outputPath files Hdirs Hmanifest Hfiles.
  assert (H : forall e, (e = env \/ e = readOnly env) ->
            dummyPass e options emptyAgg = (Ok files, emptyAgg)).
  { intros e He.
    assert (Hcalc : calcOutputDir e options = Ok outputDir)
      by (destruct He as [->| ->]; exact Hod).
    assert (Hjoin : path_join e = path_join env)
      by (destruct He as [->| ->]; reflexivity).
    assert (Hex : existsSync e = existsSync env)
      by (destruct He as [->| ->]; reflexivity).
    assert (Hnames : dummyNames e (locales options)
                     = dummyNames env (locales options))
      by (destruct He as [->| ->]; reflexivity).
    unfold dummyPass. rewrite Hcalc, bindM_lift_Ok. cbv zeta.
    rewrite Hjoin, Hex, Hnames, toArrayOf_id. fold outputPath.
    unfold bindM at 1. rewrite makeDirs_prefixes.
    rewrite forEach_skipped by (rewrite Hex; exact Hdirs).
    unfold bindM at 1. rewrite Hmanifest. cbn [negb when ret].
    unfold bindM at 1. rewrite forEach_nothing; [reflexivity|].
    intros name Hname. unfold dummyFile. rewrite Hjoin, Hex.
    now rewrite (Hfiles name Hname). }
  unfold getDummyLocaleDataFiles.
  rewrite (H env (or_introl eq_refl)), (H (readOnly env) (or_intror eq_refl)).
  now split.
Qed.

Lemma X15_dummy_files_kept_witness :
  getDummyLocaleDataFiles (readOnly prepared) (World.options ["en-US"]) None
  = (Ok [Some "root"; Some "en"; Some "en-US"; Some "und-US"; Some "ilibmanifest"],
     Some [Some "root"; Some "en"; Some "en-US"; Some "und-US";
           Some "ilibmanifest"]).
Proof.
  refine (proj1 (X15_dummy_files_kept prepared (World.options ["en-US"]) "/out"
                   _ _ _ _)).
  - reflexivity.
  - intros p H. vm_compute in H.
    destruct H as [<-|[<-|[<-|[]]]]; [left | right | right]; reflexivity.
  - reflexivity.
  - intros name H. vm_compute in H.
    destruct H as [<-|[<-|[<-|[<-|[]]]]]; reflexivity.
Defined.

(** ** Every bundle has its placeholder *)

Lemma replace_class_app (cls : ascii -> bool) (by_ : ascii) (a b : string) :
  replace_class cls by_ (a ++ b)
  = replace_class cls by_ a ++ replace_class cls by_ b.
Proof. induction a as [|c a IH]; simpl; [reflexivity | now rewrite IH]. Qed.

Lemma joined_not_dot (a b : string) : (a ++ "/" ++ b =? ".") = false.
Proof.
  apply String.eqb_neq. destruct a as [|c [|c' a]]; simpl; congruence.
Qed.

Lemma partName_plain (a : string) :
  noSlash a = true -> partName a = if a =? "." then "root" else a.
Proof.
  intros H. unfold partName. destruct (a =? "."); [reflexivity|].
  now apply replace_class_id.
Qed.

Lemma partName_join (a b : string) :
  noSlash a = true -> noSlash b = true ->
  partName (a ++ "/" ++ b) = a ++ "-" ++ b.
Proof.
  intros Ha Hb. unfold partName. rewrite joined_not_dot.
  rewrite replace_class_app. simpl.
  now rewrite (replace_class_id _ _ _ Ha), (replace_class_id _ _ _ Hb).
Qed.

Lemma partName_join3 (a b c : string) :
  noSlash a = true -> noSlash b = true -> noSlash c = true ->
  partName (a ++ "/" ++ b ++ "/" ++ c) = a ++ "-" ++ b ++ "-" ++ c.
Proof.
  intros Ha Hb Hc. unfold partName. rewrite joined_not_dot.
  rewrite replace_class_app. simpl. rewrite replace_class_app. simpl.
  now rewrite (replace_class_id _ _ _ Ha), (replace_class_id _ _ _ Hb),
    (replace_class_id _ _ _ Hc).
Qed.

Lemma dummyNamesOf_mono (l : locale) (s : list (option string))
  (x : option string) :
  In x s -> In x (dummyNamesOf l s).
Proof.
  intros H. unfold dummyNamesOf. cbv zeta.
  destruct (truthy (script l)), (truthy (region l));
    repeat (apply In_add_opt; right); exact H.
Qed.

Lemma dummyNamesOf_root (l : locale) (s : list (option string)) :
  In (Some "root") (dummyNamesOf l s).
Proof.
  unfold dummyNamesOf. cbv zeta.
  destruct (truthy (script l)), (truthy (region l));
    rewrite !In_add_opt; auto 10.
Qed.

Ltac rewrite_joined H :=
  let P := fresh in pose proof H as P; cbn [append] in P; rewrite P; clear P.

(** The partition of a directory of the chain is a name of the
    placeholders of the locale. *)
Lemma dummyNamesOf_parts (l : locale) (s : list (option string)) (d : string) :
  plainLocale l = true -> In (Some d) (parts l) ->
  In (Some (partName d)) (dummyNamesOf l s).
Proof.
  intros Hplain Hin. unfold plainLocale in Hplain.
  apply andb_prop in Hplain as [Hplain Hr]. apply andb_prop in Hplain as [Hl Hs].
  unfold parts in Hin. rewrite !in_app_iff in Hin.
  destruct Hin as [[[= <-]|[Hlang|[]]]|[Hin|Hin]].
  - apply dummyNamesOf_root.
  - rewrite Hlang in Hl. simpl in Hl. rewrite (partName_plain _ Hl).
    destruct (d =? "."); [apply dummyNamesOf_root|].
    rewrite <- Hlang. unfold dummyNamesOf. cbv zeta.
    destruct (truthy (script l)), (truthy (region l));
      rewrite !In_add_opt; auto 10.
  - unfold dummyNamesOf. cbv zeta.
    destruct (truthy (script l)); [|contradiction].
    rewrite in_app_iff in Hin. destruct Hin as [[[= <-]|[]]|Hin].
    + rewrite_joined (partName_join _ _ Hl Hs).
      destruct (truthy (region l)); rewrite !In_add_opt; auto 10.
    + destruct (truthy (region l)); [|contradiction].
      destruct Hin as [[= <-]|[]].
      rewrite_joined (partName_join3 _ _ _ Hl Hs Hr).
      rewrite !In_add_opt; auto 10.
  - unfold dummyNamesOf. cbv zeta.
    destruct (truthy (region l)); [|contradiction].
    destruct Hin as [[= <-]|[[= <-]|[]]].
    + rewrite_joined (partName_join _ _ Hl Hr).
      destruct (truthy (script l)); rewrite !In_add_opt; auto 10.
    + rewrite_joined (partName_join "und" _ eq_refl Hr).
      destruct (truthy (script l)); rewrite !In_add_opt; auto 10.
Qed.

Lemma dummyNames_fold_mono (env : Env) (locs : list string)
  (acc : list (option string)) (x : option string) :
  In x acc ->
  In x (fold_left (fun outputSet loc => dummyNamesOf (Locale env loc) outputSet)
          locs acc).
Proof.
  revert acc. induction locs as [|loc locs IH]; intros acc H; simpl; [exact H|].
  apply IH. now apply dummyNamesOf_mono.
Qed.

Lemma dummyNames_fold_In (env : Env) (locs : list string)
  (acc : list (option string)) (loc : string) (x : option string) :
  In loc locs ->
  (forall s, In x (dummyNamesOf (Locale env loc) s)) ->
  In x (fold_left (fun outputSet loc => dummyNamesOf (Locale env loc) outputSet)
          locs acc).
Proof.
  revert acc. induction locs as [|loc' locs IH]; intros acc Hin Hx;
    [contradiction|].
  simpl. destruct Hin as [->|Hin].
  - apply dummyNames_fold_mono. apply Hx.
  - now apply IH.
Qed.

Lemma keeps_covered_ensurePart (names : list (option string)) (part : string) :
  In (Some part) names -> keeps (covered names) (ensurePart part).
Proof.
  intros Hin s H. unfold ensurePart, modify. simpl.
  destruct (get part (outputSet s)); [exact H|].
  intros part' Hp. simpl in Hp. apply In_keys_set in Hp as [->|Hp];
    [exact Hin | now apply H].
Qed.

Lemma keeps_covered_putLine (names : list (option string))
  (part key line : string) :
  keeps (covered names) (putLine part key line).
Proof.
  intros s H. unfold putLine.
  destruct (get part (outputSet s)) as [bucket|] eqn:E; [|exact H].
  intros part' Hp. simpl in Hp. apply In_keys_set in Hp as [->|Hp].
  - apply H. eapply get_Some_keys. eassumption.
  - now apply H.
Qed.

Ltac covered_step :=
  first [ keeps_step | now apply keeps_covered_ensurePart
        | apply keeps_covered_putLine | keeps_leaf ].

Lemma keeps_covered_requests (env : Env) (dataRoot : string)
  (locs : list string) (names : JSSet) :
  Forall (fun loc => plainLocale (Locale env loc) = true) locs ->
  keeps (covered (dummyNames env locs)) (requests env dataRoot locs names).
Proof.
  intros Hplain. rewrite Forall_forall in Hplain.
  unfold requests. apply keeps_forEach. intros loc Hloc.
  assert (Hroot : In (Some "root") (dummyNames env locs)).
  { apply (dummyNames_fold_In env locs [] loc _ Hloc).
    intros s. apply dummyNamesOf_root. }
  apply keeps_forEach. intros filename _. unfold request.
  destruct ((filename =? "charset") || (filename =? "charmaps")).
  - unfold charsetRequest, loadLang2charset. keeps_insensitive.
  - destruct (normPattern_exec filename) as [m|].
    + unfold normRequest. keeps_insensitive.
    + destruct (filename =? "zoneinfo").
      * unfold zoneinfoRequest, regionZone, genericZone. repeat covered_step.
      * unfold genericRequest. apply keeps_forEach. intros dir Hdir.
        unfold genericPart. destruct dir as [d|]; [|keeps_insensitive].
        assert (Hd : In (Some (partName d)) (dummyNames env locs)).
        { apply (dummyNames_fold_In env locs [] loc _ Hloc).
          intros s. apply dummyNamesOf_parts; [now apply Hplain | exact Hdir]. }
        repeat covered_step.
Qed.

(** X16. When no component of a locale holds a slash, every partition
    for which a pass makes a bucket, and so writes a bundle, is one of
    the names for which [getDummyLocaleDataFiles] makes a placeholder
    for the same locales. *)
Theorem X16_bundles_have_placeholders (env : Env) (options : Options)
  (names : JSSet) (part : string) :
  Forall (fun loc => plainLocale (Locale env loc) = true) (locales options) ->
  In part (keys (outputSet (snd (pass env options names emptyAgg)))) ->
  In (Some part) (dummyNames env (locales options)).
Proof.
  intros Hplain.
  assert (K : covered (dummyNames env (locales options))
                (snd (pass env options names emptyAgg))).
  { destruct (locales options) as [|loc locs] eqn:L.
    - unfold pass, bindM at 1 2, lift at 1 2.
      destruct (calcOutputDir env options) as [outputDir|e]; [|intros p []].
      destruct (calcDataRoot env options) as [dataRoot|e]; [|intros p []].
      rewrite L. cbv zeta.
      pose proof (keeps_emitFiles_any (fun s => outputSet s = []) env outputDir
                    emptyAgg eq_refl) as E.
      intros p Hp. cbn [snd] in E.
      change (In p (keys (outputSet (snd (emitFiles env outputDir emptyAgg)))))
        in Hp.
      rewrite E in Hp. contradiction.
    - rewrite <- L in *.
      assert (Hroot : In (Some "root") (dummyNames env (locales options))).
      { apply (dummyNames_fold_In env (locales options) [] loc);
          [rewrite L; now left | intros s; apply dummyNamesOf_root]. }
      assert (Kp : keeps (covered (dummyNames env (locales options)))
                     (pass env options names)).
      { unfold pass. apply keeps_bind; [apply keeps_lift|]. intros outputDir.
        apply keeps_bind; [apply keeps_lift|]. intros dataRoot. cbv zeta.
        apply keeps_bind; [now apply keeps_covered_requests|]. intros _.
        apply keeps_bind.
        { unfold charsetPhase, charsetAliases, charsetFile, charmapFile.
          repeat covered_step. }
        intros _. apply keeps_bind.
        { unfold normPhase, normForm, addForm. repeat covered_step. }
        intros _. apply keeps_emitFiles_any. }
      apply Kp. intros p []. }
  exact (K part).
Qed.

Lemma X16_bundles_witness :
  In (Some "en-US") (dummyNames World.env ["en-US"]).
Proof.
  apply (X16_bundles_have_placeholders World.env (World.options ["en-US"])
           ["localeinfo"] "en-US").
  - repeat constructor.
  - vm_compute. tauto.
Defined.

(** ** Where the charsets come from *)

Lemma keeps_charsetsFrom_charsetRequest (env : Env) (dataRoot : string)
  (locs : list string) (loc filename : string) :
  In loc locs ->
  keeps (charsetsFrom env dataRoot locs) (charsetRequest env dataRoot loc filename).
Proof.
  intros Hloc.
  assert (Htail : forall table,
            require env (relativeModule (path_join env [dataRoot; "lang2charset.json"]))
            = Ok table ->
            keeps (charsetsFrom env dataRoot locs)
              (match get (specOf (Locale env loc)) table with
               | Some names =>
                   modify (fun s => with_charsets (addAll names (charsets s)) s) ;;;
                   when (filename =? "charmaps")
                     (modify (fun s =>
                        let current :=
                          match get (specOf (Locale env loc)) (charmaps s) with
                          | Some cs => cs
                          | None => []
                          end in
                        with_charmaps
                          (set (specOf (Locale env loc)) (addAll names current)
                             (charmaps s)) s))
               | None => ret tt
               end)).
  { intros table Hreq.
    destruct (get (specOf (Locale env loc)) table) as [names|] eqn:Hg;
      [|apply keeps_ret].
    apply keeps_bind; [|intros _; keeps_insensitive].
    apply keeps_modify. intros s [Hc Hf]. split; [exact Hc|].
    intros charset Hin. simpl in Hin. apply In_addAll in Hin as [Hin|Hin].
    - exists loc, table, names. now repeat split.
    - now apply Hf. }
  unfold charsetRequest, loadLang2charset. intros s HI.
  unfold bindM at 1. unfold bindM at 1. unfold gets.
  destruct (lang2charset s) as [table|] eqn:E.
  - unfold ret at 1. exact (Htail table (proj1 HI table E) s HI).
  - unfold bindM at 1. unfold lift.
    destruct (require env
                (relativeModule (path_join env [dataRoot; "lang2charset.json"])))
      as [table|e] eqn:Hreq; [|exact HI].
    unfold bindM at 1. unfold modify at 1. unfold ret at 1.
    refine (Htail table _ _ _); [first [exact Hreq | reflexivity]|].
    split; [|exact (proj2 HI)].
    intros table' [= <-]. exact Hreq.
Qed.

Lemma keeps_charsetsFrom_requests (env : Env) (dataRoot : string)
  (locs : list string) (names : JSSet) :
  keeps (charsetsFrom env dataRoot locs) (requests env dataRoot locs names).
Proof.
  unfold requests. apply keeps_forEach. intros loc Hloc.
  apply keeps_forEach. intros filename _. unfold request.
  destruct ((filename =? "charset") || (filename =? "charmaps")).
  - now apply keeps_charsetsFrom_charsetRequest.
  - destruct (normPattern_exec filename) as [m|].
    + unfold normRequest. keeps_insensitive.
    + destruct (filename =? "zoneinfo").
      * unfold zoneinfoRequest, regionZone, genericZone. keeps_insensitive.
      * unfold genericRequest, genericPart. keeps_insensitive.
Qed.

Lemma keeps_no_charsets_requests (env : Env) (dataRoot : string)
  (locs : list string) (names : JSSet) :
  ~ In "charset" names -> ~ In "charmaps" names ->
  keeps (fun s => charsets s = [] /\ lang2charset s = None)
    (requests env dataRoot locs names).
Proof.
  intros H1 H2. unfold requests. apply keeps_forEach. intros loc _.
  apply keeps_forEach. intros filename Hin. unfold request.
  destruct (String.eqb_spec filename "charset") as [->|_]; [contradiction|].
  destruct (String.eqb_spec filename "charmaps") as [->|_]; [contradiction|].
  cbn [orb].
  destruct (normPattern_exec filename) as [m|].
  - unfold normRequest. keeps_insensitive.
  - destruct (filename =? "zoneinfo").
    + unfold zoneinfoRequest, regionZone, genericZone. keeps_insensitive.
    + unfold genericRequest, genericPart. keeps_insensitive.
Qed.

Lemma keeps_later_phases (P : Agg -> Prop) (env : Env)
  (dataRoot outputDir : string) (scripts : JSSet) (first : M unit) :
  keeps P first ->
  keeps P (charsetPhase env dataRoot) ->
  keeps P (normPhase env dataRoot scripts) ->
  keeps P (first ;;; charsetPhase env dataRoot ;;;
           normPhase env dataRoot scripts ;;; emitFiles env outputDir).
Proof.
  intros H1 H2 H3. apply keeps_bind; [exact H1|]. intros _.
  apply keeps_bind; [exact H2|]. intros _.
  apply keeps_bind; [exact H3|]. intros _. apply keeps_emitFiles_any.
Qed.

(** X17. Every charset that a pass loads is listed in lang2charset.json,
    as [require] returned it, under the language and script of one of
    the locales.  When neither charset nor charmaps is requested, the
    pass loads no charset and does not require lang2charset.json. *)
Theorem X17_charsets_of_the_locales (env : Env) (options : Options)
  (names : JSSet) (dataRoot : string) :
  calcDataRoot env options = Ok dataRoot ->
  let final := snd (pass env options names emptyAgg) in
  (forall charset, In charset (charsets final) ->
     exists loc table found,
       In loc (locales options)
       /\ require env (relativeModule (path_join env [dataRoot; "lang2charset.json"]))
          = Ok table
       /\ get (specOf (Locale env loc)) table = Some found
       /\ In charset found)
  /\ (~ In "charset" names -> ~ In "charmaps" names ->
      charsets final = [] /\ lang2charset final = None).
Proof.
  intros Hdr final. subst final.
  unfold pass, bindM at 1 2, lift at 1 2. rewrite Hdr.
  destruct (calcOutputDir env options) as [outputDir|e];
    [|split; [intros c [] | now split]].
  cbv zeta. split.
  - assert (K : charsetsFrom env dataRoot (locales options)
                  (snd ((requests env dataRoot (locales options) names ;;;
                         charsetPhase env dataRoot ;;;
                         normPhase env dataRoot
                           (likelyScripts env (locales options)) ;;;
                         emitFiles env outputDir) emptyAgg))).
    { apply keeps_later_phases.
      - apply keeps_charsetsFrom_requests.
      - unfold charsetPhase, charsetAliases, charsetFile, charmapFile.
        keeps_insensitive.
      - unfold normPhase, normForm, addForm. keeps_insensitive.
      - split; [discriminate | intros c []]. }
    exact (proj2 K).
  - intros H1 H2.
    apply (keeps_later_phases (fun s => charsets s = [] /\ lang2charset s = None)).
    + now apply keeps_no_charsets_requests.
    + unfold charsetPhase, charsetAliases, charsetFile, charmapFile.
      keeps_insensitive.
    + unfold normPhase, normForm, addForm. keeps_insensitive.
    + now split.
Qed.

Lemma X17_charsets_witness :
  let final := snd (pass World.env (World.options ["zh-Hans-CN"; "en-US"])
                      ["localeinfo"] emptyAgg) in
  charsets final = [] /\ lang2charset final = None.
Proof.
  refine (proj2 (X17_charsets_of_the_locales World.env
                   (World.options ["zh-Hans-CN"; "en-US"]) ["localeinfo"]
                   "/ilib/locale" _) _ _).
  - reflexivity.
  - intros [H|[]]; discriminate.
  - intros [H|[]]; discriminate.
Defined.

(** ** No locales *)

(** X18. With an empty list of locales nothing is asked of the data
    root, whatever names are registered, zoneinfo and charsets included:
    where the output directory can be written, the pass returns the two
    manifests, both empty, and no bundle, and
    [getDummyLocaleDataFiles] returns ilibmanifest alone. *)
Theorem X18_no_locales (env : Env) (options : Options) (names : JSSet)
  (outputDir dataRoot : string) :
  locales options = [] ->
  calcOutputDir env options = Ok outputDir ->
  calcDataRoot env options = Ok dataRoot ->
  (forall p, mkdirSync env p = Ok tt) ->
  (forall p text, writeFileSync env p text = Ok tt) ->
  let outputPath := path_join env [outputDir; "locales"] in
  pass env options names emptyAgg
  = (Ok (set (path_join env [outputPath; "remotemanifest.js"]) (manifestText env [])
           (set (path_join env [outputPath; "localmanifest.js"])
              (manifestText env []) [])),
     emptyAgg)
  /\ getDummyLocaleDataFiles env options None
     = (Ok [Some "ilibmanifest"], Some [Some "ilibmanifest"]).
Proof.
  intros Hlocs Hod Hdr Hmk Hwr outputPath. split.
  - unfold pass, bindM at 1 2, lift at 1 2. rewrite Hod, Hdr, Hlocs. cbv zeta.
    cbn [requests forEach]. unfold bindM at 1. cbn [ret].
    unfold bindM at 1.
    change (charsetPhase env dataRoot emptyAgg) with (Ok tt, emptyAgg).
    unfold bindM at 1.
    change (normPhase env dataRoot (likelyScripts env []) emptyAgg)
      with (Ok tt, emptyAgg).
    unfold emitFiles, bindM, gets, lift.
    rewrite !(makeDirs_Ok env _ _ Hmk), !Hwr. reflexivity.
  - unfold getDummyLocaleDataFiles, dummyPass, bindM, lift.
    rewrite Hod, Hlocs. cbv zeta.
    rewrite (makeDirs_Ok env _ _ Hmk).
    destruct (existsSync env _); cbn [negb when ret]; [reflexivity|].
    now rewrite Hwr.
Qed.

Lemma X18_no_locales_witness :
  pass World.env (World.options []) ["localeinfo"; "zoneinfo"; "charset"] emptyAgg
  = (Ok [("/out/locales/localmanifest.js", manifestText World.env []);
         ("/out/locales/remotemanifest.js", manifestText World.env [])],
     emptyAgg).
Proof.
  refine (proj1 (X18_no_locales World.env (World.options [])
                   ["localeinfo"; "zoneinfo"; "charset"] "/out" "/ilib/locale"
                   _ _ _ _ _)); reflexivity.
Defined.

(** ** Data that is not of a locale *)

(** X19. Charsets, charmaps, time zones and normalization forms make no
    partition of their own: when no requested name is a generic one, the
    only bucket that a pass can make, whatever the locales, is root. *)
Theorem X19_root_only_without_generic_names (env : Env) (options : Options)
  (names : JSSet) (part : string) :
  Forall (fun f => isGenericName f = false) names ->
  In part (keys (outputSet (snd (pass env options names emptyAgg)))) ->
  part = "root".
Proof.
  intros Hnames Hin. rewrite Forall_forall in Hnames.
  assert (Hroot : In (Some "root") [Some "root"]) by now left.
  assert (K : keeps (covered [Some "root"]) (pass env options names)).
  { unfold pass. apply keeps_bind; [apply keeps_lift|]. intros outputDir.
    apply keeps_bind; [apply keeps_lift|]. intros dataRoot. cbv zeta.
    apply keeps_later_phases.
    - unfold requests. apply keeps_forEach. intros loc _.
      apply keeps_forEach. intros filename Hf. unfold request.
      specialize (Hnames filename Hf). unfold isGenericName in Hnames.
      destruct ((filename =? "charset") || (filename =? "charmaps")).
      + unfold charsetRequest, loadLang2charset. keeps_insensitive.
      + destruct (normPattern_exec filename) as [m|].
        * unfold normRequest. keeps_insensitive.
        * destruct (filename =? "zoneinfo"); [|discriminate].
          unfold zoneinfoRequest, regionZone, genericZone. repeat covered_step.
    - unfold charsetPhase, charsetAliases, charsetFile, charmapFile.
      repeat covered_step.
    - unfold normPhase, normForm, addForm. repeat covered_step. }
  destruct (K emptyAgg (fun p (H : In p []) => match H with end) part Hin)
    as [[= <-]|[]].
  reflexivity.
Qed.

Lemma X19_root_only_witness :
  hd "" (keys (outputSet (snd (pass World.env
                                 (World.options ["zh-Hans-CN"; "en-US"])
                                 ["zoneinfo"; "charmaps"; "nfc/all"] emptyAgg))))
  = "root".
Proof.
  apply (X19_root_only_without_generic_names World.env
           (World.options ["zh-Hans-CN"; "en-US"])
           ["zoneinfo"; "charmaps"; "nfc/all"]).
  - repeat constructor.
  - vm_compute. now left.
Defined.

(** ** The older version *)

Lemma emitBundles_fold (env : Env) (outputPath : string)
  (buckets : Obj (Obj string)) (sources0 sources : Obj string) (s s' : Agg) :
  forEachWith buckets (emitBundle env outputPath) sources0 s = (Ok sources, s') ->
  sources = fold_left (fileBundle env outputPath) buckets sources0.
Proof.
  revert sources0 s. induction buckets as [|entry buckets IH];
    intros sources0 s H; simpl in H.
  - unfold ret in H. now injection H as <- _.
  - apply bindM_Ok in H as (sources1 & s1 & H1 & H).
    apply emitBundle_inv in H1 as [_ ->]. now apply IH in H.
Qed.

Lemma emitFiles_old (env : Env) (outputDir : string) (sources : Obj string)
  (s s' : Agg) :
  emitFiles env outputDir s = (Ok sources, s') ->
  emitFilesOld env outputDir s = (Ok sources, s').
Proof.
  unfold emitFiles, emitFilesOld. cbv zeta. intros H.
  apply bindM_Ok in H as (files & t0 & H0 & H).
  unfold gets in H0. injection H0 as <- <-.
  apply bindM_Ok in H as ([] & t1 & H1 & H).
  pose proof (makeDirs_Ok_inv _ _ _ _ _ H1) as E1. subst t1.
  apply bindM_Ok in H as ([] & t2 & H1' & H).
  pose proof (makeDirs_Ok_inv _ _ _ _ _ H1') as E2. subst t2.
  apply bindM_Ok in H as ([] & t3 & H2 & H). apply lift_Ok in H2 as [H2 ->].
  apply bindM_Ok in H as (buckets & t4 & H3 & H).
  unfold gets in H3. injection H3 as <- <-.
  apply bindM_Ok in H as ([] & t5 & H4 & H). apply lift_Ok in H4 as [H4 ->].
  pose proof (proj1 (emitBundles_inv _ _ _ _ _ _ _ H)) as E3. subst s'.
  apply emitBundles_fold in H as ->.
  unfold bindM, gets, lift.
  repeat (first [rewrite H1 | rewrite H2 | rewrite H4]; cbv beta iota).
  reflexivity.
Qed.

(** X20. The older version of the module files the same sources as the
    newer one: where a pass of the newer version returns, the older
    [emitLocaleData], given the same names and the same output directory
    by its compilation, returns the same sources and leaves the same
    buckets, manifest and log.  For a compilation without a set of names
    it returns an empty list and reads nothing. *)
Theorem X20_older_version_same_sources (env : Env) (options : Options)
  (names : JSSet) (outputDir : string) (sources : Obj string) (final : Agg) :
  calcOutputDir env options = Ok outputDir ->
  pass env options names emptyAgg = (Ok sources, final) ->
  emitLocaleDataOld env (mkCompilation (Some names) outputDir) options emptyAgg
  = (Ok sources, final)
  /\ emitLocaleDataOld env (mkCompilation None outputDir) options emptyAgg
     = (Ok [], emptyAgg).
Proof.
  intros Hod Hpass. split; [|reflexivity].
  apply pass_Ok in Hpass
    as (outputDir' & dataRoot & s1 & s2 & s3 & Hod' & Hdr & H1 & H2 & H3 & H4).
  rewrite Hod in Hod'. injection Hod' as <-.
  apply emitFiles_old in H4.
  unfold emitLocaleDataOld. cbn [localeDataSet output_path].
  rewrite Hdr, bindM_lift_Ok. cbv zeta.
  unfold bindM at 1. rewrite H1.
  unfold bindM at 1. rewrite H2.
  unfold bindM at 1. rewrite H3.
  exact H4.
Qed.

Lemma X20_older_version_witness :
  emitLocaleDataOld World.env (mkCompilation (Some ["localeinfo"]) "/out")
    (World.options ["en-US"]) emptyAgg
  = (Ok (sourcesOf (fst firstEmit)),
     snd (pass World.env (World.options ["en-US"]) ["localeinfo"] emptyAgg)).
Proof.
  refine (proj1 (X20_older_version_same_sources World.env (World.options ["en-US"])
                   ["localeinfo"] "/out" _ _ _ _)).
  - reflexivity.
  - vm_compute. reflexivity.
Defined.

(** ** Normalization forms alone: what is tried and what is logged *)

Lemma with_console_same (s : Agg) : with_console (console s ++ [])%list s = s.
Proof. destruct s. unfold with_console. simpl. now rewrite app_nil_r. Qed.

Lemma addForm_logs (env : Env) (dataRoot form script : string) (s : Agg) :
  get "root" (outputSet s) = None ->
  addForm env dataRoot form script s
  = (Ok tt, with_console (console s ++ addFormLog env dataRoot form script)%list s).
Proof.
  intros Hroot. unfold addForm, addFormLog.
  destruct (truthy (Some script)); cbn [when andb];
    [|now rewrite with_console_same].
  unfold tryCatch.
  destruct (existsSync env (path_join env [dataRoot; form; script ++ ".json"]));
    cbn [when]; [|now rewrite with_console_same].
  unfold bindM, lift.
  destruct (readFileSync env (path_join env [dataRoot; form; script ++ ".json"]))
    as [data|e]; [|reflexivity].
  unfold putLine. now rewrite Hroot.
Qed.

(** A loop whose steps only log, where root has no bucket. *)
Lemma forEach_logs {A} (xs : list A) (f : A -> M unit) (log : A -> list exn)
  (s : Agg) :
  (forall x t, get "root" (outputSet t) = None ->
     f x t = (Ok tt, with_console (console t ++ log x)%list t)) ->
  get "root" (outputSet s) = None ->
  forEach xs f s = (Ok tt, with_console (console s ++ flat_map log xs)%list s).
Proof.
  intros Hstep. revert s. induction xs as [|x xs IH]; intros s Hroot.
  - simpl. unfold ret. now rewrite with_console_same.
  - cbn [forEach flat_map]. unfold bindM. rewrite (Hstep x s Hroot).
    rewrite IH by exact Hroot. unfold with_console. simpl.
    now rewrite app_assoc.
Qed.

Lemma normForm_logs (env : Env) (dataRoot : string) (scripts : JSSet)
  (forms : Obj JSSet) (entry : string * JSSet) (s : Agg) :
  get "root" (outputSet s) = None ->
  normForm env dataRoot scripts forms entry s
  = (Ok tt,
     with_console
       (console s
        ++ flat_map (addFormLog env dataRoot (fst entry)) (scriptsTried entry))%list
       s).
Proof.
  intros Hroot. unfold normForm, scriptsTried.
  destruct (set_has "all" (snd entry)).
  - rewrite (addForm_logs env dataRoot _ _ s Hroot). simpl flat_map.
    now rewrite app_nil_r.
  - assert (E : sizeIs forms 0 || set_has "" (snd entry) && sizeIs forms 1 = false).
    { unfold sizeIs. destruct (get "size" forms); now rewrite andb_false_r. }
    rewrite E. apply forEach_logs; [|exact Hroot].
    intros script t Ht. now apply addForm_logs.
Qed.

Lemma normPhase_logs (env : Env) (dataRoot : string) (scripts : JSSet) (s : Agg) :
  get "root" (outputSet s) = None ->
  normPhase env dataRoot scripts s
  = (Ok tt,
     with_console
       (console s
        ++ flat_map
             (fun entry =>
                flat_map (addFormLog env dataRoot (fst entry)) (scriptsTried entry))
             (normalizations s))%list
       s).
Proof.
  intros Hroot. unfold normPhase, bindM, gets.
  apply forEach_logs; [|exact Hroot].
  intros entry t Ht. now apply normForm_logs.
Qed.

(** Where the loop over the names returns, every name that reads as a
    form has left its script in the set of the form. *)
Lemma requests_hold (env : Env) (dataRoot : string) (locs : list string)
  (names : JSSet) (filename : string) (m : string * option string) (s : Agg) :
  In filename names -> normPattern_exec filename = Some m ->
  fst (requests env dataRoot locs names s) = Ok tt ->
  locs = []
  \/ holdsScript (fst m) (orElse (snd m) "")
       (snd (requests env dataRoot locs names s)).
Proof.
  intros Hin Hm Hr. destruct locs as [|loc locs]; [now left | right].
  revert Hr. unfold requests.
  apply (forEach_reaches (loc :: locs)
           (fun loc0 => forEach names (request env dataRoot (loc :: locs) loc0))
           (holdsScript (fst m) (orElse (snd m) "")) loc); [now left | |].
  - apply (forEach_reaches names _ _ filename Hin).
    + intros s1 _. rewrite (request_norm env dataRoot (loc :: locs) loc _ _ Hm).
      unfold normRequest, modify, holdsScript. simpl.
      rewrite get_set_same. eexists. split; [reflexivity|].
      apply In_set_add. now left.
    + intros y. apply keeps_holdsScript_request.
  - intros loc0. apply keeps_forEach. intros y _.
    apply keeps_holdsScript_request.
Qed.

Lemma requests_norm_quiet (env : Env) (dataRoot : string) (locs : list string)
  (names : JSSet) :
  Forall (fun f => isNormName f = true) names ->
  keeps (fun s => console s = []) (requests env dataRoot locs names).
Proof.
  intros Hall. rewrite Forall_forall in Hall.
  unfold requests. apply keeps_forEach. intros loc _.
  apply keeps_forEach. intros filename Hin. unfold request.
  specialize (Hall filename Hin). unfold isNormName in Hall.
  destruct ((filename =? "charset") || (filename =? "charmaps"));
    [discriminate|].
  destruct (normPattern_exec filename) as [m|]; [|discriminate].
  unfold normRequest. keeps_insensitive.
Qed.

(** C9. When every requested name is a normalization form, no bucket is
    made for root, and the pass goes through the forms all the same: for
    every form that was requested, and every script of it (or all alone,
    when all is among them), [addForm] looks for the file; where the
    file is there and is read, the assignment fails on the missing
    bucket, and [addForm] catches the error and logs it.  The log of the
    pass is these errors one after the other, the error of the read in
    place of the error of the assignment where the file is not read.
    The pass returns the two manifests, both empty, with no bucket and
    no manifest entry. *)
Theorem C9_normalization_only (env : Env) (options : Options) (names : JSSet)
  (outputDir dataRoot : string) :
  Forall (fun f => isNormName f = true) names ->
  calcOutputDir env options = Ok outputDir ->
  calcDataRoot env options = Ok dataRoot ->
  (forall p, mkdirSync env p = Ok tt) ->
  (forall p text, writeFileSync env p text = Ok tt) ->
  let outputPath := path_join env [outputDir; "locales"] in
  let final := snd (pass env options names emptyAgg) in
  let logged := fun form script =>
    if truthy (Some script)
       && existsSync env (path_join env [dataRoot; form; script ++ ".json"])
    then
      match readFileSync env (path_join env [dataRoot; form; script ++ ".json"]) with
      | Ok _ => [TypeError "Cannot set property of undefined: root"]
      | Throw e => [e]
      end
    else [] in
  fst (pass env options names emptyAgg)
  = Ok (set (path_join env [outputPath; "remotemanifest.js"]) (manifestText env [])
          (set (path_join env [outputPath; "localmanifest.js"]) (manifestText env [])
             []))
  /\ outputSet final = [] /\ manifest final = []
  /\ console final
     = flat_map
         (fun entry =>
            flat_map (logged (fst entry))
              (if set_has "all" (snd entry) then ["all"] else snd entry))
         (normalizations final)
  /\ (locales options <> [] ->
      forall filename form script,
        In filename names -> normPattern_exec filename = Some (form, script) ->
        exists scripts,
          get form (normalizations final) = Some scripts
          /\ In (orElse script "") scripts).
Proof.
  intros Hnames Hod Hdr Hmk Hwr outputPath final logged.
  assert (H0 : nothingEmitted env emptyAgg) by (repeat split; constructor).
  destruct (@runs_requests_norm env dataRoot (locales options) names Hnames _ H0)
    as [Hr1 (Ho1 & Hm1 & Hc1 & _)].
  pose proof (requests_norm_quiet env dataRoot (locales options) names Hnames
                emptyAgg eq_refl) as Hq1.
  assert (Hhold : locales options <> [] ->
            forall filename form script,
              In filename names -> normPattern_exec filename = Some (form, script) ->
              holdsScript form (orElse script "")
                (snd (requests env dataRoot (locales options) names emptyAgg))).
  { intros Hlocs filename form script Hin Hm.
    destruct (requests_hold env dataRoot (locales options) names filename
                (form, script) emptyAgg Hin Hm Hr1) as [E|H];
      [contradiction | exact H]. }
  destruct (requests env dataRoot (locales options) names emptyAgg)
    as [[[]|e1] s1] eqn:E1; cbn [fst snd] in *; [|discriminate].
  assert (E2 : charsetPhase env dataRoot s1 = (Ok tt, s1)).
  { unfold charsetPhase, bindM, gets. now rewrite Hc1. }
  assert (Hroot : get "root" (outputSet s1) = None) by (now rewrite Ho1).
  pose proof (normPhase_logs env dataRoot (likelyScripts env (locales options))
                s1 Hroot) as E3.
  rewrite Hq1 in E3. cbn [app] in E3.
  set (s3 := with_console
               (flat_map
                  (fun entry =>
                     flat_map (addFormLog env dataRoot (fst entry))
                       (scriptsTried entry))
                  (normalizations s1)) s1) in *.
  assert (Hpass : pass env options names emptyAgg
                  = (Ok (set (path_join env [outputPath; "remotemanifest.js"])
                           (manifestText env [])
                           (set (path_join env [outputPath; "localmanifest.js"])
                              (manifestText env []) [])),
                     s3)).
  { unfold pass, bindM at 1 2, lift at 1 2. rewrite Hod, Hdr. cbv zeta.
    unfold bindM at 1. rewrite E1. unfold bindM at 1. rewrite E2.
    unfold bindM at 1. rewrite E3.
    unfold emitFiles, bindM, gets, lift.
    rewrite !(makeDirs_Ok env _ _ Hmk).
    change (manifest s3) with (manifest s1).
    change (outputSet s3) with (outputSet s1).
    rewrite Hm1, Ho1, !Hwr. reflexivity. }
  subst final. rewrite Hpass. cbn [fst snd].
  split; [reflexivity|]. split; [exact Ho1|]. split; [exact Hm1|].
  split; [reflexivity|]. exact Hhold.
Qed.

Lemma C9_normalization_only_witness :
  let final := snd (pass World.env (World.options ["en-US"])
                      ["nfc/Latn"; "nfkd"; "nfd/all"; "nfd/Grek"] emptyAgg) in
  outputSet final = [] /\ manifest final = []
  /\ console final = [TypeError "Cannot set property of undefined: root"].
Proof.
  assert (H : Forall (fun f => isNormName f = true)
                ["nfc/Latn"; "nfkd"; "nfd/all"; "nfd/Grek"])
    by (repeat constructor).
  destruct (C9_normalization_only World.env (World.options ["en-US"])
              ["nfc/Latn"; "nfkd"; "nfd/all"; "nfd/Grek"] "/out" "/ilib/locale"
              H eq_refl eq_refl (fun _ => eq_refl) (fun _ _ => eq_refl))
    as (_ & Hout & Hman & Hlog & _).
  cbv zeta. split; [exact Hout|]. split; [exact Hman|].
  rewrite Hlog. vm_compute. reflexivity.
Defined.

(** ** The bundles in the sources *)

Lemma emitBundles_other (env : Env) (outputPath : string)
  (buckets : Obj (Obj string)) (sources0 sources : Obj string) (s s' : Agg)
  (file : string) :
  forEachWith buckets (emitBundle env outputPath) sources0 s = (Ok sources, s') ->
  (forall q, In q (keys buckets) -> path_join env [outputPath; q ++ ".js"] <> file) ->
  get file sources = get file sources0.
Proof.
  revert sources0 s. induction buckets as [|entry buckets IH];
    intros sources0 s H Hother; simpl in H.
  - unfold ret in H. now injection H as <- _.
  - apply bindM_Ok in H as (sources1 & s1 & H1 & H).
    apply emitBundle_inv in H1 as [-> ->].
    rewrite (IH _ _ H) by (intros q Hq; apply Hother; now right).
    apply get_set_other. intros E. apply (Hother (fst entry)); [now left|].
    now symmetry.
Qed.

Lemma emitBundles_get (env : Env) (outputPath : string)
  (buckets : Obj (Obj string)) (sources0 sources : Obj string) (s s' : Agg)
  (part : string) (bucket : Obj string) :
  forEachWith buckets (emitBundle env outputPath) sources0 s = (Ok sources, s') ->
  NoDup (keys buckets) -> In (part, bucket) buckets ->
  (forall q, In q (keys buckets) ->
     path_join env [outputPath; q ++ ".js"] = path_join env [outputPath; part ++ ".js"] ->
     q = part) ->
  get (path_join env [outputPath; part ++ ".js"]) sources = Some (bundleText bucket).
Proof.
  revert sources0 s. induction buckets as [|entry buckets IH];
    intros sources0 s H Hdup Hin Hinj; [contradiction|].
  simpl in H. apply bindM_Ok in H as (sources1 & s1 & H1 & H).
  apply emitBundle_inv in H1 as [-> ->].
  inversion Hdup as [|? ? Hnew Hdup']; subst.
  destruct Hin as [->|Hin].
  - rewrite (emitBundles_other _ _ _ _ _ _ _ _ H).
    + cbn [fst snd]. apply get_set_same.
    + intros q Hq E. apply Hinj in E; [|now right]. subst q. contradiction.
  - apply (IH _ _ H Hdup' Hin). intros q Hq. apply Hinj. now right.
Qed.

Lemma wellKeyed_pass (env : Env) (options : Options) (names : JSSet) :
  wellKeyed (outputSet (snd (pass env options names emptyAgg))).
Proof.
  apply (keeps_pass env wellKeyed wellKeyed_create wellKeyed_put options names).
  split; constructor.
Qed.

(** The bundle of a partition is filed in the sources under its path,
    unless another partition is written to the same path. *)
Lemma pass_bundle (env : Env) (options : Options) (names : JSSet)
  (outputDir : string) (sources : Obj string) (final : Agg)
  (part : string) (bucket : Obj string) :
  calcOutputDir env options = Ok outputDir ->
  pass env options names emptyAgg = (Ok sources, final) ->
  get part (outputSet final) = Some bucket ->
  let file := fun q => path_join env [path_join env [outputDir; "locales"]; q ++ ".js"] in
  (forall q, In q (keys (outputSet final)) -> file q = file part -> q = part) ->
  get (file part) sources = Some (bundleText bucket).
Proof.
  intros Hod Hpass Hget file Hinj.
  pose proof (wellKeyed_pass env options names) as [Hdup _].
  rewrite Hpass in Hdup. cbn [snd] in Hdup.
  apply pass_Ok in Hpass
    as (outputDir' & dataRoot & s1 & s2 & s3 & Hod' & _ & _ & _ & _ & H).
  rewrite Hod in Hod'. injection Hod' as <-.
  pose proof (proj1 (emitFiles_inv _ _ _ _ _ H)) as ->.
  unfold emitFiles in H. cbv zeta in H.
  apply bindM_Ok in H as (files & t0 & H0 & H).
  unfold gets in H0. injection H0 as <- <-.
  apply bindM_Ok in H as ([] & t1 & H1 & H). apply makeDirs_Ok_inv in H1 as ->.
  apply bindM_Ok in H as ([] & t2 & H2 & H). apply makeDirs_Ok_inv in H2 as ->.
  apply bindM_Ok in H as ([] & t3 & H3 & H). apply lift_Ok in H3 as [_ ->].
  apply bindM_Ok in H as (buckets & t4 & H4 & H).
  unfold gets in H4. injection H4 as <- <-.
  apply bindM_Ok in H as ([] & t5 & H5 & H). apply lift_Ok in H5 as [_ ->].
  apply (emitBundles_get _ _ _ _ _ _ _ _ _ H Hdup); [now apply get_In | exact Hinj].
Qed.

(** ** One line for a name in the bundle of a partition *)

Lemma keeps_bind_lift (P : Agg -> Prop) {A B} (r : result A) (k : A -> M B) :
  (forall a, r = Ok a -> keeps P (k a)) -> keeps P (bindM (lift r) k).
Proof.
  intros Hk s H. unfold bindM, lift. destruct r as [a|e]; [|exact H].
  now apply Hk.
Qed.

Section GenericBuckets.
Variable env : Env.
Variable dataRoot : string.
Variable names : JSSet.
Variable part : string.

Local Abbreviation inv := (genericBucket env dataRoot names part).

Lemma keeps_genericBucket_ensurePart (part' : string) :
  keeps inv (ensurePart part').
Proof.
  intros s H. unfold ensurePart, modify. simpl.
  destruct (get part' (outputSet s)) eqn:E; [exact H|].
  intros bucket. simpl. destruct (string_dec part part') as [->|Hne].
  - rewrite get_set_same. intros [= <-]. split; constructor.
  - rewrite get_set_other by assumption. apply H.
Qed.

Lemma keeps_genericBucket_other (part' key line : string) :
  part' <> part -> keeps inv (putLine part' key line).
Proof.
  intros Hne s H. unfold putLine.
  destruct (get part' (outputSet s)) as [bucket'|]; [|exact H].
  intros bucket. simpl. rewrite get_set_other by congruence. apply H.
Qed.

Lemma keeps_genericBucket_putLine (part' key line : string) :
  (part' = part -> genericEntry env dataRoot names part (key, line)) ->
  keeps inv (putLine part' key line).
Proof.
  intros Hentry. destruct (string_dec part' part) as [->|Hne];
    [|now apply keeps_genericBucket_other].
  specialize (Hentry eq_refl).
  intros s H. unfold putLine.
  destruct (get part (outputSet s)) as [bucket'|] eqn:E; [|exact H].
  intros bucket. simpl. rewrite get_set_same. intros [= <-].
  destruct (H bucket' E) as [Hdup Hall]. split; [now apply NoDup_keys_set|].
  apply Forall_forall. intros e He. apply In_set_inv in He as [->|He];
    [exact Hentry|].
  rewrite Forall_forall in Hall. now apply Hall.
Qed.

Lemma keeps_genericBucket_genericPart (filename : string) (dir : option string) :
  In filename names -> isGenericName filename = true ->
  keeps inv (genericPart env dataRoot filename dir).
Proof.
  intros Hin Hgeneric. unfold genericPart.
  apply keeps_tryCatch; [|intros e; keeps_leaf].
  destruct dir as [d|]; [|apply keeps_raise]. cbv zeta.
  apply keeps_bind; [apply keeps_genericBucket_ensurePart|]. intros _.
  destruct (existsSync env (path_join env [dataRoot; d; filename ++ ".json"])).
  - apply keeps_bind; [keeps_leaf|]. intros present. apply keeps_when.
    apply keeps_bind_lift. intros data Hread.
    apply keeps_bind; [|intros _; keeps_leaf].
    apply keeps_genericBucket_putLine. intros Hpart.
    repeat split; [exact Hin | exact Hgeneric |]. right. exists d, data.
    cbn [fst snd]. rewrite <- Hpart. now repeat split.
  - apply keeps_bind; [|intros _; keeps_leaf].
    apply keeps_genericBucket_putLine. intros _.
    repeat split; [exact Hin | exact Hgeneric | now left].
Qed.

Ltac root_only_step :=
  first [ keeps_step | apply keeps_genericBucket_ensurePart
        | now apply keeps_genericBucket_other | keeps_leaf ].

Lemma keeps_genericBucket_requests (locs : list string) :
  part <> "root" \/ Forall (fun f => isGenericName f = true) names ->
  keeps inv (requests env dataRoot locs names).
Proof.
  intros Hcase. unfold requests. apply keeps_forEach. intros loc _.
  apply keeps_forEach. intros filename Hin. unfold request.
  assert (Hroot : isGenericName filename = false -> "root" <> part).
  { intros Hf. destruct Hcase as [Hp|Hall]; [congruence|].
    rewrite Forall_forall in Hall. rewrite (Hall filename Hin) in Hf.
    discriminate. }
  unfold isGenericName in Hroot.
  destruct ((filename =? "charset") || (filename =? "charmaps")) eqn:Ec.
  - unfold charsetRequest, loadLang2charset. keeps_insensitive.
  - destruct (normPattern_exec filename) as [m|] eqn:Em.
    + unfold normRequest. keeps_insensitive.
    + destruct (filename =? "zoneinfo") eqn:Ez.
      * specialize (Hroot eq_refl).
        unfold zoneinfoRequest, regionZone, genericZone. repeat root_only_step.
      * unfold genericRequest. apply keeps_forEach. intros dir _.
        apply keeps_genericBucket_genericPart; [exact Hin|].
        unfold isGenericName. now rewrite Ec, Em, Ez.
Qed.

Lemma keeps_genericBucket_phases (scripts : JSSet) :
  part <> "root" ->
  keeps inv (charsetPhase env dataRoot)
  /\ keeps inv (normPhase env dataRoot scripts).
Proof.
  intros Hp. assert (Hroot : "root" <> part) by congruence. split.
  - unfold charsetPhase, charsetAliases, charsetFile, charmapFile.
    repeat root_only_step.
  - unfold normPhase, normForm, addForm. repeat root_only_step.
Qed.

End GenericBuckets.

Lemma keeps_no_forms_requests (env : Env) (dataRoot : string)
  (locs : list string) (names : JSSet) :
  Forall (fun f => isGenericName f = true) names ->
  keeps (fun s => charsets s = [] /\ normalizations s = [])
    (requests env dataRoot locs names).
Proof.
  intros Hall. rewrite Forall_forall in Hall.
  unfold requests. apply keeps_forEach. intros loc _.
  apply keeps_forEach. intros filename Hin. unfold request.
  specialize (Hall filename Hin). unfold isGenericName in Hall.
  destruct ((filename =? "charset") || (filename =? "charmaps"));
    [discriminate|].
  destruct (normPattern_exec filename) as [m|]; [discriminate|].
  destruct (filename =? "zoneinfo"); [discriminate|].
  unfold genericRequest, genericPart. keeps_insensitive.
Qed.

(** The buckets to which only generic names contribute, when the pass
    is over. *)
Lemma pass_genericBucket (env : Env) (options : Options) (names : JSSet)
  (dataRoot : string) (sources : Obj string) (final : Agg) (part : string) :
  calcDataRoot env options = Ok dataRoot ->
  pass env options names emptyAgg = (Ok sources, final) ->
  part <> "root" \/ Forall (fun f => isGenericName f = true) names ->
  genericBucket env dataRoot names part final.
Proof.
  intros Hdr Hpass Hcase.
  apply pass_Ok in Hpass
    as (outputDir & dataRoot' & s1 & s2 & s3 & _ & Hdr' & H1 & H2 & H3 & H4).
  rewrite Hdr in Hdr'. injection Hdr' as <-.
  assert (G1 : genericBucket env dataRoot names part s1).
  { refine (keeps_run (keeps_genericBucket_requests env dataRoot names part _ Hcase)
              H1 _).
    intros bucket. discriminate. }
  refine (keeps_run (keeps_emitFiles_any _ env outputDir) H4 _).
  destruct (string_dec part "root") as [->|Hp].
  - destruct Hcase as [Hp|Hall]; [contradiction|].
    pose proof (keeps_run (keeps_no_forms_requests env dataRoot _ names Hall) H1
                  (conj eq_refl eq_refl)) as [Hc Hn].
    assert (E2 : s2 = s1).
    { unfold charsetPhase, bindM, gets in H2. rewrite Hc in H2.
      now injection H2 as <-. }
    subst s2.
    assert (E3 : s3 = s1).
    { unfold normPhase, bindM, gets in H3. rewrite Hn in H3.
      now injection H3 as <-. }
    now subst s3.
  - destruct (keeps_genericBucket_phases env dataRoot names part
                (likelyScripts env (locales options)) Hp) as [K2 K3].
    exact (keeps_run K3 H3 (keeps_run K2 H2 G1)).
Qed.

Lemma lines_once (bucket : Obj string) :
  NoDup (keys bucket) ->
  (forall e1 e2, In e1 bucket -> In e2 bucket -> fst e1 <> fst e2 ->
     snd e1 <> "" -> snd e1 <> snd e2) ->
  NoDup (filter (fun line => negb (line =? "")) (values bucket)).
Proof.
  induction bucket as [|[k v] bucket IH]; intros Hdup Hdiff; [constructor|].
  inversion Hdup as [|? ? Hnew Hdup']; subst. simpl.
  assert (Hrest : NoDup (filter (fun line => negb (line =? "")) (values bucket))).
  { apply IH; [exact Hdup'|]. intros e1 e2 H1 H2. apply Hdiff; now right. }
  destruct (String.eqb_spec v "") as [->|Hv]; simpl; [exact Hrest|].
  constructor; [|exact Hrest].
  intros Hin. apply filter_In in Hin as [Hin _].
  unfold values in Hin. apply in_map_iff in Hin as ([k' v'] & E & Hin).
  simpl in E. subst v'.
  apply (Hdiff (k, v) (k', v)); [now left | now right | | exact Hv | reflexivity].
  simpl. intros <-. apply Hnew. change k with (fst (k, v)). now apply in_map.
Qed.




(** ** Optional charsets in the root bundle *)

Lemma Forall_values_set (P : string -> Prop) (key line : string)
  (bucket : Obj string) :
  P line -> Forall P (values bucket) -> Forall P (values (set key line bucket)).
Proof.
  intros Hline Hall. rewrite Forall_forall in Hall |- *.
  intros x Hx. unfold values in Hx. apply in_map_iff in Hx as (e & <- & He).
  apply In_set_inv in He as [->|He]; [exact Hline|].
  apply Hall. unfold values. now apply in_map.
Qed.

Lemma keeps_rootFree_ensurePart (target part : string) :
  keeps (rootFree target) (ensurePart part).
Proof.
  intros s H. unfold ensurePart, modify. simpl.
  destruct (get part (outputSet s)) eqn:E; [exact H|].
  intros bucket. simpl. destruct (string_dec "root" part) as [<-|Hne].
  - rewrite get_set_same. intros [= <-]. constructor.
  - rewrite get_set_other by assumption. apply H.
Qed.

Lemma keeps_rootFree_putLine (target part key line : string) :
  (part = "root" -> beginsWith target line = false) ->
  keeps (rootFree target) (putLine part key line).
Proof.
  intros Hline s H. unfold putLine.
  destruct (get part (outputSet s)) as [bucket'|] eqn:E; [|exact H].
  intros bucket. simpl. destruct (string_dec "root" part) as [<-|Hne].
  - rewrite get_set_same. intros [= <-].
    apply Forall_values_set; [now apply Hline | now apply H].
  - rewrite get_set_other by assumption. apply H.
Qed.

Lemma keeps_charmapsListed_requests (env : Env) (dataRoot : string)
  (locs : list string) (names : JSSet) :
  keeps charmapsListed (requests env dataRoot locs names).
Proof.
  unfold requests. apply keeps_forEach. intros loc _.
  apply keeps_forEach. intros filename _. unfold request.
  destruct ((filename =? "charset") || (filename =? "charmaps")).
  - unfold charsetRequest.
    apply keeps_bind; [unfold loadLang2charset; keeps_insensitive|].
    intros table. cbv zeta.
    set (spec := toString (language (Locale env loc))
                 ++ (if truthy (script (Locale env loc))
                     then "-" ++ toString (script (Locale env loc)) else "")).
    destruct (get spec table) as [found|]; [|apply keeps_ret].
    intros s H. unfold charmapsListed in H. rewrite Forall_forall in H.
    unfold bindM, modify, when.
    destruct (filename =? "charmaps"); simpl; unfold charmapsListed; simpl;
      apply Forall_forall; intros entry Hentry name Hname; apply In_addAll.
    + apply In_set_inv in Hentry as [->|Hentry].
      * simpl in Hname. apply In_addAll in Hname as [Hname|Hname];
          [now left | right].
        destruct (get spec (charmaps s)) as [current|] eqn:E; [|contradiction].
        exact (H (spec, current) (get_In _ _ E) name Hname).
      * right. exact (H entry Hentry name Hname).
    + right. exact (H entry Hentry name Hname).
  - destruct (normPattern_exec filename) as [m|].
    + unfold normRequest. keeps_insensitive.
    + destruct (filename =? "zoneinfo").
      * unfold zoneinfoRequest, regionZone, genericZone. keeps_insensitive.
      * unfold genericRequest, genericPart. keeps_insensitive.
Qed.

Section OptionalCharset.
Variable env : Env.
Variable dataRoot : string.
Variable charset data : string.

Local Abbreviation fragment :=
  (path_join env [dataRoot; "charset"; charset ++ ".json"]).
Local Abbreviation cs := ("charset_" ++ charset).
Local Abbreviation target :=
  ("ilib.data.charmaps_" ++ toIlibDataName charset ++ " = ").

Hypothesis fragment_exists : existsSync env fragment = true.
Hypothesis fragment_text : readFileSync env fragment = Ok data.
Hypothesis fragment_optional : JSON_parse_optional env data = Ok true.

Lemma charsetFile_step {name : string} {optional optional' : JSSet}
  {s s' : Agg} :
  charsetFile env dataRoot name optional s = (Ok optional', s') ->
  charsetSeen env charset data optional s ->
  charsetSeen env charset data optional' s'
  /\ (name = charset -> In charset optional')
  /\ (In charset optional -> In charset optional').
Proof.
  intros H Hcs. unfold charsetFile in H.
  apply bindM_Ok in H as (present & s1 & Hrl & H).
  unfold readLine in Hrl.
  destruct (get "root" (outputSet s)) as [bucket|] eqn:Eroot; [|discriminate].
  injection Hrl as <- <-.
  assert (Hline : forall k, rootLine s k = get k bucket).
  { intros k. unfold rootLine. now rewrite Eroot. }
  match type of H with
  | (if ?c then _ else _) _ = _ => destruct c eqn:Ec
  end.
  - apply bindM_Ok in H as (text & s2 & Hrd & H).
    apply lift_Ok in Hrd as [Hrd ->].
    apply bindM_Ok in H as ([] & s3 & Hput & H).
    unfold putLine in Hput. rewrite Eroot in Hput. injection Hput as <-.
    apply bindM_Ok in H as ([] & s4 & Hman & H).
    unfold manifestAdd, modify in Hman. injection Hman as <-.
    apply bindM_Ok in H as (flag & s5 & Hpar & H).
    apply lift_Ok in Hpar as [Hpar ->].
    unfold ret in H. injection H as <- <-.
    apply andb_prop in Ec as [Etr Eex]. apply negb_true_iff in Etr.
    assert (Hmono : In charset optional ->
              In charset (if flag then set_add name optional else optional)).
    { destruct flag; [|tauto]. rewrite In_set_add. tauto. }
    destruct (string_dec name charset) as [->|Hne].
    + assert (Etr' : truthy (rootLine s cs) = false).
      { rewrite Hline. exact Etr. }
      destruct Hcs as [(Hin & Hl & Hm)|(Hnin & Hl)].
      * rewrite Hl in Etr'. discriminate.
      * change (readFileSync env fragment = Ok text) in Hrd.
        rewrite fragment_text in Hrd.
        injection Hrd as <-. rewrite fragment_optional in Hpar.
        injection Hpar as <-.
        assert (Hadd : In charset (set_add charset optional)).
        { apply In_set_add. now left. }
        split; [|auto]. left. split; [exact Hadd|]. split.
        -- unfold rootLine. simpl. now rewrite !get_set_same.
        -- simpl. apply In_set_add. now left.
    + assert (Hk2 : cs <> "charset_" ++ name).
      { intros E. apply append_inj_l in E. congruence. }
      assert (Hr : rootLine
                  (with_manifest
                     (set_add (path_join env ["charset"; name ++ ".json"])
                        (manifest s))
                     (with_outputSet
                        (set "root"
                           (set ("charset_" ++ name) (charsetLine name text) bucket)
                           (outputSet s)) s)) cs
                = rootLine s cs).
      { unfold rootLine. simpl. rewrite get_set_same, Eroot.
        now apply get_set_other. }
      assert (Hopt : In charset (if flag then set_add name optional else optional)
                     <-> In charset optional).
      { destruct flag; [|tauto]. rewrite In_set_add. intuition congruence. }
      split; [|split; [congruence | exact Hmono]].
      unfold charsetSeen, charsetEmitted. cbn [append] in Hr |- *.
      rewrite Hr, Hopt.
      destruct Hcs as [(Hin & Hl & Hm)|(Hnin & Hl)]; [left|right]; repeat split;
        try assumption.
      simpl. apply In_set_add. now right.
  - unfold ret in H. injection H as <- <-. split; [assumption|].
    split; [|tauto].
    intros ->. destruct Hcs as [(Hin & _)|(Hnin & Hl)]; [assumption|].
    change (negb (truthy (get cs bucket)) && existsSync env fragment = false)
      in Ec.
    rewrite <- Hline, Hl, fragment_exists in Ec. discriminate.
Qed.

Lemma charsetFiles_loop {found : list string} {optional optional' : JSSet}
  {s s' : Agg} :
  forEachWith found (charsetFile env dataRoot) optional s = (Ok optional', s') ->
  charsetSeen env charset data optional s ->
  charsetSeen env charset data optional' s'
  /\ (In charset found \/ In charset optional -> In charset optional').
Proof.
  revert optional s. induction found as [|name found IH]; intros optional s H Hs.
  - simpl in H. unfold ret in H. injection H as <- <-. split; [assumption|].
    intros [[]|]; assumption.
  - simpl in H. apply bindM_Ok in H as (optional1 & s1 & Hstep & H).
    destruct (charsetFile_step Hstep Hs) as (Hs1 & Hname & Hmono).
    destruct (IH _ _ H Hs1) as [Hs' Hin]. split; [assumption|].
    intros [[->|Hf]|Ho]; apply Hin; auto.
Qed.

Lemma keeps_rootFree_charsetFile (name : string) (optional : JSSet) :
  keeps (rootFree target) (charsetFile env dataRoot name optional).
Proof.
  unfold charsetFile.
  repeat first [ keeps_step
               | apply keeps_rootFree_putLine; intros _; reflexivity
               | keeps_leaf ].
Qed.

Lemma keeps_rootFree_charmapFile (optional : JSSet) (name : string) :
  In charset optional ->
  (name <> charset -> forall text, beginsWith target (charmapLine name text) = false) ->
  keeps (rootFree target) (charmapFile env dataRoot optional name).
Proof.
  intros Hin Hother. unfold charmapFile.
  destruct (set_has name optional) eqn:Eh; [apply keeps_ret|].
  assert (Hne : name <> charset).
  { intros ->. apply set_has_false in Eh. contradiction. }
  specialize (Hother Hne).
  repeat first [ keeps_step
               | apply keeps_rootFree_putLine; intros _; apply Hother
               | keeps_leaf ].
Qed.

Lemma keeps_charsetEmitted_charmapFile (optional : JSSet) (name : string) :
  keeps (charsetEmitted env charset data) (charmapFile env dataRoot optional name).
Proof.
  assert (Hk : "charmaps_" ++ name <> cs) by (simpl; congruence).
  unfold charsetEmitted, charmapFile. apply keeps_and.
  - repeat first [keeps_step | now apply rootLine_putLine_other | keeps_leaf].
  - repeat first [keeps_step | apply keeps_manifest_In | keeps_leaf].
Qed.

Lemma keeps_charsetEmitted_addForm (form script : string) :
  isForm form ->
  keeps (charsetEmitted env charset data) (addForm env dataRoot form script).
Proof.
  intros Hf.
  assert (Hk : form ++ "/" ++ script <> cs).
  { destruct Hf as [<-|[<-|[<-|[<-|[]]]]]; simpl; congruence. }
  unfold charsetEmitted, addForm. apply keeps_and.
  - repeat first [ keeps_step | apply rootLine_putLine_other; exact Hk
                 | keeps_leaf ].
  - repeat first [keeps_step | apply keeps_manifest_In | keeps_leaf].
Qed.

Lemma keeps_rootFree_addForm (form script : string) :
  keeps (rootFree target) (addForm env dataRoot form script).
Proof.
  unfold addForm.
  repeat first [ keeps_step
               | apply keeps_rootFree_putLine; intros _; reflexivity
               | keeps_leaf ].
Qed.

Lemma normPhase_optional (scripts : JSSet) (s s' : Agg) :
  normPhase env dataRoot scripts s = (Ok tt, s') ->
  formsOnly s ->
  rootFree target s /\ charsetEmitted env charset data s ->
  rootFree target s' /\ charsetEmitted env charset data s'.
Proof.
  intros H Hf Hs. unfold normPhase in H.
  apply bindM_Ok in H as (forms & s0 & Hg & H).
  unfold gets in Hg. injection Hg as <- <-.
  refine (keeps_run
            (P := fun t => rootFree target t /\ charsetEmitted env charset data t)
            _ H Hs).
  apply keeps_forEach. intros entry Hin. unfold normForm.
  assert (Hform : isForm (fst entry)).
  { unfold formsOnly in Hf. rewrite Forall_forall in Hf. apply Hf.
    unfold keys. now apply in_map. }
  assert (K : forall script,
            keeps (fun t => rootFree target t /\ charsetEmitted env charset data t)
              (addForm env dataRoot (fst entry) script)).
  { intros script. apply keeps_and;
      [apply keeps_rootFree_addForm | now apply keeps_charsetEmitted_addForm]. }
  destruct (set_has "all" (snd entry)); [apply K|].
  apply keeps_forEach. intros script _. apply K.
Qed.

Lemma charsetPhase_optional (s s' : Agg) :
  charsetPhase env dataRoot s = (Ok tt, s') ->
  In charset (charsets s) ->
  truthy (rootLine s cs) = false ->
  charmapsListed s ->
  (forall other text, In other (charsets s) -> other <> charset ->
     beginsWith target (charmapLine other text) = false) ->
  rootFree target s ->
  rootFree target s' /\ charsetEmitted env charset data s'.
Proof.
  intros H Hin Hcs Hlisted Hother Hfree. unfold charsetPhase in H.
  apply bindM_Ok in H as (found & s0 & Hg & H).
  unfold gets in Hg. injection Hg as <- <-.
  destruct (charsets s) as [|c0 rest] eqn:Ec; [contradiction|].
  rewrite <- Ec in *. simpl in H.
  replace (0 <? List.length (charsets s))%nat with true in H
    by (rewrite Ec; reflexivity).
  simpl in H.
  apply bindM_Ok in H as ([] & s1 & He & H).
  apply bindM_Ok in H as ([] & s2 & Ha & H).
  apply bindM_Ok in H as (optional & s3 & Hloop & H).
  apply bindM_Ok in H as (maps & s4 & Hg & H).
  unfold gets in Hg. injection Hg as <- <-.
  assert (Hk2 : "charsetaliases" <> cs) by (simpl; congruence).
  assert (Kaliases : keeps (fun t => rootLine t cs = rootLine s cs)
                       (charsetAliases env dataRoot)).
  { unfold charsetAliases.
    repeat first [keeps_step | now apply rootLine_putLine_other | keeps_leaf]. }
  assert (Faliases : keeps (rootFree target) (charsetAliases env dataRoot)).
  { unfold charsetAliases.
    repeat first [ keeps_step
                 | apply keeps_rootFree_putLine; intros _; reflexivity
                 | keeps_leaf ]. }
  assert (Hcs2 : rootLine s2 cs = rootLine s cs).
  { refine (keeps_run Kaliases Ha _).
    exact (keeps_run (rootLine_ensurePart "root" cs (rootLine s cs)) He eq_refl). }
  assert (Hfree2 : rootFree target s2).
  { refine (keeps_run Faliases Ha _).
    exact (keeps_run (keeps_rootFree_ensurePart target "root") He Hfree). }
  assert (Hseen : charsetSeen env charset data [] s2).
  { right. split; [intros []|]. now rewrite Hcs2. }
  destruct (charsetFiles_loop Hloop Hseen) as [Hd Hopt].
  specialize (Hopt (or_introl Hin)).
  destruct Hd as [(_ & Hemitted)|(Hn & _)]; [|contradiction].
  assert (Hfree3 : rootFree target s3).
  { refine (keeps_run (P := rootFree target) _ Hloop Hfree2).
    apply keeps_forEachWith. intros name optional0 _.
    apply keeps_rootFree_charsetFile. }
  assert (Hsame : charmaps s3 = charmaps s /\ charsets s3 = charsets s).
  { assert (K : forall A (m : M A),
              keeps (fun t => charmaps t = charmaps s /\ charsets t = charsets s) m ->
              forall t t' r, m t = (r, t') ->
              charmaps t = charmaps s /\ charsets t = charsets s ->
              charmaps t' = charmaps s /\ charsets t' = charsets s).
    { intros A m Km t t' r Hm Ht. exact (keeps_run Km Hm Ht). }
    refine (K _ _ _ _ _ _ Hloop _).
    { unfold charsetFile. keeps_insensitive. }
    refine (K _ _ _ _ _ _ Ha _).
    { unfold charsetAliases. keeps_insensitive. }
    refine (K _ _ _ _ _ _ He _); [keeps_insensitive | now split]. }
  destruct Hsame as [Hmaps _].
  refine (keeps_run
            (P := fun t => rootFree target t /\ charsetEmitted env charset data t)
            _ H (conj Hfree3 Hemitted)).
  apply keeps_forEach. intros entry Hentry. apply keeps_forEach. intros name Hname.
  apply keeps_and; [|apply keeps_charsetEmitted_charmapFile].
  apply keeps_rootFree_charmapFile; [exact Hopt|].
  intros Hne text. apply Hother; [|exact Hne].
  unfold charmapsListed in Hlisted. rewrite Forall_forall in Hlisted.
  rewrite Hmaps in Hentry. exact (Hlisted entry Hentry name Hname).
Qed.

Lemma keeps_rootFree_requests (locs : list string) (names : JSSet) :
  (forall f text, In f names -> isGenericName f = true ->
     beginsWith target (genericLine "root" f text) = false) ->
  keeps (rootFree target) (requests env dataRoot locs names).
Proof.
  intros Hnames. unfold requests. apply keeps_forEach. intros loc _.
  apply keeps_forEach. intros filename Hin. unfold request.
  destruct ((filename =? "charset") || (filename =? "charmaps")) eqn:Ec.
  - unfold charsetRequest, loadLang2charset. keeps_insensitive.
  - destruct (normPattern_exec filename) as [m|] eqn:Em.
    + unfold normRequest. keeps_insensitive.
    + destruct (filename =? "zoneinfo") eqn:Ez.
      * unfold zoneinfoRequest, regionZone, genericZone.
        repeat first [ keeps_step | apply keeps_rootFree_ensurePart
                     | apply keeps_rootFree_putLine; intros _; reflexivity
                     | keeps_leaf ].
      * assert (Hgeneric : isGenericName filename = true).
        { unfold isGenericName. now rewrite Ec, Em, Ez. }
        unfold genericRequest. apply keeps_forEach. intros dir _.
        unfold genericPart. apply keeps_tryCatch; [|intros e; keeps_leaf].
        destruct dir as [d|]; [|apply keeps_raise]. cbv zeta.
        apply keeps_bind; [apply keeps_rootFree_ensurePart|]. intros _.
        destruct (existsSync env (path_join env [dataRoot; d; filename ++ ".json"])).
        -- apply keeps_bind; [keeps_leaf|]. intros present. apply keeps_when.
           apply keeps_bind; [apply keeps_lift|]. intros text.
           apply keeps_bind; [|intros _; keeps_leaf].
           apply keeps_rootFree_putLine. intros ->. now apply Hnames.
        -- apply keeps_bind; [|intros _; keeps_leaf].
           apply keeps_rootFree_putLine. intros _. reflexivity.
Qed.

End OptionalCharset.

(** A zoneinfo request writes in root under the keys of the zones
    only. *)
Lemma zoneinfoRequest_other_keys (env : Env) (dataRoot : string)
  (locs : list string) (key : string) (v : option string) :
  ~ In key (zoneKeysOf env dataRoot locs) ->
  keeps (fun s => rootLine s key = v) (zoneinfoRequest env dataRoot locs).
Proof.
  intros Hk. unfold zoneKeysOf in Hk. unfold zoneinfoRequest. cbv zeta.
  apply keeps_bind_lift. intros data Hread. rewrite Hread in Hk.
  apply keeps_bind_lift. intros zonetab Hparse. rewrite Hparse in Hk.
  unfold zoneKeys in Hk. cbn [In] in Hk. rewrite in_app_iff in Hk.
  apply keeps_bind; [apply rootLine_ensurePart|]. intros _.
  apply keeps_bind; [apply rootLine_putLine_other; tauto|]. intros _.
  apply keeps_bind; [keeps_leaf|]. intros _.
  apply keeps_bind.
  { apply keeps_forEach. intros zone Hzone.
    assert (Hne : zone <> key) by (intros ->; tauto).
    unfold regionZone.
    repeat first [keeps_step | now apply rootLine_putLine_other | keeps_leaf]. }
  intros _. apply keeps_bind_lift. intros top Htop. rewrite Htop in Hk.
  apply keeps_bind_lift. intros etc Hetc. rewrite Hetc in Hk.
  apply keeps_forEach. intros file Hfile.
  assert (Hne : path_basename env file ".json" <> key).
  { intros E. apply Hk. right. right. apply in_map_iff. now exists file. }
  unfold genericZone.
  repeat first [keeps_step | now apply rootLine_putLine_other | keeps_leaf].
Qed.

(** When the loop over the requested names is over, a key of root that
    is neither a requested name nor a key of the zones holds nothing. *)
Lemma requested_root_keys (env : Env) (dataRoot : string) (locs : list string)
  (names : JSSet) (key : string) :
  ~ In key names ->
  (In "zoneinfo" names -> ~ In key (zoneKeysOf env dataRoot locs)) ->
  rootLine (snd (requests env dataRoot locs names emptyAgg)) key = None.
Proof.
  intros Hk Hz.
  assert (Hkeeps : keeps (fun s => rootLine s key = None)
                     (requests env dataRoot locs names)).
  { unfold requests. apply keeps_forEach. intros loc _.
    apply keeps_forEach. intros filename Hin. unfold request.
    destruct ((filename =? "charset") || (filename =? "charmaps")).
    - unfold charsetRequest, loadLang2charset. keeps_insensitive.
    - destruct (normPattern_exec filename).
      + unfold normRequest. keeps_insensitive.
      + destruct (String.eqb_spec filename "zoneinfo") as [->|_].
        * apply zoneinfoRequest_other_keys. now apply Hz.
        * assert (Hne : filename <> key) by congruence.
          unfold genericRequest, genericPart.
          repeat first [ keeps_step | apply rootLine_ensurePart
                       | now apply rootLine_putLine_other | keeps_leaf ]. }
  apply Hkeeps. reflexivity.
Qed.

(** C6. When the charset file of a charset carries [optional: true] and
    the pass loads the charset, as it does when charmaps is requested
    for a locale of that charset, a pass that returns has left in the
    root bucket the assignment of the charset with the text of its file,
    and no line that begins as the assignment of its charmap does; the
    root bundle in the sources is made of the lines of that bucket.
    This holds provided that nothing else writes that assignment: no
    requested name is charset_<name> and, when zoneinfo is requested, no
    zone has the key charset_<name> (a line under that key would keep
    the charset file, and so its flag, from being read), no requested
    generic name is written in root as a charmaps_<name> assignment,
    and no other charset of the pass has a charmap written that way. *)
Theorem C6_optional_charset_without_charmap (env : Env) (options : Options)
  (names : JSSet) (outputDir dataRoot charset data : string)
  (sources : Obj string) (final : Agg) :
  let fragment := path_join env [dataRoot; "charset"; charset ++ ".json"] in
  let target := "ilib.data.charmaps_" ++ toIlibDataName charset ++ " = " in
  let file := fun q =>
    path_join env [path_join env [outputDir; "locales"]; q ++ ".js"] in
  calcOutputDir env options = Ok outputDir ->
  calcDataRoot env options = Ok dataRoot ->
  existsSync env fragment = true ->
  readFileSync env fragment = Ok data ->
  JSON_parse_optional env data = Ok true ->
  pass env options names emptyAgg = (Ok sources, final) ->
  In charset (charsets final) ->
  ~ In ("charset_" ++ charset) names ->
  (In "zoneinfo" names ->
   ~ In ("charset_" ++ charset) (zoneKeysOf env dataRoot (locales options))) ->
  (forall f text, In f names -> isGenericName f = true ->
     beginsWith target
       ("ilib.data." ++ toIlibDataName f ++ " = " ++ text ++ ";" ++ nl) = false) ->
  (forall other text, In other (charsets final) -> other <> charset ->
     beginsWith target
       ("ilib.data.charmaps_" ++ toIlibDataName other ++ " = " ++ text ++ ";" ++ nl)
     = false) ->
  exists root,
    get "root" (outputSet final) = Some root
    /\ Forall (fun line => beginsWith target line = false) (values root)
    /\ In ("ilib.data.charset_" ++ toIlibDataName charset ++ " = " ++ data
           ++ ";" ++ nl) (values root)
    /\ In (path_join env ["charset"; charset ++ ".json"]) (manifest final)
    /\ ((forall q, In q (keys (outputSet final)) -> file q = file "root" ->
           q = "root") ->
        get (file "root") sources
        = Some ("module.exports.installLocale = function(ilib) {" ++ nl
                ++ String.concat "" (values root) ++ "};" ++ nl)).
Proof.
  intros fragment target file Hod Hdr Hex Hrd Hopt Hpass Hin Hname Hzone
    Hgeneric Hother.
  pose proof Hpass as Hrun.
  apply pass_Ok in Hpass
    as (outputDir' & dataRoot' & s1 & s2 & s3 & Hod' & Hdr' & H1 & H2 & H3 & H4).
  rewrite Hod in Hod'. injection Hod' as <-.
  rewrite Hdr in Hdr'. injection Hdr' as <-.
  set (scripts := likelyScripts env (locales options)) in *.
  destruct (keeps_charsets_phases env dataRoot scripts (charsets s1))
    as [Kc Kn].
  assert (E2 : charsets s2 = charsets s1) by exact (keeps_run Kc H2 eq_refl).
  assert (E3 : charsets s3 = charsets s1) by exact (keeps_run Kn H3 E2).
  assert (E4 : charsets final = charsets s1).
  { exact (keeps_run (P := fun s => charsets s = charsets s1)
             (keeps_emitFiles_any _ env outputDir) H4 E3). }
  rewrite E4 in Hin, Hother.
  assert (Hcs : truthy (rootLine s1 ("charset_" ++ charset)) = false).
  { pose proof (requested_root_keys env dataRoot (locales options) names
                  ("charset_" ++ charset) Hname Hzone) as Hnone.
    rewrite H1 in Hnone. cbn [snd] in Hnone. now rewrite Hnone. }
  assert (F1 : formsOnly s1).
  { refine (keeps_run (keeps_forms_requests env dataRoot _ names) H1 _).
    constructor. }
  assert (F2 : formsOnly s2).
  { exact (keeps_run (keeps_forms_charsetPhase env dataRoot) H2 F1). }
  assert (L1 : charmapsListed s1).
  { refine (keeps_run (keeps_charmapsListed_requests env dataRoot _ names) H1 _).
    constructor. }
  assert (R1 : rootFree target s1).
  { refine (keeps_run
              (keeps_rootFree_requests env dataRoot charset _ names Hgeneric) H1 _).
    intros bucket. discriminate. }
  pose proof (charsetPhase_optional env dataRoot charset data Hex Hrd Hopt
                s1 s2 H2 Hin Hcs L1 Hother R1) as C2.
  pose proof (normPhase_optional env dataRoot charset data scripts s2 s3
                H3 F2 C2) as C3.
  pose proof (proj1 (emitFiles_inv _ _ _ _ _ H4)) as ->.
  destruct C3 as (Hfree & Hline & Hmanifest).
  unfold rootLine in Hline.
  destruct (get "root" (outputSet s3)) as [root|] eqn:Eroot; [|discriminate].
  exists root. split; [reflexivity|]. split; [now apply Hfree|].
  split; [|split; [exact Hmanifest|]].
  - apply get_In in Hline. unfold values.
    change (In (snd ("charset_" ++ charset, charsetLine charset data))
              (map snd root)).
    now apply in_map.
  - intros Hinj.
    exact (pass_bundle env options names outputDir sources s3 "root" root
             Hod Hrun Eroot Hinj).
Qed.

Lemma C6_optional_charset_witness :
  let names := ["charmaps"; "localeinfo"; "zoneinfo"] in
  let run := pass World.env (World.options ["zh-Hans-CN"; "en-US"]) names
               emptyAgg in
  exists root,
    get "root" (outputSet (snd run)) = Some root
    /\ Forall (fun line => beginsWith "ilib.data.charmaps_Big5 = " line = false)
         (values root)
    /\ In ("ilib.data.charset_Big5 = {big5 optional};" ++ nl) (values root)
    /\ In ("ilib.data.charmaps_ISO_8859_1 = {map1};" ++ nl) (values root)
    /\ In "charset/Big5.json" (manifest (snd run)).
Proof.
  intros names run.
  destruct (C6_optional_charset_without_charmap World.env
              (World.options ["zh-Hans-CN"; "en-US"]) names "/out"
              "/ilib/locale" "Big5" "{big5 optional}" (sourcesOf (fst run))
              (snd run))
    as (root & Hroot & Hfree & Hline & Hmanifest & _).
  - reflexivity.
  - reflexivity.
  - reflexivity.
  - reflexivity.
  - reflexivity.
  - vm_compute. reflexivity.
  - vm_compute. left. reflexivity.
  - intros [H|[H|[H|[]]]]; discriminate H.
  - intros _ Hkey. vm_compute in Hkey.
    repeat (destruct Hkey as [Hkey|Hkey]; [discriminate Hkey|]). exact Hkey.
  - intros f text [<-|[<-|[<-|[]]]] Hgeneric;
      first [discriminate Hgeneric | reflexivity].
  - intros other text Hin Hne. vm_compute in Hin.
    destruct Hin as [<-|[<-|[]]]; [now contradiction Hne | reflexivity].
  - exists root. split; [exact Hroot|]. split; [exact Hfree|].
    split; [exact Hline|]. split; [|exact Hmanifest].
    clear Hfree Hline. vm_compute in Hroot. injection Hroot as <-.
    vm_compute. repeat (first [left; reflexivity | right]).
Defined.

(** Big5 is optional and charmaps is requested for a locale of Big5;
    with the charmap requested by its name as well, the root bundle
    holds the assignment of the charmap of Big5. *)
Lemma C6_charmap_requested_by_name :
  let names := ["charmaps"; "charmaps/Big5"] in
  let run := pass World.env (World.options ["zh-Hans-CN"]) names emptyAgg in
  existsSync World.env "/ilib/locale/charset/Big5.json" = true
  /\ readFileSync World.env "/ilib/locale/charset/Big5.json"
     = Ok "{big5 optional}"
  /\ JSON_parse_optional World.env "{big5 optional}" = Ok true
  /\ In "Big5" (charsets (snd run))
  /\ (exists root,
        get "root" (outputSet (snd run)) = Some root
        /\ In ("ilib.data.charmaps_Big5 = {map5};" ++ nl) (values root)
        /\ In ("ilib.data.charset_Big5 = {big5 optional};" ++ nl) (values root))
  /\ exists sources,
       fst run = Ok sources
       /\ get "/out/locales/root.js" sources
          = Some ("module.exports.installLocale = function(ilib) {" ++ nl
                  ++ "ilib.data.charmaps_Big5 = {map5};" ++ nl
                  ++ "ilib.data.charsetaliases = {X};" ++ nl
                  ++ "ilib.data.charset_Big5 = {big5 optional};" ++ nl
                  ++ "};" ++ nl).
Proof.
  intros names run.
  split; [reflexivity|]. split; [reflexivity|]. split; [reflexivity|].
  split; [vm_compute; now left|]. split.
  - eexists. split; [vm_compute; reflexivity|].
    split; [now left | right; right; now left].
  - eexists. split; [vm_compute; reflexivity|]. reflexivity.
Qed.

(** ** Time zones in the root bundle *)

(** A loop that returns: every step returned, so what a step leaves when
    it returns, and the other steps keep, is there at the end. *)
Lemma forEach_all_Ok {A} (xs : list A) (f : A -> M unit)
  (Post : A -> Agg -> Prop) :
  (forall x, In x xs -> forall s, fst (f x s) = Ok tt -> Post x (snd (f x s))) ->
  (forall x y, In y xs -> keeps (Post x) (f y)) ->
  forall s, fst (forEach xs f s) = Ok tt ->
    forall x, In x xs -> Post x (snd (forEach xs f s)).
Proof.
  induction xs as [|y xs IH]; intros Hstep Hstable s Hr x Hx; [contradiction|].
  cbn [forEach] in Hr |- *. unfold bindM in Hr |- *.
  pose proof (Hstep y (or_introl eq_refl) s) as Hy.
  destruct (f y s) as [[[]|e] s1]; [|discriminate].
  cbn [fst snd] in Hy.
  destruct Hx as [<-|Hx].
  - assert (K : keeps (Post y) (forEach xs f)).
    { apply keeps_forEach. intros z Hz. apply Hstable. now right. }
    apply K. now apply Hy.
  - apply IH; try assumption.
    + intros z Hz. apply Hstep. now right.
    + intros z w Hw. apply Hstable. now right.
Qed.

Lemma forEach_keeps_Ok {A} (xs : list A) (f : A -> M unit) (P : Agg -> Prop) :
  (forall y, In y xs -> forall s, fst (f y s) = Ok tt -> P s -> P (snd (f y s))) ->
  forall s, fst (forEach xs f s) = Ok tt -> P s -> P (snd (forEach xs f s)).
Proof.
  induction xs as [|y xs IH]; intros Hstep s Hr HP; [exact HP|].
  cbn [forEach] in Hr |- *. unfold bindM in Hr |- *.
  pose proof (Hstep y (or_introl eq_refl) s) as Hy.
  destruct (f y s) as [[[]|e] s1]; [|discriminate].
  cbn [fst snd] in Hy. apply IH; [|exact Hr | now apply Hy].
  intros z Hz. apply Hstep. now right.
Qed.

Lemma forEach_reaches_Ok {A} (xs : list A) (f : A -> M unit) (P : Agg -> Prop)
  (x : A) :
  In x xs ->
  (forall s, fst (f x s) = Ok tt -> P (snd (f x s))) ->
  (forall y, In y xs -> forall s, fst (f y s) = Ok tt -> P s -> P (snd (f y s))) ->
  forall s, fst (forEach xs f s) = Ok tt -> P (snd (forEach xs f s)).
Proof.
  induction xs as [|y xs IH]; intros Hx Hest Hstep s Hr; [contradiction|].
  cbn [forEach] in Hr |- *. unfold bindM in Hr |- *.
  pose proof (Hest s) as Hxs. pose proof (Hstep y (or_introl eq_refl) s) as Hy.
  destruct (f y s) as [[[]|e] s1] eqn:E; [|discriminate].
  cbn [fst snd] in Hy.
  destruct Hx as [->|Hx].
  - rewrite E in Hxs. cbn [fst snd] in Hxs.
    apply forEach_keeps_Ok; [|exact Hr | now apply Hxs].
    intros z Hz. apply Hstep. now right.
  - apply IH; try assumption. intros z Hz. apply Hstep. now right.
Qed.

Lemma zoneLine_not_empty (zone text : string) : zoneLine zone text <> "".
Proof. unfold zoneLine. simpl. discriminate. Qed.

Lemma In_regionsOf (env : Env) (locs : list string) (loc : string) :
  In loc locs -> In (region (Locale env loc)) (regionsOf env locs).
Proof.
  unfold regionsOf.
  assert (G : forall acc,
            (In loc locs \/ In (region (Locale env loc)) acc) ->
            In (region (Locale env loc))
              (fold_left (fun acc loc => add opt_eqb (region (Locale env loc)) acc)
                 locs acc)).
  { induction locs as [|l locs IH]; intros acc [H|H]; simpl; try contradiction;
      try assumption.
    - apply IH. destruct H as [->|H]; [right; apply In_add_opt; now left | now left].
    - apply IH. right. apply In_add_opt. now right. }
  intros H. apply G. now left.
Qed.

Lemma In_zonesOf (zonetab : Obj (list string)) (regions : list (option string))
  (r : option string) (listed : list string) (zone : string) :
  In r regions -> get (toString r) zonetab = Some listed -> In zone listed ->
  In zone (zonesOf zonetab regions).
Proof.
  intros Hr Hget Hzone. unfold zonesOf.
  assert (G : forall acc,
            (In r regions \/ In zone acc) ->
            In zone
              (fold_left
                 (fun acc r => match get (toString r) zonetab with
                               | Some zones => addAll zones acc
                               | None => acc
                               end) regions acc)).
  { clear Hr. induction regions as [|r' regions IH]; intros acc [H|H]; simpl;
      try contradiction; try assumption.
    - apply IH. destruct H as [->|H]; [right | now left].
      rewrite Hget. apply In_addAll. now left.
    - apply IH. right. destruct (get (toString r') zonetab); [|assumption].
      apply In_addAll. now right. }
  apply G. now left.
Qed.

Section ZoneSteps.
Variable env : Env.
Variable dataRoot : string.
Variable zones generic : list string.
Variable tabText : string.

Local Abbreviation held := (zoneHeld env dataRoot zones generic).
Local Abbreviation step := (zoneStep env dataRoot zones generic).

Lemma hasRoot_rootLine (key line : string) (s : Agg) :
  rootLine s key = Some line -> hasRoot s.
Proof.
  unfold rootLine, hasRoot. destruct (get "root" (outputSet s)); congruence.
Qed.

Lemma zoneStep_same (key : string) (s s' : Agg) :
  outputSet s' = outputSet s ->
  (forall p, In p (manifest s) -> In p (manifest s')) ->
  step key s s'.
Proof.
  intros Ho Hm. unfold zoneStep, rootLine, hasRoot. rewrite Ho.
  repeat split; auto.
Qed.

(** Writing the line of a zone file under its key is such a step. *)
Lemma zoneStep_putLine (key text : string) (s : Agg) :
  zoneText env dataRoot zones generic key text ->
  let s' := snd (putLine "root" key (zoneLine key text) s) in
  step key s s'
  /\ (hasRoot s ->
      fst (putLine "root" key (zoneLine key text) s) = Ok tt
      /\ rootLine s' key = Some (zoneLine key text)).
Proof.
  intros Htext. unfold putLine.
  destruct (get "root" (outputSet s)) as [bucket|] eqn:E; cbn [fst snd].
  - split.
    + unfold zoneStep. repeat split.
      * auto.
      * intros k Hk. unfold rootLine. simpl. rewrite get_set_same, E.
        apply get_set_other. congruence.
      * right. exists text. split; [exact Htext|].
        unfold rootLine. simpl. now rewrite !get_set_same.
      * intros _. unfold hasRoot. simpl. rewrite get_set_same. discriminate.
    + intros _. split; [reflexivity|].
      unfold rootLine. simpl. now rewrite !get_set_same.
  - split; [now apply zoneStep_same|]. intros H. now contradiction H.
Qed.

Lemma zoneStep_manifestAdd (key p : string) (s s' : Agg) :
  step key s s' -> step key s (snd (manifestAdd p s')).
Proof.
  intros (Hm & Hk & Hown & Hr). unfold manifestAdd, modify. cbn [snd].
  unfold zoneStep. repeat split.
  - intros q Hq. simpl. apply In_set_add. right. now apply Hm.
  - exact Hk.
  - destruct Hown as [Hown|(text & Htext & Hline)]; [now left | right].
    exists text. now split.
  - exact Hr.
Qed.

Lemma regionZone_step (zone : string) (s : Agg) :
  In zone zones ->
  let s' := snd (regionZone env dataRoot zone s) in
  fst (regionZone env dataRoot zone s) = Ok tt
  /\ step zone s s'
  /\ (hasRoot s -> forall text,
        existsSync env (zoneFile env dataRoot zone) = true ->
        readFileSync env (zoneFile env dataRoot zone) = Ok text ->
        rootLine s' zone = Some (zoneLine zone text)
        /\ In (path_join env ["zoneinfo"; zone ++ ".json"]) (manifest s')).
Proof.
  intros Hzone. unfold regionZone, tryCatch. cbv zeta.
  fold (zoneFile env dataRoot zone).
  destruct (existsSync env (zoneFile env dataRoot zone)) eqn:Hex; cbn [when].
  2:{ cbn [ret fst snd]. split; [reflexivity|].
      split; [now apply zoneStep_same | discriminate]. }
  unfold bindM at 1, lift.
  destruct (readFileSync env (zoneFile env dataRoot zone)) as [text|e] eqn:Hrd.
  - assert (Htext : zoneText env dataRoot zones generic zone text).
    { left. now repeat split. }
    destruct (zoneStep_putLine zone text s Htext) as [Hstep Hput].
    unfold bindM.
    destruct (putLine "root" zone (zoneLine zone text) s) as [[[]|e] s1] eqn:E;
      cbn [fst snd] in *.
    + split; [reflexivity|].
      split; [now apply zoneStep_manifestAdd|].
      intros Hroot text' _ [= <-]. destruct (Hput Hroot) as [_ Hline].
      split; [exact Hline | apply In_set_add; now left].
    + split; [reflexivity|]. split.
      * destruct Hstep as (Hm & Hk & Hown & Hr). unfold zoneStep.
        repeat split; assumption.
      * intros Hroot. destruct (Hput Hroot) as [Hr _]. discriminate Hr.
  - cbn [fst snd]. split; [reflexivity|].
    split; [now apply zoneStep_same | discriminate].
Qed.

Lemma genericZone_step (file : string) (s : Agg) :
  In file generic ->
  let zone := path_basename env file ".json" in
  let s' := snd (genericZone env dataRoot file s) in
  step zone s s'
  /\ (fst (genericZone env dataRoot file s) = Ok tt ->
      held zone s' /\ In (path_join env ["zoneinfo"; file]) (manifest s'))
  /\ (hasRoot s ->
      (exists text,
         readFileSync env (path_join env [dataRoot; "zoneinfo"; file]) = Ok text) ->
      fst (genericZone env dataRoot file s) = Ok tt).
Proof.
  intros Hfile. unfold genericZone. cbv zeta.
  set (zone := path_basename env file ".json").
  unfold bindM at 1, lift.
  destruct (readFileSync env (path_join env [dataRoot; "zoneinfo"; file]))
    as [text|e] eqn:Hrd.
  - assert (Htext : zoneText env dataRoot zones generic zone text).
    { right. exists file. now repeat split. }
    destruct (zoneStep_putLine zone text s Htext) as [Hstep Hput].
    unfold bindM.
    destruct (putLine "root" zone (zoneLine zone text) s) as [[[]|e] s1] eqn:E;
      cbn [fst snd] in *.
    + split; [now apply zoneStep_manifestAdd|]. split; [|reflexivity].
      intros _. split; [|apply In_set_add; now left].
      assert (Hroot : hasRoot s).
      { unfold hasRoot. unfold putLine in E.
        destruct (get "root" (outputSet s)); [discriminate | discriminate E]. }
      exists text. split; [exact Htext|]. exact (proj2 (Hput Hroot)).
    + split; [exact Hstep|]. split; [discriminate|].
      intros Hroot _. exact (proj1 (Hput Hroot)).
  - cbn [fst snd]. split; [now apply zoneStep_same|].
    split; [discriminate|]. intros _ [text [=]].
Qed.

Lemma zoneStep_held (key k : string) (s s' : Agg) :
  step key s s' -> held k s -> held k s'.
Proof.
  intros (_ & Hk & Hown & _) (text & Htext & Hline).
  destruct (string_dec k key) as [->|Hne].
  - destruct Hown as [Hown|Hheld]; [|exact Hheld].
    exists text. split; [exact Htext | congruence].
  - exists text. split; [exact Htext|]. now rewrite Hk.
Qed.

Lemma zoneStep_tab (key : string) (s s' : Agg) :
  step key s s' ->
  tabHeld env dataRoot zones generic tabText s ->
  tabHeld env dataRoot zones generic tabText s'.
Proof.
  intros Hstep [Htab|Hheld];
    [|right; now apply (zoneStep_held key "zonetab" s)].
  destruct Hstep as (_ & Hk & Hown & _).
  destruct (string_dec "zonetab" key) as [<-|Hne].
  - destruct Hown as [Hown|Hheld]; [left; congruence | now right].
  - left. now rewrite Hk.
Qed.

(** What the other writers keep is enough. *)
Lemma zonesDone_extends (s s' : Agg) :
  extends (zoneKeys env zones generic) s s' ->
  zonesDone env dataRoot zones generic tabText s ->
  zonesDone env dataRoot zones generic tabText s'.
Proof.
  intros [Hlines Hm] (Htab & Hman & Hzones & Hfiles).
  assert (Hheld : forall k, In k (zoneKeys env zones generic) -> held k s -> held k s').
  { intros k Hk (text & Htext & Hline). exists text. split; [exact Htext|].
    apply Hlines; [exact Hk | apply zoneLine_not_empty | exact Hline]. }
  assert (Kzone : forall zone, In zone zones -> In zone (zoneKeys env zones generic)).
  { intros zone Hin. unfold zoneKeys. right. apply in_or_app. now left. }
  assert (Kfile : forall file, In file generic ->
            In (path_basename env file ".json") (zoneKeys env zones generic)).
  { intros file Hin. unfold zoneKeys. right. apply in_or_app. right.
    apply in_map_iff. now exists file. }
  unfold zonesDone. split; [|split; [now apply Hm|split]].
  - destruct Htab as [Htab|Hz].
    + left. apply Hlines; [now left | simpl; discriminate | exact Htab].
    + right. apply Hheld; [now left | exact Hz].
  - intros zone text Hin Hex Hrd. destruct (Hzones zone text Hin Hex Hrd) as [H1 H2].
    split; [apply Hheld; auto | now apply Hm].
  - intros file Hin. destruct (Hfiles file Hin) as [H1 H2].
    split; [apply Hheld; auto | now apply Hm].
Qed.

End ZoneSteps.

Section ZoneinfoRequest.
Variable env : Env.
Variable dataRoot : string.
Variable locs : list string.
Variable tabText : string.
Variable zonetab : Obj (list string).
Variable top etc : list string.

Local Abbreviation zoneinfoDir := (path_join env [dataRoot; "zoneinfo"]).
Local Abbreviation generic :=
  (filter isGenericZoneFile
     (top ++ map (fun zone => ("Etc/" ++ zone)%string) etc)%list).
Local Abbreviation zones := (zonesOf zonetab (regionsOf env locs)).
Local Abbreviation tabLine :=
  ("ilib.data.zoneinfo.zonetab = " ++ tabText ++ ";" ++ nl).
Local Abbreviation step := (zoneStep env dataRoot zones generic).
Local Abbreviation held := (zoneHeld env dataRoot zones generic).

Hypothesis tab_read :
  readFileSync env (path_join env [dataRoot; "zoneinfo/zonetab.json"]) = Ok tabText.
Hypothesis tab_parsed : JSON_parse_zonetab env tabText = Ok zonetab.
Hypothesis top_listed : readdirSync env zoneinfoDir = Ok top.
Hypothesis etc_listed : readdirSync env (path_join env [zoneinfoDir; "Etc"]) = Ok etc.

Lemma zoneinfoRequest_steps :
  zoneinfoRequest env dataRoot locs
  = (ensurePart "root" ;;;
     putLine "root" "zonetab" tabLine ;;;
     manifestAdd "zoneinfo/zonetab.json" ;;;
     forEach zones (regionZone env dataRoot) ;;;
     forEach generic (genericZone env dataRoot)).
Proof.
  unfold zoneinfoRequest. cbv zeta.
  rewrite tab_read, bindM_lift_Ok, tab_parsed, bindM_lift_Ok.
  rewrite top_listed, etc_listed. reflexivity.
Qed.

(** What the steps of the two loops keep. *)
Lemma keeps_regionZone (P : Agg -> Prop) (zone : string) :
  (forall key s s', step key s s' -> P s -> P s') ->
  In zone zones -> keeps P (regionZone env dataRoot zone).
Proof.
  intros HP Hzone s H.
  destruct (regionZone_step env dataRoot zones generic zone s Hzone)
    as (_ & Hstep & _).
  exact (HP zone s _ Hstep H).
Qed.

Lemma keeps_genericZone (P : Agg -> Prop) (file : string) :
  (forall key s s', step key s s' -> P s -> P s') ->
  In file generic -> keeps P (genericZone env dataRoot file).
Proof.
  intros HP Hfile s H.
  destruct (genericZone_step env dataRoot zones generic file s Hfile)
    as (Hstep & _).
  exact (HP _ s _ Hstep H).
Qed.

Lemma step_hasRoot (key : string) (s s' : Agg) :
  step key s s' -> hasRoot s -> hasRoot s'.
Proof. intros (_ & _ & _ & H). exact H. Qed.

Lemma step_manifest (p key : string) (s s' : Agg) :
  step key s s' -> In p (manifest s) -> In p (manifest s').
Proof. intros (H & _). apply H. Qed.

Lemma step_zone_done (zone key : string) (s s' : Agg) :
  step key s s' ->
  (forall text,
     existsSync env (zoneFile env dataRoot zone) = true ->
     readFileSync env (zoneFile env dataRoot zone) = Ok text ->
     held zone s /\ In (path_join env ["zoneinfo"; zone ++ ".json"]) (manifest s)) ->
  forall text,
    existsSync env (zoneFile env dataRoot zone) = true ->
    readFileSync env (zoneFile env dataRoot zone) = Ok text ->
    held zone s' /\ In (path_join env ["zoneinfo"; zone ++ ".json"]) (manifest s').
Proof.
  intros Hstep H text Hex Hrd. destruct (H text Hex Hrd) as [H1 H2]. split.
  - exact (zoneStep_held env dataRoot zones generic key zone s s' Hstep H1).
  - exact (step_manifest _ key s s' Hstep H2).
Qed.

Lemma step_file_done (file key : string) (s s' : Agg) :
  step key s s' ->
  held (path_basename env file ".json") s
  /\ In (path_join env ["zoneinfo"; file]) (manifest s) ->
  held (path_basename env file ".json") s'
  /\ In (path_join env ["zoneinfo"; file]) (manifest s').
Proof.
  intros Hstep [H1 H2]. split.
  - exact (zoneStep_held env dataRoot zones generic key _ s s' Hstep H1).
  - exact (step_manifest _ key s s' Hstep H2).
Qed.

(** A zoneinfo request that returns has left the table, the zones of
    the regions and the generic zones, whatever the state it began in. *)
Lemma zoneinfoRequest_Ok (s s' : Agg) :
  zoneinfoRequest env dataRoot locs s = (Ok tt, s') ->
  zonesDone env dataRoot zones generic tabText s'.
Proof.
  intros H. rewrite zoneinfoRequest_steps in H.
  apply bindM_Ok in H as ([] & s0 & H0 & H).
  apply bindM_Ok in H as ([] & s1 & H1 & H).
  apply bindM_Ok in H as ([] & s2 & H2 & H).
  apply bindM_Ok in H as ([] & s3 & H3 & H).
  (* the table *)
  assert (T1 : rootLine s1 "zonetab" = Some tabLine).
  { unfold putLine in H1.
    destruct (get "root" (outputSet s0)) as [bucket|]; [|discriminate].
    injection H1 as <-. unfold rootLine. simpl. now rewrite !get_set_same. }
  unfold manifestAdd, modify in H2. injection H2 as <-.
  set (s2 := with_manifest (set_add "zoneinfo/zonetab.json" (manifest s1)) s1) in *.
  assert (T2 : tabHeld env dataRoot zones generic tabText s2) by (left; exact T1).
  assert (M2 : In "zoneinfo/zonetab.json" (manifest s2)).
  { apply In_set_add. now left. }
  assert (R2 : hasRoot s2) by exact (hasRoot_rootLine "zonetab" tabLine s1 T1).
  (* the zones of the regions *)
  destruct (forEach_establishes zones (regionZone env dataRoot) hasRoot
              (fun zone t => forall text,
                 existsSync env (zoneFile env dataRoot zone) = true ->
                 readFileSync env (zoneFile env dataRoot zone) = Ok text ->
                 held zone t
                 /\ In (path_join env ["zoneinfo"; zone ++ ".json"]) (manifest t)))
    with (s := s2) as (_ & R3 & Z3).
  { intros zone Hzone t Ht.
    destruct (regionZone_step env dataRoot zones generic zone t Hzone)
      as (Hr & Hstep & Hdone).
    split; [exact Hr|]. split; [exact (step_hasRoot zone t _ Hstep Ht)|].
    intros text Hex Hrd. destruct (Hdone Ht text Hex Hrd) as [Hline Hm].
    split; [|exact Hm]. exists text. split; [left; now repeat split | exact Hline]. }
  { intros zone y Hy. apply keeps_regionZone; [|exact Hy].
    intros key t t'. apply step_zone_done. }
  { exact R2. }
  assert (T3 : tabHeld env dataRoot zones generic tabText
                 (snd (forEach zones (regionZone env dataRoot) s2))).
  { revert T2. apply (keeps_forEach (P := tabHeld env dataRoot zones generic tabText)).
    intros zone Hzone. apply keeps_regionZone; [|exact Hzone].
    intros key t t'. apply zoneStep_tab. }
  assert (M3 : In "zoneinfo/zonetab.json"
                 (manifest (snd (forEach zones (regionZone env dataRoot) s2)))).
  { revert M2.
    apply (keeps_forEach (P := fun t => In "zoneinfo/zonetab.json" (manifest t))).
    intros zone Hzone. apply keeps_regionZone; [|exact Hzone].
    intros key t t'. apply step_manifest. }
  rewrite H3 in R3, Z3, T3, M3. cbn [snd] in R3, Z3, T3, M3.
  (* the generic zones *)
  assert (E : s' = snd (forEach generic (genericZone env dataRoot) s3))
    by now rewrite H.
  assert (Hr : fst (forEach generic (genericZone env dataRoot) s3) = Ok tt)
    by now rewrite H.
  rewrite E. unfold zonesDone. split; [|split; [|split]].
  - revert T3. apply (keeps_forEach (P := tabHeld env dataRoot zones generic tabText)).
    intros file Hfile. apply keeps_genericZone; [|exact Hfile].
    intros key t t'. apply zoneStep_tab.
  - revert M3.
    apply (keeps_forEach (P := fun t => In "zoneinfo/zonetab.json" (manifest t))).
    intros file Hfile. apply keeps_genericZone; [|exact Hfile].
    intros key t t'. apply step_manifest.
  - intros zone text Hzone. revert text.
    generalize (Z3 zone Hzone).
    apply (keeps_forEach
             (P := fun t => forall text,
                existsSync env (zoneFile env dataRoot zone) = true ->
                readFileSync env (zoneFile env dataRoot zone) = Ok text ->
                held zone t
                /\ In (path_join env ["zoneinfo"; zone ++ ".json"]) (manifest t))).
    intros file Hfile. apply keeps_genericZone; [|exact Hfile].
    intros key t t'. apply step_zone_done.
  - apply (forEach_all_Ok generic (genericZone env dataRoot)
             (fun file t =>
                held (path_basename env file ".json") t
                /\ In (path_join env ["zoneinfo"; file]) (manifest t))).
    + intros file Hfile t Ht.
      destruct (genericZone_step env dataRoot zones generic file t Hfile)
        as (_ & Hdone & _).
      now apply Hdone.
    + intros file y Hy. apply keeps_genericZone; [|exact Hy].
      intros key t t'. apply step_file_done.
    + exact Hr.
Qed.

(** With the generic zone files readable, a zoneinfo request returns. *)
Lemma zoneinfoRequest_returns (s : Agg) :
  (forall file, In file generic ->
     exists text,
       readFileSync env (path_join env [dataRoot; "zoneinfo"; file]) = Ok text) ->
  fst (zoneinfoRequest env dataRoot locs s) = Ok tt.
Proof.
  intros Hreadable. rewrite zoneinfoRequest_steps.
  rewrite seq_run by reflexivity.
  assert (R0 : hasRoot (snd (ensurePart "root" s))).
  { unfold ensurePart, modify, hasRoot. cbn [snd].
    destruct (get "root" (outputSet s)) eqn:E; [congruence|].
    simpl. rewrite get_set_same. discriminate. }
  set (s0 := snd (ensurePart "root" s)) in *.
  assert (H1 : fst (putLine "root" "zonetab" tabLine s0) = Ok tt
               /\ hasRoot (snd (putLine "root" "zonetab" tabLine s0))).
  { unfold putLine, hasRoot in *.
    destruct (get "root" (outputSet s0)); [|congruence].
    simpl. rewrite get_set_same. split; [reflexivity | discriminate]. }
  destruct H1 as [H1 R1]. rewrite seq_run by exact H1.
  set (s1 := snd (putLine "root" "zonetab" tabLine s0)) in *.
  rewrite seq_run by reflexivity.
  set (s2 := snd (manifestAdd "zoneinfo/zonetab.json" s1)).
  assert (R2 : hasRoot s2) by exact R1.
  destruct (forEach_establishes zones (regionZone env dataRoot) hasRoot
              (fun _ _ => True))
    with (s := s2) as (H3 & R3 & _).
  { intros zone Hzone t Ht.
    destruct (regionZone_step env dataRoot zones generic zone t Hzone)
      as (Hr & Hstep & _).
    split; [exact Hr|]. split; [exact (step_hasRoot zone t _ Hstep Ht) | exact I]. }
  { intros zone y Hy t _. exact I. }
  { exact R2. }
  rewrite seq_run by exact H3.
  apply (runs_forEach (Q := hasRoot)); [|exact R3].
  intros file Hfile t Ht.
  destruct (genericZone_step env dataRoot zones generic file t Hfile)
    as (Hstep & _ & Hr).
  split; [exact (Hr Ht (Hreadable file Hfile)) | exact (step_hasRoot _ t _ Hstep Ht)].
Qed.

End ZoneinfoRequest.

(** *** What the other writers leave of the lines of root *)

Lemma keeps_line_guarded (k line key : string) {A}
  (m : option string -> M A) :
  (key <> k -> forall present, keeps (fun t => rootLine t k = Some line) (m present)) ->
  keeps (fun t => rootLine t k = Some line) (m (Some line)) ->
  keeps (fun t => rootLine t k = Some line)
    (present <- readLine "root" key ;; m present).
Proof.
  intros Hother Hsame s H. unfold bindM, readLine.
  destruct (get "root" (outputSet s)) as [bucket|] eqn:E; [|exact H].
  destruct (string_dec key k) as [->|Hne].
  - assert (E' : get k bucket = Some line).
    { unfold rootLine in H. now rewrite E in H. }
    rewrite E'. now apply Hsame.
  - now apply Hother.
Qed.

(** The charsets are written where root holds no line yet: a line of
    root that is not empty stays. *)
Lemma keeps_line_charsetPhase (env : Env) (dataRoot k line : string) :
  line <> "" ->
  keeps (fun t => rootLine t k = Some line) (charsetPhase env dataRoot).
Proof.
  intros Hline.
  assert (Htruthy : truthy (Some line) = true).
  { destruct line; [contradiction | reflexivity]. }
  unfold charsetPhase.
  apply keeps_bind; [apply keeps_gets|]. intros found. apply keeps_when.
  apply keeps_bind; [apply rootLine_ensurePart|]. intros _.
  apply keeps_bind.
  { unfold charsetAliases. cbv zeta. apply keeps_line_guarded.
    - intros Hne present.
      repeat first [keeps_step | now apply rootLine_putLine_other | keeps_leaf].
    - rewrite Htruthy. cbn [negb andb when]. apply keeps_ret. }
  intros _. apply keeps_bind.
  { apply keeps_forEachWith. intros name optional _.
    unfold charsetFile. cbv zeta. apply keeps_line_guarded.
    - intros Hne present.
      repeat first [keeps_step | now apply rootLine_putLine_other | keeps_leaf].
    - rewrite Htruthy. cbn [negb andb]. apply keeps_ret. }
  intros optional. apply keeps_bind; [apply keeps_gets|]. intros maps.
  apply keeps_forEach. intros entry _. apply keeps_forEach. intros name _.
  unfold charmapFile. cbv zeta.
  destruct (set_has name optional); [apply keeps_ret|].
  apply keeps_line_guarded.
  - intros Hne present.
    repeat first [keeps_step | now apply rootLine_putLine_other | keeps_leaf].
  - rewrite Htruthy. cbn [negb andb when]. apply keeps_ret.
Qed.

Lemma normPhase_line (env : Env) (dataRoot : string) (scripts : JSSet)
  (k line : string) (s : Agg) :
  formsOnly s ->
  (forall form, In form ["nfc"; "nfd"; "nfkc"; "nfkd"] ->
     beginsWith (form ++ "/") k = false) ->
  rootLine s k = Some line ->
  rootLine (snd (normPhase env dataRoot scripts s)) k = Some line.
Proof.
  intros Hf Hk H. unfold normPhase, bindM, gets.
  revert H. apply (keeps_forEach (P := fun t => rootLine t k = Some line)).
  intros entry Hin. unfold normForm. cbv zeta.
  assert (Hform : isForm (fst entry)).
  { unfold formsOnly in Hf. rewrite Forall_forall in Hf. apply Hf.
    unfold keys. now apply in_map. }
  assert (Hne : forall script, fst entry ++ "/" ++ script <> k).
  { intros script E. pose proof (Hk (fst entry) Hform) as B. rewrite <- E in B.
    destruct Hform as [F|[F|[F|[F|[]]]]]; rewrite <- F in B; simpl in B;
      discriminate B. }
  destruct (set_has "all" (snd entry)); [now apply addForm_other_key|].
  apply keeps_forEach. intros script _. now apply addForm_other_key.
Qed.

Lemma keeps_manifest_phases (env : Env) (dataRoot : string) (scripts : JSSet)
  (p : string) :
  keeps (fun t => In p (manifest t)) (charsetPhase env dataRoot)
  /\ keeps (fun t => In p (manifest t)) (normPhase env dataRoot scripts).
Proof.
  split.
  - unfold charsetPhase, charsetAliases, charsetFile, charmapFile.
    repeat first [keeps_step | apply keeps_manifest_In | keeps_leaf].
  - unfold normPhase, normForm, addForm.
    repeat first [keeps_step | apply keeps_manifest_In | keeps_leaf].
Qed.

(** A request other than zoneinfo writes in root under its own name
    only. *)
Lemma request_extends (env : Env) (dataRoot : string) (locs : list string)
  (loc filename : string) (held : list string) (s : Agg) :
  filename <> "zoneinfo" -> ~ In filename held ->
  extends held s (snd (request env dataRoot locs loc filename s)).
Proof.
  intros Hz Hheld. split.
  - intros k line Hk _.
    assert (Hne : filename <> k) by (intros ->; contradiction).
    assert (K : keeps (fun t => rootLine t k = Some line)
                  (request env dataRoot locs loc filename)).
    { unfold request.
      destruct ((filename =? "charset") || (filename =? "charmaps")).
      - unfold charsetRequest, loadLang2charset. keeps_insensitive.
      - destruct (normPattern_exec filename).
        + unfold normRequest. keeps_insensitive.
        + destruct (String.eqb_spec filename "zoneinfo") as [->|_];
            [contradiction|].
          unfold genericRequest, genericPart.
          repeat first [ keeps_step | apply rootLine_ensurePart
                       | now apply rootLine_putLine_other | keeps_leaf ]. }
    exact (K s).
  - intros p.
    assert (K : keeps (fun t => In p (manifest t))
                  (request env dataRoot locs loc filename)).
    { unfold request.
      destruct ((filename =? "charset") || (filename =? "charmaps")).
      - unfold charsetRequest, loadLang2charset. keeps_insensitive.
      - destruct (normPattern_exec filename).
        + unfold normRequest. keeps_insensitive.
        + destruct (String.eqb_spec filename "zoneinfo") as [->|_];
            [contradiction|].
          unfold genericRequest, genericPart.
          repeat first [keeps_step | apply keeps_manifest_In | keeps_leaf]. }
    exact (K s).
Qed.

Section ZoneinfoPass.
Variable env : Env.
Variable options : Options.
Variable names : JSSet.
Variable dataRoot tabText : string.
Variable zonetab : Obj (list string).
Variable top etc : list string.

Local Abbreviation generic :=
  (filter isGenericZoneFile
     (top ++ map (fun zone => ("Etc/" ++ zone)%string) etc)%list).
Local Abbreviation zones := (zonesOf zonetab (regionsOf env (locales options))).
Local Abbreviation done := (zonesDone env dataRoot zones generic tabText).

Hypothesis tab_read :
  readFileSync env (path_join env [dataRoot; "zoneinfo/zonetab.json"]) = Ok tabText.
Hypothesis tab_parsed : JSON_parse_zonetab env tabText = Ok zonetab.
Hypothesis top_listed :
  readdirSync env (path_join env [dataRoot; "zoneinfo"]) = Ok top.
Hypothesis etc_listed :
  readdirSync env (path_join env [path_join env [dataRoot; "zoneinfo"]; "Etc"])
  = Ok etc.
Hypothesis keys_free :
  forall key, In key (zoneKeys env zones generic) ->
    ~ In key names
    /\ forall form, In form ["nfc"; "nfd"; "nfkc"; "nfkd"] ->
         beginsWith (form ++ "/") key = false.

Lemma request_done (loc filename : string) (s : Agg) :
  In filename names ->
  fst (request env dataRoot (locales options) loc filename s) = Ok tt ->
  (filename = "zoneinfo" \/ done s) ->
  done (snd (request env dataRoot (locales options) loc filename s)).
Proof.
  intros Hin Hr Hcase. destruct (string_dec filename "zoneinfo") as [->|Hne].
  - rewrite request_zoneinfo in Hr |- *.
    destruct (zoneinfoRequest env dataRoot (locales options) s) as [[[]|e] s'] eqn:E;
      [|discriminate].
    exact (zoneinfoRequest_Ok env dataRoot (locales options) tabText zonetab top etc
             tab_read tab_parsed top_listed etc_listed s s' E).
  - destruct Hcase as [|Hdone]; [contradiction|].
    refine (zonesDone_extends env dataRoot zones generic tabText s _ _ Hdone).
    apply request_extends; [exact Hne|].
    intros Hk. exact (proj1 (keys_free filename Hk) Hin).
Qed.

Lemma requests_done (loc0 : string) (s s1 : Agg) :
  In "zoneinfo" names -> In loc0 (locales options) ->
  requests env dataRoot (locales options) names s = (Ok tt, s1) ->
  done s1.
Proof.
  intros Hz Hloc0 H.
  assert (E : s1 = snd (requests env dataRoot (locales options) names s))
    by now rewrite H.
  assert (Hr : fst (requests env dataRoot (locales options) names s) = Ok tt)
    by now rewrite H.
  rewrite E. unfold requests in Hr |- *.
  apply (forEach_reaches_Ok (locales options) _ done loc0 Hloc0); [| |exact Hr].
  - apply (forEach_reaches_Ok names _ done "zoneinfo" Hz).
    + intros t Ht. apply request_done; [exact Hz | exact Ht | now left].
    + intros y Hy t Ht Hdone. apply request_done; [exact Hy | exact Ht | now right].
  - intros loc _. apply forEach_keeps_Ok.
    intros y Hy t Ht Hdone. apply request_done; [exact Hy | exact Ht | now right].
Qed.

(** When the pass is over, what the zoneinfo request has left is still
    there. *)
Lemma pass_done (loc0 : string) (sources : Obj string) (final : Agg) :
  In "zoneinfo" names -> In loc0 (locales options) ->
  calcDataRoot env options = Ok dataRoot ->
  pass env options names emptyAgg = (Ok sources, final) ->
  done final.
Proof.
  intros Hz Hlocs Hdr Hpass.
  apply pass_Ok in Hpass
    as (outputDir & dataRoot' & s1 & s2 & s3 & _ & Hdr' & H1 & H2 & H3 & H4).
  rewrite Hdr in Hdr'. injection Hdr' as <-.
  pose proof (requests_done loc0 emptyAgg s1 Hz Hlocs H1) as D1.
  assert (F2 : formsOnly s2).
  { refine (keeps_run (keeps_forms_charsetPhase env dataRoot) H2 _).
    refine (keeps_run (keeps_forms_requests env dataRoot _ names) H1 _).
    constructor. }
  set (scripts := likelyScripts env (locales options)) in *.
  assert (D2 : done s2).
  { refine (zonesDone_extends env dataRoot zones generic tabText s1 s2 _ D1). split.
    - intros key line _ Hline Hkey.
      exact (keeps_run (keeps_line_charsetPhase env dataRoot key line Hline) H2 Hkey).
    - intros p Hp.
      exact (keeps_run (proj1 (keeps_manifest_phases env dataRoot scripts p)) H2 Hp). }
  assert (D3 : done s3).
  { refine (zonesDone_extends env dataRoot zones generic tabText s2 s3 _ D2). split.
    - intros key line Hkey _ Hline.
      pose proof (normPhase_line env dataRoot scripts key line s2 F2
                    (proj2 (keys_free key Hkey)) Hline) as L.
      now rewrite H3 in L.
    - intros p Hp.
      exact (keeps_run (proj2 (keeps_manifest_phases env dataRoot scripts p)) H3 Hp). }
  now rewrite (proj1 (emitFiles_inv _ _ _ _ _ H4)).
Qed.

(** With zoneinfo the only name and the generic zone files readable,
    the pass returns. *)
Lemma pass_zoneinfo_returns (outputDir : string) :
  names = ["zoneinfo"] ->
  calcOutputDir env options = Ok outputDir ->
  calcDataRoot env options = Ok dataRoot ->
  (forall file, In file generic ->
     exists text,
       readFileSync env (path_join env [dataRoot; "zoneinfo"; file]) = Ok text) ->
  (forall p, mkdirSync env p = Ok tt) ->
  (forall p text, writeFileSync env p text = Ok tt) ->
  exists sources final, pass env options names emptyAgg = (Ok sources, final).
Proof.
  intros Hnames Hod Hdr Hreadable Hmk Hwr. rewrite Hnames.
  set (Q := fun t : Agg => charsets t = [] /\ normalizations t = []).
  assert (Hreq : runs Q (requests env dataRoot (locales options) ["zoneinfo"])).
  { unfold requests. apply runs_forEach. intros loc _. cbn [forEach].
    apply runs_bind; [|intros t Ht; now split].
    rewrite request_zoneinfo. intros t Ht. split.
    - exact (zoneinfoRequest_returns env dataRoot (locales options) tabText zonetab
               top etc tab_read tab_parsed top_listed etc_listed t Hreadable).
    - revert Ht. apply (keeps_and (fun t => charsets t = [])
                          (fun t => normalizations t = []));
        unfold zoneinfoRequest, regionZone, genericZone; keeps_insensitive. }
  destruct (Hreq emptyAgg (conj eq_refl eq_refl)) as [Hr [Hc Hn]].
  destruct (requests env dataRoot (locales options) ["zoneinfo"] emptyAgg)
    as [[[]|e] s1] eqn:E1; [|discriminate].
  cbn [snd] in Hc, Hn.
  assert (E2 : charsetPhase env dataRoot s1 = (Ok tt, s1)).
  { unfold charsetPhase, bindM, gets. now rewrite Hc. }
  assert (E3 : normPhase env dataRoot (likelyScripts env (locales options)) s1
               = (Ok tt, s1)).
  { unfold normPhase, bindM, gets. now rewrite Hn. }
  destruct (emitFiles_Ok env outputDir s1 Hmk Hwr) as [sources Hemit].
  exists sources, s1. unfold pass. rewrite Hod, Hdr, !bindM_lift_Ok. cbv zeta.
  unfold bindM. rewrite E1, E2, E3. exact Hemit.
Qed.

End ZoneinfoPass.



